(** * nutils.SI: dimensional analysis, a shallow embedding of [SI.py]

    The development follows the layout of the Python module: a small
    prelude for the Python values the module manipulates (exceptions,
    [str] methods, [fractions.Fraction]), then [_split_factors], the
    metaclass [Dimension] with its cache, [parse], the class [Quantity]
    with [_dispatch], the dictionary [Units], and the tables of SI
    dimensions and units that the module builds when it is imported.

    Strings are byte strings holding the UTF-8 encoding of the Python
    text.  Every character set the module strips or splits on is ASCII,
    and bytewise lexicographic order on UTF-8 is code point order, so
    [str] methods and comparisons agree with Python's. *)

From Stdlib Require Import Ascii String QArith Qcanon.
From stdpp Require Import base tactics option list numbers strings pretty
  sorting gmap fin_maps.

Set Warnings "-register-all".

Local Open Scope string_scope.
Local Open Scope Z_scope.

(** ** Exceptions and the state-and-exception monad *)

Inductive exn : Set :=
| ValueError | TypeError | AttributeError | AssertionError | IndexError
| StopIteration | ZeroDivisionError | RecursionError | Exception.

Inductive result (A : Type) : Type :=
| Ok (a : A)
| Err (e : exn).
Arguments Ok {A} a.
Arguments Err {A} e.

(** A computation over a mutable store [S]: an exception keeps the store
    as it was when it was raised. *)
Definition M (S A : Type) : Type := S → result A * S.

Definition ret {S A} (a : A) : M S A := λ s, (Ok a, s).
Definition raise {S A} (e : exn) : M S A := λ s, (Err e, s).
Definition bind {S A B} (m : M S A) (k : A → M S B) : M S B :=
  λ s, match m s with
       | (Ok a, s') => k a s'
       | (Err e, s') => (Err e, s')
       end.
Definition get {S} : M S S := λ s, (Ok s, s).
Definition put {S} (s : S) : M S unit := λ _, (Ok tt, s).
Definition lift_result {S A} (r : result A) : M S A := λ s, (r, s).

Notation "'let*' x ':=' m 'in' k" := (bind m (λ x, k))
  (at level 10, x name, m at level 100, k at level 200).
Notation "'let*' ' p ':=' m 'in' k" := (bind m (λ p, k))
  (at level 10, p strict pattern, m at level 100, k at level 200).

Definition result_bind {A B} (r : result A) (k : A → result B) : result B :=
  match r with Ok a => k a | Err e => Err e end.

(** ** [str] methods *)

Fixpoint mem_char (c : ascii) (chars : string) : bool :=
  match chars with
  | "" => false
  | String d r => if Ascii.eqb c d then true else mem_char c r
  end.

(** [s.lstrip(chars)] *)
Fixpoint lstrip (chars s : string) : string :=
  match s with
  | "" => ""
  | String c r => if mem_char c chars then lstrip chars r else s
  end.

(** [s.rstrip(chars)] *)
Fixpoint rstrip (chars s : string) : string :=
  match s with
  | "" => ""
  | String c r =>
      match rstrip chars r with
      | "" => if mem_char c chars then "" else String c ""
      | r' => String c r'
      end
  end.

(** [s[n:]] and [s[:n]] for [0 <= n] *)
Fixpoint drop_str (n : nat) (s : string) : string :=
  match n, s with
  | O, _ => s
  | S n', String _ r => drop_str n' r
  | S _, "" => ""
  end.

Fixpoint take_str (n : nat) (s : string) : string :=
  match n, s with
  | S n', String c r => String c (take_str n' r)
  | _, _ => ""
  end.

(** [s.split(sep)] for a separator of one character *)
Fixpoint split (sep : ascii) (s : string) : list string :=
  match s with
  | "" => [""]
  | String c r =>
      if Ascii.eqb c sep then "" :: split sep r
      else match split sep r with
           | h :: t => String c h :: t
           | [] => [String c ""]
           end
  end.

(** [s.partition(sep)] for a separator of one character *)
Fixpoint partition (sep : ascii) (s : string) : string * string * string :=
  match s with
  | "" => ("", "", "")
  | String c r =>
      if Ascii.eqb c sep then ("", String sep "", r)
      else let '(a, b, d) := partition sep r in (String c a, b, d)
  end.

(** [''.join(l)] *)
Definition join (l : list string) : string := foldr String.app "" l.

Definition digits : string := "0123456789".

(** The value of a decimal digit: its code, counted from the code of
    [0]. *)
Definition digit_value (c : ascii) : option Z :=
  if mem_char c digits
  then Some (Z.of_N (N_of_ascii c) - Z.of_N (N_of_ascii "0"%char))
  else None.

(** [int(s)] on the strings [_split_factors] passes to it, which hold
    digits and underscores only: Python accepts groups of digits
    separated by single underscores. *)
Fixpoint int_go (acc : Z) (after_digit : bool) (s : string) : result Z :=
  match s with
  | "" => if after_digit then Ok acc else Err ValueError
  | String c r =>
      match digit_value c with
      | Some d => int_go (10 * acc + d) true r
      | None =>
          if Ascii.eqb c "_" && after_digit then int_go acc false r
          else Err ValueError
      end
  end.

Definition int (s : string) : result Z := int_go 0 false s.

(** [str(n)] for an integer *)
Definition str_int (n : Z) : string := pretty n.

(** Whether [float(s)] accepts [s], for the strings [parse] passes to
    it, which hold characters of ['+-0123456789.'] only: an optional
    sign, then digits with at most one point and at least one digit. *)
Fixpoint count_char (c : ascii) (s : string) : nat :=
  match s with
  | "" => O
  | String d r => (if Ascii.eqb c d then 1 else 0)%nat + count_char c r
  end.

Fixpoint all_chars (chars s : string) : bool :=
  match s with
  | "" => true
  | String c r => mem_char c chars && all_chars chars r
  end.

Fixpoint any_chars (chars s : string) : bool :=
  match s with
  | "" => false
  | String c r => mem_char c chars || any_chars chars r
  end.

Definition float_accepts (s : string) : bool :=
  let body := match s with
              | String "+" r | String "-" r => r
              | _ => s
              end in
  all_chars "0123456789." body && any_chars digits body
  && (count_char "." body <=? 1)%nat.

(** ** [fractions.Fraction]

    A [Fraction] is a rational in lowest terms with a positive
    denominator, which is [Qc]; Python's [==] on fractions is equality
    of [Qc]. *)

Definition Fraction : Type := Qc.

Definition numerator (q : Fraction) : Z := Qnum (this q).
Definition denominator (q : Fraction) : Z := Zpos (Qden (this q)).

(** [Fraction(n, d)] for integers [n] and [0 <= d] *)
Definition Fraction_new (n d : Z) : result Fraction :=
  match d with
  | Zpos p => Ok (Q2Qc (n # p))
  | _ => Err ZeroDivisionError
  end.

Definition Fraction_of_int (n : Z) : Fraction := Q2Qc (inject_Z n).

(** [bool(q)] *)
Definition Fraction_bool (q : Fraction) : bool := negb (numerator q =? 0).

(** [q > 0] *)
Definition Fraction_pos (q : Fraction) : bool := 0 <? numerator q.

(** ** [_split_factors]

    A generator is modelled by the list of the values it yields and the
    exception, if any, that ends it. *)

Definition generator (A : Type) : Type := list A * option exn.

(** [next(g)] *)
Definition next {A} (g : generator A) : result A :=
  match g with
  | (a :: _, _) => Ok a
  | ([], Some e) => Err e
  | ([], None) => Err StopIteration
  end.

(** [x or 1] for a string [x], passed to [int] *)
Definition int_or_1 (s : string) : result Z :=
  match s with
  | "" => Ok 1
  | _ => int s
  end.

(** The body of the inner loop for a nonempty [factor]. *)
Definition split_factor (factor : string) : result (string * Fraction) :=
  let base := rstrip "0123456789_" factor in
  let '(numer, sep, denom) :=
    partition "_" (drop_str (String.length base) factor) in
  result_bind (int_or_1 numer) (λ n,
  result_bind (int_or_1 denom) (λ d,
  result_bind (Fraction_new n d) (λ power,
  Ok (base, power)))).

Fixpoint split_part (isnumer : bool) (factors : list string)
  : generator (string * Fraction * bool) :=
  match factors with
  | [] => ([], None)
  | "" :: rest => split_part false rest
  | factor :: rest =>
      match split_factor factor with
      | Err e => ([], Some e)
      | Ok (base, power) =>
          let '(l, e) := split_part false rest in
          ((base, power, isnumer) :: l, e)
      end
  end.

Fixpoint split_parts (parts : list string)
  : generator (string * Fraction * bool) :=
  match parts with
  | [] => ([], None)
  | p :: rest =>
      match split_part true (split "/" p) with
      | (l, Some e) => (l, Some e)
      | (l, None) => let '(l', e) := split_parts rest in ((l ++ l')%list, e)
      end
  end.

Definition _split_factors (s : string)
  : generator (string * Fraction * bool) :=
  split_parts (split "*" s).

(** ** Python objects *)

(** A class created by the metaclass [Dimension]: [dim_id] is the
    identity of the class object, which [==] and [!=] on classes
    compare.  The base class [Quantity], which has no [__powers] and is
    the type of no value, is not among them. *)
Record Dimension : Type := mkDimension {
  dim_id : N;
  __name__ : string;
  __powers : gmap string Fraction
}.

Definition __qualname__ (cls : Dimension) : string :=
  "Quantity." +:+ __name__ cls.

(** The objects the module handles.  [int], [Fraction], [str] and
    sequences are the ones it inspects; an instance of a class created
    by [Dimension] holds its private [__value] and, once it came out of
    [parse], [_parsed_from]; [ClassAttr] is an attribute that the class
    [Units] inherits from [dict] (a method) or defines ([__prefix]);
    every other object (a float, an array, ...) is a host value [V]. *)
Inductive obj (V : Type) : Type :=
| Plain (v : V)
| PInt (n : Z)
| PFraction (q : Fraction)
| PStr (s : string)
| PList (l : list (obj V))
| Quant (cls : Dimension) (value : V) (_parsed_from : option string)
| ClassAttr (name : string)
| NotImplemented.
Arguments Plain {V} v.
Arguments PInt {V} n.
Arguments PFraction {V} q.
Arguments PStr {V} s.
Arguments PList {V} l.
Arguments Quant {V} cls value _parsed_from.
Arguments ClassAttr {V} name.
Arguments NotImplemented {V}.

(** [type(o)] *)
Inductive pytype (T : Type) : Type :=
| TDimension (cls : Dimension)
| Tint | TFraction | Tstr | Tlist | Tbuiltin | TNotImplemented
| THost (t : T).
Arguments TDimension {T} cls.
Arguments Tint {T}.
Arguments TFraction {T}.
Arguments Tstr {T}.
Arguments Tlist {T}.
Arguments Tbuiltin {T}.
Arguments TNotImplemented {T}.
Arguments THost {T} t.

(** The host numeric library and the part of Python the module leaves
    to it: the module never looks inside a host value. *)
Class Host : Type := {
  V : Type;
  (** the classes of host values, and [type(v)] *)
  T : Type;
  T_eq_dec :: EqDecision T;
  htype : V → T;
  (** the class [float] *)
  float_type : T;
  (** [float(s)] for a string that [float] accepts, which is also the
      value of the float literal [s]; [float(1)] is [float "1"] *)
  float : string → V;
  (** [Fraction(x)], after [x.__index__()] was tried, for an [x] that is
      neither an [int] nor a [Fraction] *)
  Fraction_of : obj V → result Fraction;
  (** [str(v)] *)
  str : V → string;
  (** [v.__format__(spec)] *)
  format_host : V → string → string;
  (** [getattr(operator, name)] applied to unwrapped arguments *)
  operator_call : string → list (obj V) → V
}.

(** A callable passed to [_dispatch]: its [__name__] and what it
    computes on unwrapped arguments (keyword arguments are part of the
    callable). *)
Record callable `{Host} : Type := mkCallable {
  fn_name : string;
  fn_call : list (obj V) → V
}.

Section objects.
Context `{Host}.

Definition operator (name : string) : callable :=
    {| fn_name := name; fn_call := operator_call name |}.

Definition type_ (o : obj V) : pytype T :=
    match o with
    | Plain v => THost (htype v)
    | PInt _ => Tint
    | PFraction _ => TFraction
    | PStr _ => Tstr
    | PList _ => Tlist
    | Quant cls _ _ => TDimension cls
    | ClassAttr _ => Tbuiltin
    | NotImplemented => TNotImplemented
    end.

  (** [a == b] on classes is identity. *)
Definition type_eqb (a b : pytype T) : bool :=
    match a, b with
    | TDimension c, TDimension d => (dim_id c =? dim_id d)%N
    | Tint, Tint | TFraction, TFraction | Tstr, Tstr | Tlist, Tlist
    | Tbuiltin, Tbuiltin | TNotImplemented, TNotImplemented => true
    | THost t, THost u => bool_decide (t = u)
    | _, _ => false
    end.

  (** [isinstance(o, Quantity)] *)
Definition is_Quantity (o : obj V) : bool :=
    match o with Quant _ _ _ => true | _ => false end.

  (** [l[i]] *)
Definition getitem {A} (l : list A) (i : nat) : result A :=
    match l !! i with Some a => Ok a | None => Err IndexError end.
End objects.

(** An operand of an operator of the metaclass: a class, or any other
    object. *)
Inductive operand `{Host} : Type :=
| AClass (t : pytype T)
| AnObject (o : obj V).

(** [isinstance(other, Dimension)] *)
Definition as_Dimension `{Host} (other : operand) : option Dimension :=
  match other with
  | AClass (TDimension d) => Some d
  | _ => None
  end.

(** The class attribute [Dimension.__cache], with the allocator of class
    identities. *)
Record registry : Type := mkRegistry {
  __cache : gmap string Dimension;
  next_id : N
}.

Definition registry_empty : registry :=
  {| __cache := ∅; next_id := 0%N |}.

(** Order of the sort key [item[::-1]], the tuple [(power, base)]. *)
Definition key_le (x y : string * Fraction) : Prop :=
  (x.2 < y.2)%Qc ∨ (x.2 = y.2 ∧ String.le x.1 y.1).

(** [reverse=True]: descending in the key. *)
Definition key_ge (x y : string * Fraction) : Prop := key_le y x.

Global Instance key_le_dec : RelDecision key_le.
Proof. intros x y. unfold key_le. apply _. Defined.

Global Instance key_ge_dec : RelDecision key_ge.
Proof. intros x y. unfold key_ge. apply _. Defined.

(** One term of the generator expression that [from_powers] joins. *)
Definition name_token (item : string * Fraction) : string :=
  let '(base, power) := item in
  (if Fraction_pos power then "*" else "/") +:+ base
  +:+ (if Z.abs (numerator power) =? 1 then ""
       else str_int (Z.abs (numerator power)))
  +:+ (if Z.abs (denominator power) =? 1 then ""
       else "_" +:+ str_int (Z.abs (denominator power))).

(** ** The metaclass [Dimension] *)

Module Dimension.

  (** [sorted(powers.items(), key=lambda item: item[::-1], reverse=True)] *)
Definition sorted_items (powers : gmap string Fraction)
    : list (string * Fraction) :=
    merge_sort key_ge (map_to_list powers).

  (** [{base: power for base, power in arg.items() if power}] *)
Definition drop_zero (arg : gmap string Fraction) : gmap string Fraction :=
    filter (λ kv, Fraction_bool kv.2 = true) arg.

Definition canonical_name (powers : gmap string Fraction) : string :=
    lstrip "*" (join (map name_token (sorted_items powers))).

  (** [from_powers]: the three [isinstance] checks hold by typing. *)
Definition from_powers (arg : gmap string Fraction) : M registry Dimension :=
    let powers := drop_zero arg in
    let name := canonical_name powers in
    λ r,
      match __cache r !! name with
      | Some cls => (Ok cls, r)
      | None =>
          let cls := {| dim_id := next_id r;
                        __name__ := "[" +:+ name +:+ "]";
                        __powers := powers |} in
          (Ok cls, {| __cache := <[name := cls]> (__cache r);
                      next_id := N.succ (next_id r) |})
      end.

  (** [create]: [arg] is a string by typing. *)
Definition create (arg : string) : M registry Dimension :=
    match next (_split_factors arg) with
    | Err e => raise e
    | Ok (base, _, _) =>
        if negb (String.eqb base arg) then raise ValueError
        else
          let* r := get in
          match __cache r !! arg with
          | Some _ => raise ValueError
          | None => from_powers {[ arg := Fraction_of_int 1 ]}
          end
    end.

  (** [__bool__] *)
Definition __bool__ (cls : Dimension) : bool :=
    negb (bool_decide (__powers cls = ∅)).

  (** [{base: op(a.get(base, 0), b.get(base, 0)) for base in set(a) | set(b)}]:
      [op] is [operator.add] or [operator.sub] on fractions, and the
      [int] 0 stands for an absent base. *)
Definition pointwise (op : Fraction → Fraction → Fraction)
      (a b : gmap string Fraction) : gmap string Fraction :=
    merge (λ x y,
             match x, y with
             | None, None => None
             | _, _ => Some (op (default (Fraction_of_int 0) x)
                                (default (Fraction_of_int 0) y))
             end) a b.

  (** [_binop] *)
Definition _binop (op : Fraction → Fraction → Fraction)
      (a b : gmap string Fraction) : M registry Dimension :=
    from_powers (pointwise op a b).

Section methods.
Context `{Host}.

Definition __mul__ (cls : Dimension) (other : operand)
      : M registry Dimension :=
      match as_Dimension other with
      | None => ret cls
      | Some other => _binop Qcplus (__powers cls) (__powers other)
      end.

Definition __rmul__ (cls : Dimension) (other : operand)
      : M registry Dimension :=
      match as_Dimension other with
      | None => ret cls
      | Some _ => raise AssertionError
      end.

Definition __truediv__ (cls : Dimension) (other : operand)
      : M registry Dimension :=
      match as_Dimension other with
      | None => ret cls
      | Some other => _binop Qcminus (__powers cls) (__powers other)
      end.

    (** [Fraction(other)] after the attempt at [other.__index__()] *)
Definition exponent (other : obj V) : result Fraction :=
      match other with
      | PInt n => Ok (Fraction_of_int n)
      | PFraction q => Ok q
      | Plain _ | PStr _ => Fraction_of other
      | _ => Err TypeError
      end.

Definition __pow__ (cls : Dimension) (other : obj V)
      : M registry Dimension :=
      match exponent other with
      | Err e => raise e
      | Ok q => from_powers ((λ power, power * q)%Qc <$> __powers cls)
      end.

Definition __rtruediv__ (cls : Dimension) (other : operand)
      : M registry Dimension :=
      match as_Dimension other with
      | None => __pow__ cls (PInt (-1))
      | Some _ => raise AssertionError
      end.

Definition __wrap__ (cls : Dimension) (value : V) : obj V :=
      if bool_decide (__powers cls = ∅) then Plain value
      else Quant cls value None.

Definition reference_quantity (cls : Dimension) : obj V :=
      __wrap__ cls (float "1.").
End methods.

End Dimension.

(** ** The state of the module: the cache of [Dimension] and the
    dictionary [units] *)

Record state `{Host} : Type := mkState {
  dimensions : registry;
  units : gmap string (obj V)
}.
Arguments mkState {_} _ _.

Section control.
Context `{Host}.

Definition in_registry {A} (m : M registry A) : M state A :=
    λ s, let '(r, reg) := m (dimensions s) in
         (r, {| dimensions := reg; units := units s |}).

  (** [try: m except (classes): handler] *)
Definition try_except {S A} (m : M S A) (catches : exn → bool)
      (handler : M S A) : M S A :=
    λ s, match m s with
         | (Err e, s') => if catches e then handler s' else (Err e, s')
         | r => r
         end.

Fixpoint mapM {S A B} (f : A → M S B) (l : list A) : M S (list B) :=
    match l with
    | [] => ret []
    | a :: l' => let* b := f a in let* bs := mapM f l' in ret (b :: bs)
    end.

Fixpoint foldM {S A B} (f : B → A → M S B) (b : B) (l : list A) : M S B :=
    match l with
    | [] => ret b
    | a :: l' => let* b' := f b a in foldM f b' l'
    end.

  (** [name in (...)] *)
Definition name_in (name : string) (names : list string) : bool :=
    existsb (String.eqb name) names.

  (** The binary operators [*], [/] and [**] between two classes, or a
      class and an object: [type] itself defines none of them, so a
      class that is not a [Dimension] defers to the reflected method of
      the other operand.  With a [Quantity] as exponent that method is
      [Quantity.__rpow__], which comes back to the same expression. *)
Definition class_mul (a b : pytype T) : M registry Dimension :=
    match a, b with
    | TDimension cls, _ => Dimension.__mul__ cls (AClass b)
    | _, TDimension cls => Dimension.__rmul__ cls (AClass a)
    | _, _ => raise TypeError
    end.

Definition class_truediv (a b : pytype T) : M registry Dimension :=
    match a, b with
    | TDimension cls, _ => Dimension.__truediv__ cls (AClass b)
    | _, TDimension cls => Dimension.__rtruediv__ cls (AClass a)
    | _, _ => raise TypeError
    end.

Definition class_pow (a : pytype T) (x : obj V) : M registry Dimension :=
    match a with
    | TDimension cls => Dimension.__pow__ cls x
    | _ => if is_Quantity x then raise RecursionError else raise TypeError
    end.
End control.

(** ** The class [Quantity] *)

Module Quantity.
Section methods.
Context `{Host}.
    (** the module-level function [parse], defined after the class *)
Variable parse : string → M state (obj V).

    (** [arg.__value if isinstance(arg, Quantity) else arg] *)
Definition unwrap (arg : obj V) : obj V :=
      match arg with
      | Quant _ value _ => Plain value
      | _ => arg
      end.

    (** [any(type(q) != Dim for q in l)] *)
Definition any_other_type (Dim : pytype T) (l : list (obj V)) : bool :=
      existsb (λ q, negb (type_eqb (type_ q) Dim)) l.

    (** The chain of [if]/[elif] of [_dispatch]: the class [Dim] and
        the arguments for [op], or [None] where [_dispatch] returns
        [NotImplemented]. *)
Definition classify (name : string) (args : list (obj V))
      : M state (option (pytype T * list (obj V))) :=
      if name_in name ["add"; "sub"; "subtract"; "hypot"] then
        let* a0 := lift_result (getitem args 0) in
        let Dim := type_ a0 in
        let* a1 := lift_result (getitem args 1) in
        if negb (type_eqb (type_ a1) Dim) then raise TypeError
        else ret (Some (Dim, args))
      else if name_in name ["mul"; "multiply"; "matmul"] then
        let* a0 := lift_result (getitem args 0) in
        let* a1 := lift_result (getitem args 1) in
        let* Dim := in_registry (class_mul (type_ a0) (type_ a1)) in
        ret (Some (TDimension Dim, args))
      else if name_in name ["truediv"; "true_divide"; "divide"] then
        let* a0 := lift_result (getitem args 0) in
        let* a1 := lift_result (getitem args 1) in
        let* Dim := in_registry (class_truediv (type_ a0) (type_ a1)) in
        ret (Some (TDimension Dim, args))
      else if name_in name
                ["neg"; "negative"; "pos"; "positive"; "abs"; "absolute";
                 "sum"; "mean"; "broadcast_to"; "transpose"; "trace";
                 "take"; "ptp"; "getitem"; "amax"; "amin"; "max"; "min"]
      then
        let* a0 := lift_result (getitem args 0) in
        ret (Some (type_ a0, args))
      else if String.eqb name "sqrt" then
        let* a0 := lift_result (getitem args 0) in
        let* half := lift_result (Fraction_new 1 2) in
        let* Dim := in_registry (class_pow (type_ a0) (PFraction half)) in
        ret (Some (TDimension Dim, args))
      else if String.eqb name "setitem" then
        let* a0 := lift_result (getitem args 0) in
        let Dim := type_ a0 in
        let* a2 := lift_result (getitem args 2) in
        if negb (type_eqb (type_ a2) Dim) then raise TypeError
        else ret (Some (Dim, args))
      else if name_in name ["pow"; "power"] then
        let* a0 := lift_result (getitem args 0) in
        let* a1 := lift_result (getitem args 1) in
        let* Dim := in_registry (class_pow (type_ a0) a1) in
        ret (Some (TDimension Dim, args))
      else if name_in name
                ["lt"; "le"; "eq"; "ne"; "gt"; "ge"; "equal"; "not_equal";
                 "less"; "less_equal"; "greater"; "greater_equal";
                 "isfinite"; "isnan"]
      then
        if match args with
           | [] => false
           | a0 :: rest => any_other_type (type_ a0) rest
           end
        then raise TypeError
        else
          let* Dim := in_registry (Dimension.from_powers ∅) in
          ret (Some (TDimension Dim, args))
      else if name_in name ["stack"; "concatenate"] then
        match args with
        | [PList stack_args] =>
            let* a0 := lift_result (getitem stack_args 0) in
            let Dim := type_ a0 in
            if any_other_type Dim (drop 1 stack_args) then raise TypeError
            else
              let* values :=
                mapM (λ q, match q with
                           | Quant _ value _ => ret (Plain value)
                           | _ => raise AttributeError
                           end) stack_args in
              ret (Some (Dim, [PList values]))
        | [_] => raise TypeError
        | _ => raise ValueError
        end
      else if name_in name ["shape"; "ndim"; "size"] then
        let* Dim := in_registry (Dimension.from_powers ∅) in
        ret (Some (TDimension Dim, args))
      else ret None.

Definition _dispatch (op : callable) (args : list (obj V))
      : M state (obj V) :=
      let name := fn_name op in
      let* args := mapM (λ arg, match arg with
                                | PStr s => parse s
                                | _ => ret arg
                                end) args in
      let* r := classify name args in
      match r with
      | None => ret NotImplemented
      | Some (TDimension Dim, args) =>
          ret (Dimension.__wrap__ Dim (fn_call op (map unwrap args)))
      | Some (_, _) => raise AssertionError
      end.

    (** [_binary_r(name)]: the method and its reflection *)
Definition _binary_r (name : string) (self other : obj V)
      : M state (obj V) :=
      _dispatch (operator name) [self; other].

Definition _binary_r_reflected (name : string) (self other : obj V)
      : M state (obj V) :=
      _dispatch (operator name) [other; self].

    (** [a op b] for the operators [*], [/] and [**] ([name] is [mul],
        [truediv] or [pow]): a [Quantity] on either side takes the
        operation through its method or its reflected method, both of
        which call [_dispatch] on [a, b]; between other objects the
        operation is the host's. *)
Definition binop (name : string) (a b : obj V) : M state (obj V) :=
      if is_Quantity a then _binary_r name a b
      else if is_Quantity b then _binary_r_reflected name b a
      else
        match a, b with
        | ClassAttr _, _ | _, ClassAttr _
        | NotImplemented, _ | _, NotImplemented => raise TypeError
        | _, _ => ret (Plain (operator_call name [a; b]))
        end.

    (** [__str__] *)
Definition __str__ (cls : Dimension) (value : V) : string :=
      str value +:+ __name__ cls.
End methods.
End Quantity.

(** ** The class [Units] and its instance [units] *)

Module Units.

  (** [__prefix], in the order of the keyword arguments; the scales are
      the float literals of the source. *)
Definition __prefix : list (string * string) :=
    [("Y", "1e24"); ("Z", "1e21"); ("E", "1e18"); ("P", "1e15");
     ("T", "1e12"); ("G", "1e9"); ("M", "1e6"); ("k", "1e3"); ("h", "1e2");
     ("d", "1e-1"); ("c", "1e-2"); ("m", "1e-3"); ("μ", "1e-6");
     ("n", "1e-9"); ("p", "1e-12"); ("f", "1e-15"); ("a", "1e-18");
     ("z", "1e-21"); ("y", "1e-24")].

  (** The attributes that an instance finds on its class before
      [__getattr__] is asked: the methods of [dict] and the table
      [__prefix].  The remaining ones have names that end in an
      underscore. *)
Definition class_attrs : list string :=
    ["clear"; "copy"; "fromkeys"; "get"; "items"; "keys"; "pop";
     "popitem"; "setdefault"; "update"; "values"; "_Units__prefix"].

Section methods.
Context `{Host}.
    (** the module-level function [parse], defined after the class *)
Variable parse : string → M state (obj V).

Definition __getattr__ (name : string) : M state (obj V) :=
      let* s := get in
      match units s !! name with
      | None => raise AttributeError
      | Some v => ret v
      end.

    (** [getattr(units, name)] *)
Definition getattr (name : string) : M state (obj V) :=
      if name_in name class_attrs then ret (ClassAttr name)
      else __getattr__ name.

    (** a dictionary display or comprehension: a later entry replaces
        an earlier one with the same key *)
Definition dict_of (items : list (string * obj V))
      : gmap string (obj V) :=
      foldl (λ d kv, <[kv.1 := kv.2]> d) ∅ items.

Definition __setattr__ (name : string) (value : obj V) : M state unit :=
      let* value :=
        if is_Quantity value then ret value
        else match value with
             | PStr s => parse s
             | _ => raise TypeError
             end in
      let* s := get in
      if bool_decide (is_Some (units s !! name)) then raise ValueError
      else
        let* scaled :=
          mapM (λ ps : string * string,
                  let* v := Quantity.binop parse "mul" value
                              (Plain (float ps.2)) in
                  ret (ps.1 +:+ name, v)) __prefix in
        let scaled_units := dict_of scaled in
        let* s := get in
        let collisions := dom scaled_units ∩ dom (units s) in
        if negb (bool_decide (collisions = ∅)) then raise ValueError
        else
          let* _ := put {| dimensions := dimensions s;
                           units := <[name := value]> (units s) |} in
          let* s := get in
          put {| dimensions := dimensions s;
                 units := scaled_units ∪ units s |}.
End methods.
End Units.

(** ** [parse] *)

Section parse.
Context `{Host}.

  (** [float(x or 1)] for a string [x] *)
Definition float_or_1 (x : string) : result V :=
    match x with
    | "" => Ok (float "1")
    | _ => if float_accepts x then Ok (float x) else Err ValueError
    end.

Definition catches_ValueError_AttributeError (e : exn) : bool :=
    match e with
    | ValueError | AttributeError => true
    | _ => false
    end.

Section body.
    (** the reference to [parse] in [_dispatch] *)
Variable parse : string → M state (obj V).

    (** The body of the loop of [parse]. *)
Definition parse_step (q : obj V) (item : string * Fraction * bool)
      : M state (obj V) :=
      let '(expr, power, isnumer) := item in
      let u := lstrip "+-0123456789." expr in
      let* v :=
        try_except
          (let* c := lift_result
                       (float_or_1
                          (take_str (String.length expr - String.length u)
                                    expr)) in
           let* x := Units.getattr u in
           let* xp := Quantity.binop parse "pow" x (PFraction power) in
           Quantity.binop parse "mul" (Plain c) xp)
          catches_ValueError_AttributeError
          (raise ValueError) in
      if isnumer : bool then Quantity.binop parse "mul" q v
      else Quantity.binop parse "truediv" q v.

    (** [q._parsed_from = s]: only an instance of a class of the module
        takes a new attribute; a float does not. *)
Definition set_parsed_from (q : obj V) (s : string) : M state (obj V) :=
      match q with
      | Quant cls value _ => ret (Quant cls value (Some s))
      | _ => raise AttributeError
      end.

Definition parse_body (s : string) : M state (obj V) :=
      let tail := lstrip "+-0123456789." s in
      let* q := lift_result
                  (float_or_1
                     (take_str (String.length s - String.length tail) s)) in
      let '(factors, stop) := _split_factors tail in
      let* q := foldM parse_step (Plain q) factors in
      let* _ := match stop with
                | Some e => raise e
                | None => ret tt
                end in
      set_parsed_from q s.
End body.

  (** [parse] calls itself through [_dispatch], which parses the
      operands that are strings; a recursion deeper than the
      interpreter's limit ends in [RecursionError]. *)
Fixpoint parse_depth (depth : nat) (s : string) : M state (obj V) :=
    match depth with
    | O => raise RecursionError
    | S d => parse_body (parse_depth d) s
    end.

Definition recursion_limit : nat := 1000.

Definition parse (s : string) : M state (obj V) :=
    parse_depth recursion_limit s.

Definition _dispatch : callable → list (obj V) → M state (obj V) :=
    Quantity._dispatch parse.

Definition mul : obj V → obj V → M state (obj V) :=
    Quantity.binop parse "mul".
Definition truediv : obj V → obj V → M state (obj V) :=
    Quantity.binop parse "truediv".
Definition pow : obj V → obj V → M state (obj V) :=
    Quantity.binop parse "pow".

  (** [units.name = value] *)
Definition define : string → obj V → M state unit :=
    Units.__setattr__ parse.

  (** [Dimension.__call__], for a class [cls] created by the metaclass *)
Definition Dimension__call__ (cls : Dimension) (value : obj V)
    : M state (obj V) :=
    match value with
    | Quant c _ _ =>
        if (dim_id c =? dim_id cls)%N then ret value else raise ValueError
    | PStr s =>
        let* q := parse s in
        let expect := if bool_decide (__powers cls = ∅)
                      then THost float_type else TDimension cls in
        if negb (type_eqb (type_ q) expect) then raise TypeError
        else ret q
    | _ => raise ValueError
    end.

  (** ** Display *)

Definition hex_char (d : N) : ascii :=
    match d with
    | 0 => "0" | 1 => "1" | 2 => "2" | 3 => "3" | 4 => "4" | 5 => "5"
    | 6 => "6" | 7 => "7" | 8 => "8" | 9 => "9" | 10 => "a" | 11 => "b"
    | 12 => "c" | 13 => "d" | 14 => "e" | _ => "f"
    end%char%N.

Fixpoint hex_go (fuel : nat) (n : N) (acc : string) : string :=
    match fuel with
    | O => acc
    | S fuel' =>
        if (n =? 0)%N then acc
        else hex_go fuel' (n / 16)%N (String (hex_char (n mod 16)%N) acc)
    end.

Definition hex (n : N) : string :=
    if (n =? 0)%N then "0" else hex_go (N.size_nat n) n "".

  (** the [__module__] of the classes that [from_powers] creates *)
Definition __module__ : string := "nutils.SI".

  (** [repr(self)]: [Quantity] defines no [__repr__], so this is
      [object.__repr__], which prints the class and the address [addr]
      of the object. *)
Definition __repr__ (cls : Dimension) (addr : N) : string :=
    "<" +:+ __module__ +:+ "." +:+ __qualname__ cls
    +:+ " object at 0x" +:+ hex addr +:+ ">".

  (** [Quantity.__format__] for a nonempty [format_spec]; the quotient
      [v] formats itself, by the host when it is a bare value and by
      this method again when it is a [Quantity]. *)
Fixpoint format_depth (depth : nat) (cls : Dimension) (value : V)
      (parsed_from : option string) (format_spec : string) : M state string :=
    match depth with
    | O => raise RecursionError
    | S d =>
        let n := (String.length format_spec
                  - String.length (lstrip "0123456789.," format_spec))%nat in
        let* u := Dimension__call__ cls (PStr (drop_str n format_spec)) in
        let* v := truediv (Quant cls value parsed_from) u in
        match v with
        | Plain x =>
            ret (format_host x (take_str n format_spec +:+ "f")
                 +:+ drop_str n format_spec)
        | Quant c x p =>
            let* text := format_depth d c x p
                           (take_str n format_spec +:+ "f") in
            ret (text +:+ drop_str n format_spec)
        | _ => raise TypeError
        end
    end.

  (** [Quantity.__format__], for the instance [Quant cls value _] at
      address [addr] *)
Definition Quantity__format__ (cls : Dimension) (value : V)
      (parsed_from : option string) (addr : N) (format_spec : string)
    : M state string :=
    match format_spec with
    | "" => ret (__repr__ cls addr)
    | _ => format_depth recursion_limit cls value parsed_from format_spec
    end.
End parse.

(** ** The tables of the module: SI dimensions and SI units *)

Module SI.

  (** The names that the module binds to dimensions (a name bound to
      the same class as another one is listed with it). *)
Record dimensions_table : Type := mkDimensions {
    Time : Dimension;
    Length : Dimension;
    Mass : Dimension;
    ElectricCurrent : Dimension;
    Temperature : Dimension;
    AmountOfSubstance : Dimension;
    LuminousIntensity : Dimension;     (* LuminousFlux *)
    Area : Dimension;
    Volume : Dimension;
    WaveNumber : Dimension;            (* Vergence *)
    Velocity : Dimension;              (* Speed *)
    Acceleration : Dimension;
    Force : Dimension;                 (* Weight *)
    Pressure : Dimension;              (* Stress *)
    Tension : Dimension;
    Energy : Dimension;                (* Work, Heat *)
    Power : Dimension;
    Density : Dimension;
    SpecificVolume : Dimension;        (* MassConcentration *)
    SurfaceDensity : Dimension;
    Viscosity : Dimension;
    Frequency : Dimension;             (* Radioactivity *)
    CurrentDensity : Dimension;
    MagneticFieldStrength : Dimension;
    Charge : Dimension;
    ElectricPotential : Dimension;
    Capacitance : Dimension;
    Resistance : Dimension;            (* Impedance, Reactance *)
    Conductance : Dimension;
    MagneticFlux : Dimension;
    MagneticFluxDensity : Dimension;
    Inductance : Dimension;
    Llluminance : Dimension;
    AbsorbedDose : Dimension;          (* EquivalentDose *)
    Concentration : Dimension;
    CatalyticActivity : Dimension
  }.

Section tables.
Context `{Host}.

Definition times (a b : Dimension) : M registry Dimension :=
      Dimension.__mul__ a (AClass (TDimension b)).
Definition over (a b : Dimension) : M registry Dimension :=
      Dimension.__truediv__ a (AClass (TDimension b)).
Definition to_the (a : Dimension) (n : Z) : M registry Dimension :=
      Dimension.__pow__ a (PInt n).

Definition SI_dimensions : M registry dimensions_table :=
      let* Time := Dimension.create "T" in
      let* Length := Dimension.create "L" in
      let* Mass := Dimension.create "M" in
      let* ElectricCurrent := Dimension.create "I" in
      let* Temperature := Dimension.create "θ" in
      let* AmountOfSubstance := Dimension.create "N" in
      let* LuminousIntensity := Dimension.create "J" in
      let* Area := to_the Length 2 in
      let* Volume := to_the Length 3 in
      let* WaveNumber := to_the Length (-1) in
      let* Velocity := over Length Time in
      let* Acceleration := over Velocity Time in
      let* Force := times Mass Acceleration in
      let* Pressure := over Force Area in
      let* Tension := over Force Length in
      let* Energy := times Force Length in
      let* Power := over Energy Time in
      let* Density := over Mass Volume in
      let* SpecificVolume := to_the Density (-1) in
      let* SurfaceDensity := over Mass Area in
      let* Viscosity := times Pressure Time in
      let* Frequency := to_the Time (-1) in
      let* CurrentDensity := over ElectricCurrent Area in
      let* MagneticFieldStrength := over ElectricCurrent Length in
      let* Charge := times ElectricCurrent Time in
      let* ElectricPotential := over Power ElectricCurrent in
      let* Capacitance := over Charge ElectricPotential in
      let* Resistance := over ElectricPotential ElectricCurrent in
      let* Conductance := to_the Resistance (-1) in
      let* MagneticFlux := times ElectricPotential Time in
      let* MagneticFluxDensity := over MagneticFlux Area in
      let* Inductance := over MagneticFlux ElectricCurrent in
      let* Llluminance := over LuminousIntensity Area in
      let* AbsorbedDose := over Energy Mass in
      let* Concentration := over AmountOfSubstance Volume in
      let* CatalyticActivity := over AmountOfSubstance Time in
      ret (mkDimensions Time Length Mass ElectricCurrent Temperature
             AmountOfSubstance LuminousIntensity Area Volume WaveNumber
             Velocity Acceleration Force Pressure Tension Energy Power
             Density SpecificVolume SurfaceDensity Viscosity Frequency
             CurrentDensity MagneticFieldStrength Charge ElectricPotential
             Capacitance Resistance Conductance MagneticFlux
             MagneticFluxDensity Inductance Llluminance AbsorbedDose
             Concentration CatalyticActivity).

    (** The units that the module defines by an expression, in order. *)
Definition derived_units : list (string * string) :=
      [("N", "kg*m/s2"); ("Pa", "N/m2"); ("J", "N*m"); ("W", "J/s");
       ("Hz", "/s"); ("C", "A*s"); ("V", "J/C"); ("F", "C/V");
       ("Ω", "V/A"); ("S", "/Ω"); ("Wb", "V*s"); ("T", "Wb/m2");
       ("H", "Wb/A"); ("lm", "cd"); ("lx", "lm/m2"); ("Bq", "/s");
       ("Gy", "J/kg"); ("Sv", "J/kg"); ("kat", "mol/s");
       ("min", "60s"); ("h", "60min"); ("day", "24h");
       ("au", "149597870700m"); ("ha", "hm2"); ("L", "dm3");
       ("t", "1000kg"); ("Da", "1.66053904020yg");
       ("eV", ".1602176634aJ")].

Definition SI_units (d : dimensions_table) : M state unit :=
      let* _ := define "m" (Dimension.reference_quantity (Length d)) in
      let* _ := define "s" (Dimension.reference_quantity (Time d)) in
      let* g := mul (Dimension.reference_quantity (Mass d))
                    (Plain (float "1e-3")) in
      let* _ := define "g" g in
      let* _ := define "A"
                  (Dimension.reference_quantity (ElectricCurrent d)) in
      let* _ := define "K" (Dimension.reference_quantity (Temperature d)) in
      let* _ := define "mol"
                  (Dimension.reference_quantity (AmountOfSubstance d)) in
      let* _ := define "cd"
                  (Dimension.reference_quantity (LuminousIntensity d)) in
      let* _ := mapM (λ ne : string * string, define ne.1 (PStr ne.2))
                  derived_units in
      ret tt.

    (** What importing the module runs. *)
Definition import : M state dimensions_table :=
      let* d := in_registry SI_dimensions in
      let* _ := SI_units d in
      ret d.

Definition state_empty : state :=
      {| dimensions := registry_empty; units := ∅ |}.
End tables.
End SI.

(** * Properties of the module *)

(** ** Symbols, power maps and the invariant of the cache *)

(** A string either is empty or starts with a character of [chars]. *)
Definition starts_in (chars s : string) : Prop :=
  match s with
  | "" => True
  | String c _ => mem_char c chars = true
  end.

(** The strings [create] accepts as the symbol of a root dimension:
    [_split_factors] gives the string back as its first base. *)
Definition valid_symbol (b : string) : bool :=
  negb (String.eqb b "") && negb (any_chars "*/" b)
  && String.eqb (rstrip "0123456789_" b) b.

(** An entry that [from_powers] names: a valid symbol, a power that is
    not zero. *)
Definition named_item (item : string * Fraction) : Prop :=
  valid_symbol item.1 = true ∧ Fraction_bool item.2 = true.

(** The three parts of a token of the name after its symbol. *)
Definition sign_char (q : Fraction) : ascii :=
  if Fraction_pos q then "*"%char else "/"%char.

Definition num_text (q : Fraction) : string :=
  if Z.abs (numerator q) =? 1 then "" else str_int (Z.abs (numerator q)).

Definition den_text (q : Fraction) : string :=
  if Z.abs (denominator q) =? 1 then ""
  else "_" +:+ str_int (Z.abs (denominator q)).

Definition valid_powers (m : gmap string Fraction) : Prop :=
  map_Forall (λ b _, valid_symbol b = true) m.

Definition nonzero_powers (m : gmap string Fraction) : Prop :=
  map_Forall (λ _ q, Fraction_bool q = true) m.

(** What holds of the cache in every state that [create] and the
    operators of the metaclass reach: a class is stored under its own
    name, which is the canonical name of its powers; its symbols are
    valid and none of its powers is zero; no two entries share an
    identity, and every identity in use is below the next one. *)
Definition registered (r : registry) (name : string) (cls : Dimension)
  : Prop :=
  (dim_id cls < next_id r)%N
  ∧ __name__ cls = "[" +:+ name +:+ "]"
  ∧ Dimension.canonical_name (__powers cls) = name
  ∧ valid_powers (__powers cls)
  ∧ nonzero_powers (__powers cls).

Definition registry_wf (r : registry) : Prop :=
  map_Forall (registered r) (__cache r)
  ∧ NoDup ((dim_id ∘ snd) <$> map_to_list (__cache r)).

(** Two power maps for the examples: length, written with a zero power
    of time, and area. *)
Definition length_and_area : gmap string Fraction * gmap string Fraction :=
  ({[ "L" := Fraction_of_int 1; "T" := Fraction_of_int 0 ]},
   {[ "L" := Fraction_of_int 2 ]}).

(** ** The words of the specification on canonical names *)

(** A token: [*] before a positive exponent and [/] before a negative
    one, the symbol, the numerator unless its magnitude is 1, and [_]
    with the denominator unless it is 1. *)
Definition spec_token (item : string * Fraction) : string :=
  let '(symbol, power) := item in
  (if decide (0 < power)%Qc then "*" else "/") +:+ symbol
  +:+ (if decide (Z.abs (numerator power) = 1) then ""
       else str_int (Z.abs (numerator power)))
  +:+ (if decide (denominator power = 1) then ""
       else "_" +:+ str_int (denominator power)).

(** The order of the entries in the name that the code builds: by
    descending power, then by descending symbol. *)
Definition descending (x y : string * Fraction) : Prop :=
  (y.2 < x.2)%Qc ∨ (y.2 = x.2 ∧ String.le y.1 x.1).

(** The order that the specification states: by symbol, then by
    descending power. *)
Definition by_symbol (x y : string * Fraction) : Prop :=
  String.le x.1 y.1 ∧ (x.1 = y.1 → (y.2 ≤ x.2)%Qc).

Global Instance by_symbol_dec : RelDecision by_symbol.
Proof. intros x y. unfold by_symbol. apply _. Defined.

(** The name as the specification states it. *)
Definition claimed_name (powers : gmap string Fraction) : string :=
  join (map spec_token (merge_sort by_symbol (map_to_list powers))).

(** The powers of a force: mass times length over time squared. *)
Definition force_powers : gmap string Fraction :=
  {[ "M" := Fraction_of_int 1; "L" := Fraction_of_int 1;
     "T" := Fraction_of_int (-2) ]}.

(** ** The words of the specification on values and on [parse] *)

(** The algebra of dimensions on power maps: the pointwise sum or
    difference of the exponents, or their multiples, without the
    entries that come out zero. *)
Definition product (a b : gmap string Fraction) : gmap string Fraction :=
  Dimension.drop_zero (Dimension.pointwise Qcplus a b).

Definition quotient (a b : gmap string Fraction) : gmap string Fraction :=
  Dimension.drop_zero (Dimension.pointwise Qcminus a b).

Definition to_power (a : gmap string Fraction) (q : Fraction)
  : gmap string Fraction :=
  Dimension.drop_zero ((λ power, power * q)%Qc <$> a).

Section values.
Context `{Host}.

(** A value as the specification sees it: the powers of its dimension,
    none for a bare number, and its raw payload. *)
Definition quantity : Type := gmap string Fraction * V.

Definition quantity_of (o : obj V) : option quantity :=
  match o with
  | Plain v => Some (∅, v)
  | Quant cls v _ => Some (__powers cls, v)
  | _ => None
  end.

(** The classes of the quantities in a value have valid symbols and
    nonzero powers. *)
Definition value_ok (o : obj V) : Prop :=
  match o with
  | Quant cls _ _ =>
      valid_powers (__powers cls) ∧ nonzero_powers (__powers cls)
  | _ => True
  end.

Definition state_wf (st : state) : Prop :=
  registry_wf (dimensions st) ∧ map_Forall (λ _ o, value_ok o) (units st).

Definition q_mul (a b : quantity) : quantity :=
  (product a.1 b.1, operator_call "mul" [Plain a.2; Plain b.2]).

Definition q_div (a b : quantity) : quantity :=
  (quotient a.1 b.1, operator_call "truediv" [Plain a.2; Plain b.2]).

Definition q_pow (a : quantity) (q : Fraction) : quantity :=
  (to_power a.1 q, operator_call "pow" [Plain a.2; PFraction q]).

(** The numeric literal at the head of a string, and its value, which
    is 1 when the literal is absent. *)
Definition leading_literal (s : string) : string :=
  take_str (String.length s - String.length (lstrip "+-0123456789." s)) s.

Definition coefficient (s : string) : option V :=
  match float_or_1 (leading_literal s) with
  | Ok c => Some c
  | Err _ => None
  end.

(** The registry value of a unit symbol. *)
Definition unit_quantity (table : gmap string (obj V)) (u : string)
  : option quantity :=
  if name_in u Units.class_attrs then None
  else table !! u ≫= quantity_of.

(** A factor's coefficient times the registry value raised to the
    factor's exponent. *)
Definition factor_quantity (table : gmap string (obj V))
    (item : string * Fraction * bool) : option quantity :=
  let '(expr, power, _) := item in
  c ← coefficient expr;
  x ← unit_quantity table (lstrip "+-0123456789." expr);
  Some (q_mul (∅, c) (q_pow x power)).

(** The fold over the factors, in order: the accumulator is multiplied
    by a numerator factor and divided by a denominator factor. *)
Fixpoint fold_factors (table : gmap string (obj V)) (acc : quantity)
    (factors : list (string * Fraction * bool)) : option quantity :=
  match factors with
  | [] => Some acc
  | item :: rest =>
      v ← factor_quantity table item;
      fold_factors table (if item.2 then q_mul acc v else q_div acc v) rest
  end.

(** The value of a quantity string: the fold that starts from the
    leading coefficient as a dimensionless accumulator. *)
Definition parse_value (table : gmap string (obj V)) (s : string)
  : option quantity :=
  c ← coefficient s;
  match _split_factors (lstrip "+-0123456789." s) with
  | (factors, None) => fold_factors table (∅, c) factors
  | (_, Some _) => None
  end.
End values.

(** ** Values and states on the invariant *)

Section value_properties.
Context `{Host}.

(** The powers of a class, none for a class that is not a dimension. *)
Definition type_powers (t : pytype T) : gmap string Fraction :=
  match t with
  | TDimension cls => __powers cls
  | _ => ∅
  end.

Definition type_ok (t : pytype T) : Prop :=
  valid_powers (type_powers t) ∧ nonzero_powers (type_powers t).

Definition is_dimension (t : pytype T) : bool :=
  match t with TDimension _ => true | _ => false end.

(** A wrapped value is a bare number exactly when its dimension has no
    powers. *)
Definition canonical (o : obj V) : Prop :=
  match o with
  | Quant cls _ _ => __powers cls ≠ ∅
  | _ => True
  end.

(** The outcome of an operator between two values: a value with the
    right powers and payload, in a state that differs from the old one
    by new entries of the cache at most. *)
Definition computes (m : M state (obj V)) (st : state) (q : quantity)
  : Prop :=
  ∃ r st',
    m st = (Ok r, st')
    ∧ quantity_of r = Some q
    ∧ value_ok r ∧ canonical r
    ∧ state_wf st'
    ∧ units st' = units st
    ∧ __cache (dimensions st) ⊆ __cache (dimensions st').

End value_properties.

(** ** The state after import, and a host for the examples *)

(** What importing the module leaves: the state, and the table of
    dimension names. *)
Definition initial `{Host} : state := (SI.import SI.state_empty).2.

Definition imported `{Host} : result SI.dimensions_table :=
  (SI.import SI.state_empty).1.

(** A host that computes nothing: a value is a float literal or the
    record of a call, so that a payload shows the host operations that
    produced it. *)
Inductive sym : Type :=
| SFloat (literal : string)
| SCall (name : string) (args : list (obj sym)).

Definition sym_str (v : sym) : string :=
  match v with
  | SFloat literal => literal
  | SCall name _ => name +:+ "(...)"
  end.

Definition symbolic_host : Host :=
  {| V := sym;
     T := unit;
     htype := λ _, tt;
     float_type := tt;
     float := SFloat;
     Fraction_of := λ _, Err TypeError;
     str := sym_str;
     format_host := λ v _, sym_str v;
     operator_call := SCall |}.

Global Instance registered_dec r name cls : Decision (registered r name cls).
Proof. unfold registered, valid_powers, nonzero_powers. apply _. Defined.

Global Instance registry_wf_dec r : Decision (registry_wf r).
Proof. unfold registry_wf. apply _. Defined.

Global Instance value_ok_dec `{Host} (o : obj V) : Decision (value_ok o).
Proof.
  destruct o; simpl; unfold valid_powers, nonzero_powers; apply _.
Defined.

Global Instance state_wf_dec `{Host} (st : state) : Decision (state_wf st).
Proof. unfold state_wf. apply _. Defined.

(** A computation that leaves the dictionary [units] alone, whatever
    its outcome. *)
Definition keeps_units `{Host} {A} (m : M state A) : Prop :=
  ∀ st r st', m st = (r, st') → units st' = units st.

(** ** The words of the specification on definitions *)

(** The entries that a definition of [name] adds besides the literal
    one: for every prefix, the prefixed symbol with the value scaled by
    the factor of the prefix. *)
Definition prefixed_entries `{Host} (name : string) (cls : Dimension)
    (raw : V) : list (string * obj V) :=
  map (λ ps : string * string,
         (ps.1 +:+ name,
          Dimension.__wrap__ cls
            (operator_call "mul" [Plain raw; Plain (float ps.2)])))
      Units.__prefix.



(** ** Values for the examples *)

(** The class of lengths, as [create] makes it in an empty registry. *)
Definition Length_class : Dimension :=
  {| dim_id := 0; __name__ := "[L]";
     __powers := {[ "L" := Fraction_of_int 1 ]} |}.

(** A number that is neither a quantity nor a string. *)
Definition plain_number `{Host} (o : obj V) : bool :=
  match o with
  | Plain _ | PInt _ | PFraction _ => true
  | _ => false
  end.

(** The names that [_dispatch] treats as additive, and as comparisons. *)
Definition additive_names : list string :=
  ["add"; "sub"; "subtract"; "hypot"].

Definition comparison_names : list string :=
  ["lt"; "le"; "eq"; "ne"; "gt"; "ge"; "equal"; "not_equal"; "less";
   "less_equal"; "greater"; "greater_equal"; "isfinite"; "isnan"].



(** ** The exponent of a base *)

(** The exponent that a power map gives a base, zero for a base it
    does not hold. *)
Definition power_at (m : gmap string Fraction) (base : string) : Fraction :=
  default 0%Qc (m !! base).

(** ** More values for the examples *)

(** The class of times, as [create] makes it after the class of
    lengths, and the registry that holds the two. *)
Definition Time_class : Dimension :=
  {| dim_id := 1; __name__ := "[T]";
     __powers := {[ "T" := Fraction_of_int 1 ]} |}.

Definition length_time : registry :=
  {| __cache := {[ "L" := Length_class; "T" := Time_class ]};
     next_id := 2 |}.

(** ** The names that [_dispatch] knows *)

(** The operations whose result has the dimension of the first operand. *)
Definition elementwise_names : list string :=
  ["neg"; "negative"; "pos"; "positive"; "abs"; "absolute"; "sum"; "mean";
   "broadcast_to"; "transpose"; "trace"; "take"; "ptp"; "getitem"; "amax";
   "amin"; "max"; "min"].

Definition multiplicative_names : list string :=
  ["mul"; "multiply"; "matmul"; "truediv"; "true_divide"; "divide"].

Definition stacking_names : list string := ["stack"; "concatenate"].

Definition shape_names : list string := ["shape"; "ndim"; "size"].

(** Every name that a branch of [_dispatch] tests for. *)
Definition dispatch_names : list string :=
  additive_names ++ multiplicative_names ++ elementwise_names
  ++ ["sqrt"; "setitem"; "pow"; "power"] ++ comparison_names
  ++ stacking_names ++ shape_names.

(** The payloads of a list of quantities. *)
Definition payloads `{Host} (l : list (obj V)) : list (obj V) :=
  map Quantity.unwrap l.

(** A state with the two classes and their reference units. *)
Definition metre_second `{Host} : state :=
  {| dimensions := length_time;
     units := {[ "m" := Quant Length_class (float "1.") None;
                 "s" := Quant Time_class (float "1.") None ]} |}.

(** ** More of the metaclass: [__getattr__] *)

(** [s.startswith(c)] and [s.endswith(c)] for one character *)
Definition startswith (c : ascii) (s : string) : bool :=
  match s with
  | String d _ => Ascii.eqb d c
  | "" => false
  end.

Fixpoint endswith (c : ascii) (s : string) : bool :=
  match s with
  | "" => false
  | String d "" => Ascii.eqb d c
  | String _ r => endswith c r
  end.

(** [s[1:-1]] *)
Definition strip_ends (s : string) : string :=
  take_str (String.length s - 2) (drop_str 1 s).

(** [{base: Fraction(power if isnumer else -power)
      for base, power, isnumer in factors if power}] *)
Definition powers_of_factors (factors : list (string * Fraction * bool))
  : gmap string Fraction :=
  foldl (λ d '(base, power, isnumer),
           if Fraction_bool power
           then <[base := if isnumer : bool then power else (- power)%Qc]> d
           else d) ∅ factors.

(** [Dimension.__getattr__], which resolves the name of a class, as
    pickle asks for it. *)
Definition Dimension__getattr__ (attr : string) : M registry Dimension :=
  if startswith "[" attr && endswith "]" attr then
    match _split_factors (strip_ends attr) with
    | (_, Some e) => raise e
    | (factors, None) => Dimension.from_powers (powers_of_factors factors)
    end
  else raise AttributeError.

(** The triple that [_split_factors] yields for an entry of a name: the
    symbol, the magnitude of the power, and whether the power is
    positive. *)
Definition factor_of (item : string * Fraction) : string * Fraction * bool :=
  (item.1, if Fraction_pos item.2 then item.2 else (- item.2)%Qc,
   Fraction_pos item.2).

(** The text of an entry in a name after its sign: the symbol and its
    exponent. *)
Definition token_body (item : string * Fraction) : string :=
  item.1 +:+ num_text item.2 +:+ den_text item.2.

(** ** Serialization: [__stringly_loads__] and [__stringly_dumps__] *)

(** [cls.__stringly_loads__(s)], which is [cls(s)] *)
Definition __stringly_loads__ `{Host} (cls : Dimension) (s : string)
  : M state (obj V) :=
  Dimension__call__ cls (PStr s).

(** [cls.__stringly_dumps__(v)]: the string that [v] was parsed from;
    [None] stands for the [NotImplementedError] that the method raises
    for a value without the attribute [_parsed_from]. *)
Definition __stringly_dumps__ `{Host} (cls : Dimension) (v : obj V)
  : option string :=
  match v with
  | Quant _ _ parsed_from => parsed_from
  | _ => None
  end.

(** The quantity that [parse] makes of the string [2m] in the state
    [metre_second], over the symbolic host. *)
Definition two_metres : obj sym :=
  Quant Length_class
    (SCall "mul"
       [Plain (SFloat "2");
        Plain (SCall "mul"
                 [Plain (SFloat "1");
                  Plain (SCall "pow"
                           [Plain (SFloat "1."); PFraction 1%Qc])])])
    (Some "2m").

(** ** The two tables of the module, side by side *)

Definition Dimension_eq_dec (x y : Dimension) : Decision (x = y).
Proof. solve_decision. Defined.

(** The dimension of every unit symbol that the module defines: the
    name of the module's table of dimensions for the quantity that the
    unit measures. *)
Definition unit_dimensions : list (string * (SI.dimensions_table → Dimension)) :=
  [("m", SI.Length); ("s", SI.Time); ("g", SI.Mass);
   ("A", SI.ElectricCurrent); ("K", SI.Temperature);
   ("mol", SI.AmountOfSubstance); ("cd", SI.LuminousIntensity);
   ("N", SI.Force); ("Pa", SI.Pressure); ("J", SI.Energy); ("W", SI.Power);
   ("Hz", SI.Frequency); ("C", SI.Charge); ("V", SI.ElectricPotential);
   ("F", SI.Capacitance); ("Ω", SI.Resistance); ("S", SI.Conductance);
   ("Wb", SI.MagneticFlux); ("T", SI.MagneticFluxDensity);
   ("H", SI.Inductance); ("lm", SI.LuminousIntensity);
   ("lx", SI.Llluminance); ("Bq", SI.Frequency); ("Gy", SI.AbsorbedDose);
   ("Sv", SI.AbsorbedDose); ("kat", SI.CatalyticActivity);
   ("min", SI.Time); ("h", SI.Time); ("day", SI.Time); ("au", SI.Length);
   ("ha", SI.Area); ("L", SI.Volume); ("t", SI.Mass); ("Da", SI.Mass);
   ("eV", SI.Energy)].

(** Whether a unit of a state is a quantity of a class. *)
Definition unit_of_class `{Host} (st : state) (u : string) (cls : Dimension)
  : bool :=
  match units st !! u with
  | Some (Quant c _ _) => @bool_decide (c = cls) (Dimension_eq_dec c cls)
  | _ => false
  end.

(** Whether every unit of [unit_dimensions] has its class after
    import. *)
Definition tables_agree `{Host} : bool :=
  match result_bind imported
          (λ d, Ok (forallb (λ ud : string * (SI.dimensions_table → Dimension),
                               unit_of_class initial ud.1 (ud.2 d))
                            unit_dimensions)) with
  | Ok b => b
  | Err _ => false
  end.
(** * Proofs *)

(** * Facts about strings *)

Lemma app_String c (s t : string) : String c s +:+ t = String c (s +:+ t).
Proof. reflexivity. Qed.

Lemma app_empty_l (s : string) : "" +:+ s = s.
Proof. reflexivity. Qed.

Lemma app_empty_r (s : string) : s +:+ "" = s.
Proof. induction s as [|c s IH]; [done | by rewrite app_String, IH]. Qed.

Lemma app_assoc_str (a b c : string) : (a +:+ b) +:+ c = a +:+ (b +:+ c).
Proof. induction a as [|x a IH]; [done | by rewrite !app_String, IH]. Qed.

Lemma all_chars_app chars a b :
  all_chars chars (a +:+ b) = all_chars chars a && all_chars chars b.
Proof.
  induction a as [|c a IH]; [done|]. rewrite app_String. simpl.
  rewrite IH. by destruct (mem_char c chars).
Qed.

Lemma any_chars_app chars a b :
  any_chars chars (a +:+ b) = any_chars chars a || any_chars chars b.
Proof.
  induction a as [|c a IH]; [done|]. rewrite app_String. simpl.
  rewrite IH. by destruct (mem_char c chars).
Qed.

(** Cutting a string at the first character of [chars] is unambiguous. *)
Lemma app_span_unique chars b1 b2 r1 r2 :
  any_chars chars b1 = false → any_chars chars b2 = false →
  starts_in chars r1 → starts_in chars r2 →
  b1 +:+ r1 = b2 +:+ r2 → b1 = b2 ∧ r1 = r2.
Proof.
  revert b2. induction b1 as [|c b1 IH]; intros [|d b2];
    rewrite ?app_String, ?app_empty_l; simpl.
  - done.
  - intros _ Hd H1 _ ->. simpl in H1.
    apply orb_false_elim in Hd as [Hd _]. congruence.
  - intros Hc _ _ H2 <-. simpl in H2.
    apply orb_false_elim in Hc as [Hc _]. congruence.
  - intros [Hc Hb1]%orb_false_elim [Hd Hb2]%orb_false_elim H1 H2 [= -> Heq].
    destruct (IH b2 Hb1 Hb2 H1 H2 Heq) as [-> ->]. done.
Qed.

Lemma rstrip_all chars s : all_chars chars s = true → rstrip chars s = "".
Proof.
  induction s as [|c s IH]; simpl; [done|].
  intros [Hc Hs]%andb_true_iff. by rewrite IH, Hc.
Qed.

(** [rstrip] undoes the appending of characters it strips to a string
    it leaves alone. *)
Lemma rstrip_app chars b suffix :
  rstrip chars b = b → all_chars chars suffix = true →
  rstrip chars (b +:+ suffix) = b.
Proof.
  intros Hb Hs. induction b as [|c b IH];
    rewrite ?app_String, ?app_empty_l; simpl in *.
  - by apply rstrip_all.
  - destruct (rstrip chars b) as [|d r] eqn:Hr.
    + destruct (mem_char c chars) eqn:Hc; [done|].
      injection Hb as <-. rewrite app_empty_l. by rewrite rstrip_all.
    + injection Hb as Hb. rewrite IH by done. by rewrite <-Hb.
Qed.

Lemma lstrip_not_in chars s :
  match s with "" => True | String c _ => mem_char c chars = false end →
  lstrip chars s = s.
Proof. destruct s as [|c s]; simpl; [done|]. by intros ->. Qed.

(** * The decimal text of a natural number *)

Lemma pretty_N_char_digit x : mem_char (pretty_N_char x) digits = true.
Proof. unfold pretty_N_char. by repeat case_match. Qed.

Lemma pretty_N_go_digits x s :
  all_chars digits s = true → all_chars digits (pretty_N_go x s) = true.
Proof.
  revert s. induction (N.lt_wf_0 x) as [x _ IH]; intros s Hs.
  destruct (decide (x = 0)%N) as [->|Hx]; [done|].
  rewrite pretty_N_go_step by lia.
  apply IH; [apply N.div_lt; lia|].
  change (mem_char (pretty_N_char (x `mod` 10)) digits
          && all_chars digits s = true).
  by rewrite pretty_N_char_digit.
Qed.

Lemma pretty_N_go_nonempty x s : s ≠ "" → pretty_N_go x s ≠ "".
Proof.
  revert s. induction (N.lt_wf_0 x) as [x _ IH]; intros s Hs.
  destruct (decide (x = 0)%N) as [->|Hx]; [done|].
  rewrite pretty_N_go_step by lia.
  apply IH; [apply N.div_lt; lia|done].
Qed.

Lemma pretty_N_digits (x : N) : all_chars digits (pretty x) = true.
Proof.
  unfold pretty, pretty_N. case_decide; [done|]. by apply pretty_N_go_digits.
Qed.

Lemma pretty_N_nonempty (x : N) : pretty x ≠ "".
Proof.
  unfold pretty, pretty_N. case_decide; [done|].
  rewrite pretty_N_go_step by lia. by apply pretty_N_go_nonempty.
Qed.

Lemma str_int_digits n : 0 ≤ n → all_chars digits (str_int n) = true.
Proof.
  unfold str_int, pretty, pretty_Z. destruct n as [|p|p]; [done| |lia].
  intros _. apply pretty_N_digits.
Qed.

Lemma str_int_nonempty n : 0 ≤ n → str_int n ≠ "".
Proof.
  unfold str_int, pretty, pretty_Z. destruct n as [|p|p]; [done| |lia].
  intros _. apply pretty_N_nonempty.
Qed.

Lemma str_int_inj m n : str_int m = str_int n → m = n.
Proof. apply (inj pretty). Qed.

Lemma all_chars_weaken chars chars' s :
  (∀ c, mem_char c chars = true → mem_char c chars' = true) →
  all_chars chars s = true → all_chars chars' s = true.
Proof.
  intros Hsub. induction s as [|c s IH]; simpl; [done|].
  intros [Hc Hs]%andb_true_iff. by rewrite (Hsub c Hc), IH.
Qed.

Lemma all_chars_none chars chars' s :
  (∀ c, mem_char c chars = true → mem_char c chars' = false) →
  all_chars chars s = true → any_chars chars' s = false.
Proof.
  intros Hsub. induction s as [|c s IH]; simpl; [done|].
  intros [Hc Hs]%andb_true_iff. by rewrite (Hsub c Hc), IH.
Qed.


(** * Symbols and canonical names *)

(** Case analysis on a character compared with constants. *)
Ltac char_cases c :=
  repeat match goal with
         | |- context [Ascii.eqb c ?d] =>
             destruct (Ascii.eqb_spec c d) as [->|]; [by vm_compute|]
         end.

Lemma name_token_shape b q :
  name_token (b, q) = String (sign_char q) (b +:+ num_text q +:+ den_text q).
Proof. unfold name_token, sign_char. by destruct (Fraction_pos q). Qed.

Lemma valid_symbol_spec b :
  valid_symbol b = true ↔
  b ≠ "" ∧ any_chars "*/" b = false ∧ rstrip "0123456789_" b = b.
Proof.
  unfold valid_symbol. rewrite !andb_true_iff, !negb_true_iff.
  rewrite String.eqb_eq, String.eqb_neq. tauto.
Qed.

Lemma num_text_digits q : all_chars digits (num_text q) = true.
Proof.
  unfold num_text. case_match; [done|]. apply str_int_digits. lia.
Qed.

Lemma den_text_chars q : all_chars "0123456789_" (den_text q) = true.
Proof.
  unfold den_text. case_match; [done|].
  rewrite app_String, app_empty_l.
  change (all_chars "0123456789_" (str_int (Z.abs (denominator q))) = true).
  eapply all_chars_weaken; [|apply str_int_digits; lia].
  intros c. unfold digits. simpl.
  char_cases c. done.
Qed.

Lemma den_text_starts q : starts_in "_" (den_text q).
Proof. unfold den_text. by case_match. Qed.

Lemma suffix_chars q :
  all_chars "0123456789_" (num_text q +:+ den_text q) = true.
Proof.
  rewrite all_chars_app, den_text_chars, andb_true_r.
  eapply all_chars_weaken; [|apply num_text_digits].
  intros c. unfold digits. simpl.
  char_cases c. done.
Qed.

Lemma digits_no_underscore s :
  all_chars digits s = true → any_chars "_" s = false.
Proof.
  apply all_chars_none. intros c. unfold digits. simpl.
  char_cases c. done.
Qed.

Lemma suffix_no_sign s :
  all_chars "0123456789_" s = true → any_chars "*/" s = false.
Proof.
  apply all_chars_none. intros c. simpl.
  char_cases c. done.
Qed.

Lemma Fraction_eq (q1 q2 : Fraction) :
  numerator q1 = numerator q2 → denominator q1 = denominator q2 → q1 = q2.
Proof.
  unfold numerator, denominator. intros Hn Hd. apply Qc_decomp.
  destruct (this q1), (this q2). simpl in *. congruence.
Qed.

(** The sign and the text after the symbol determine the power. *)
Lemma suffix_inj q1 q2 :
  Fraction_bool q1 = true → Fraction_bool q2 = true →
  sign_char q1 = sign_char q2 →
  num_text q1 +:+ den_text q1 = num_text q2 +:+ den_text q2 →
  q1 = q2.
Proof.
  intros Hq1 Hq2 Hsign Htext.
  apply (app_span_unique "_") in Htext as [Hnum Hden];
    auto using digits_no_underscore, num_text_digits, den_text_starts.
  unfold Fraction_bool in *. apply negb_true_iff, Z.eqb_neq in Hq1, Hq2.
  assert (Z.abs (numerator q1) = Z.abs (numerator q2)) as Habs.
  { unfold num_text in Hnum.
    destruct (Z.eqb_spec (Z.abs (numerator q1)) 1) as [->|],
             (Z.eqb_spec (Z.abs (numerator q2)) 1) as [->|]; try done.
    - symmetry in Hnum. by apply str_int_nonempty in Hnum; [|lia].
    - by apply str_int_nonempty in Hnum; [|lia].
    - by apply str_int_inj. }
  assert (denominator q1 = denominator q2) as Hd.
  { unfold den_text in Hden. unfold denominator in *.
    destruct (Z.eqb_spec (Z.abs (Z.pos (Qden (this q1)))) 1) as [H1|],
             (Z.eqb_spec (Z.abs (Z.pos (Qden (this q2)))) 1) as [H2|];
      try done.
    - lia.
    - apply (inj (String.app "_")), str_int_inj in Hden. lia. }
  apply Fraction_eq; [|done].
  unfold sign_char, Fraction_pos in Hsign.
  destruct (Z.ltb_spec 0 (numerator q1)), (Z.ltb_spec 0 (numerator q2));
    try done; lia.
Qed.

Lemma named_item_body b q :
  valid_symbol b = true →
  any_chars "*/" (b +:+ num_text q +:+ den_text q) = false.
Proof.
  intros (_ & Hb & _)%valid_symbol_spec.
  rewrite any_chars_app, Hb. simpl.
  apply suffix_no_sign, suffix_chars.
Qed.

Lemma join_cons s l : join (s :: l) = s +:+ join l.
Proof. reflexivity. Qed.

Lemma join_tokens_starts l : starts_in "*/" (join (map name_token l)).
Proof.
  destruct l as [|[b q] l]; [done|].
  rewrite map_cons, join_cons, name_token_shape, app_String.
  unfold sign_char. by destruct (Fraction_pos q).
Qed.

Lemma token_body_inj b1 q1 b2 q2 :
  named_item (b1, q1) → named_item (b2, q2) →
  sign_char q1 = sign_char q2 →
  b1 +:+ num_text q1 +:+ den_text q1 = b2 +:+ num_text q2 +:+ den_text q2 →
  (b1, q1) = (b2, q2).
Proof.
  intros [Hb1 Hq1] [Hb2 Hq2] Hsign Hbody. simpl in *.
  apply valid_symbol_spec in Hb1 as (_ & _ & Hr1).
  apply valid_symbol_spec in Hb2 as (_ & _ & Hr2).
  assert (b1 = b2) as <-.
  { rewrite <-(rstrip_app _ b1 _ Hr1 (suffix_chars q1)), Hbody.
    apply (rstrip_app _ b2 _ Hr2 (suffix_chars q2)). }
  apply (inj (String.app b1)) in Hbody.
  by rewrite (suffix_inj q1 q2).
Qed.

(** The tokens of a list of entries are read back from their
    concatenation. *)
Lemma join_tokens_inj l1 l2 :
  Forall named_item l1 → Forall named_item l2 →
  join (map name_token l1) = join (map name_token l2) → l1 = l2.
Proof.
  intros H1. revert l2.
  induction H1 as [|[b1 q1] l1 Hx1 H1 IH]; intros l2 H2 Hjoin.
  - destruct H2 as [|[b2 q2] l2 _ _]; [done|].
    by rewrite map_cons, join_cons, name_token_shape in Hjoin.
  - destruct H2 as [|[b2 q2] l2 Hx2 H2].
    { by rewrite map_cons, join_cons, name_token_shape in Hjoin. }
    rewrite !map_cons, !join_cons, !name_token_shape, !app_String in Hjoin.
    injection Hjoin as Hsign Hrest.
    apply (app_span_unique "*/") in Hrest as [Hbody Htail];
      [|by apply named_item_body, Hx1|by apply named_item_body, Hx2
       |apply join_tokens_starts..].
    f_equal; [by apply token_body_inj | by apply IH].
Qed.

Lemma lstrip_join_tokens b q l :
  valid_symbol b = true →
  lstrip "*" (join (map name_token ((b, q) :: l))) =
  if Fraction_pos q
  then (b +:+ num_text q +:+ den_text q) +:+ join (map name_token l)
  else join (map name_token ((b, q) :: l)).
Proof.
  intros (Hne & Hb & _)%valid_symbol_spec.
  rewrite map_cons, join_cons, name_token_shape, app_String.
  unfold sign_char. destruct (Fraction_pos q); [|done].
  change (lstrip "*" ((b +:+ num_text q +:+ den_text q)
                         +:+ join (map name_token l)) = 
          (b +:+ num_text q +:+ den_text q) +:+ join (map name_token l)).
  apply lstrip_not_in. destruct b as [|c b]; [done|].
  rewrite !app_String. simpl in Hb.
  apply orb_false_elim in Hb as [Hc _]. simpl.
  destruct (Ascii.eqb c "*"); done.
Qed.

Lemma stripped_name_inj l1 l2 :
  Forall named_item l1 → Forall named_item l2 →
  lstrip "*" (join (map name_token l1))
  = lstrip "*" (join (map name_token l2)) →
  l1 = l2.
Proof.
  intros H1 H2 Hname. apply join_tokens_inj; [done..|].
  destruct H1 as [|[b1 q1] l1 [Hb1 Hq1] H1], H2 as [|[b2 q2] l2 [Hb2 Hq2] H2];
    simpl in Hb1, Hb2 || simpl in Hb1 || simpl in Hb2 || idtac.
  - done.
  - exfalso. rewrite lstrip_join_tokens in Hname by done.
    pose proof Hb2 as (Hne & _)%valid_symbol_spec.
    destruct (Fraction_pos q2).
    + destruct b2; [done|]. by rewrite !app_String in Hname.
    + by rewrite map_cons, join_cons, name_token_shape in Hname.
  - exfalso. rewrite lstrip_join_tokens in Hname by done.
    pose proof Hb1 as (Hne & _)%valid_symbol_spec.
    destruct (Fraction_pos q1).
    + destruct b1; [done|]. by rewrite !app_String in Hname.
    + by rewrite map_cons, join_cons, name_token_shape in Hname.
  - rewrite !lstrip_join_tokens in Hname by done.
    rewrite !map_cons, !join_cons, !name_token_shape, !app_String.
    unfold sign_char.
    pose proof Hb1 as (Hne1 & Hs1 & _)%valid_symbol_spec.
    pose proof Hb2 as (Hne2 & Hs2 & _)%valid_symbol_spec.
    destruct (Fraction_pos q1) eqn:Hp1, (Fraction_pos q2) eqn:Hp2.
    + by rewrite Hname.
    + exfalso. rewrite map_cons, join_cons, name_token_shape in Hname.
      unfold sign_char in Hname. rewrite Hp2 in Hname.
      destruct b1 as [|c b1]; [done|]. rewrite !app_String in Hname.
      injection Hname as -> _. done.
    + exfalso. rewrite map_cons, join_cons, name_token_shape in Hname.
      unfold sign_char in Hname. rewrite Hp1 in Hname.
      destruct b2 as [|c b2]; [done|]. rewrite !app_String in Hname.
      injection Hname as <- _. done.
    + rewrite !map_cons, !join_cons, !name_token_shape, !app_String in Hname.
      unfold sign_char in Hname. by rewrite Hp1, Hp2 in Hname.
Qed.

(** * Power maps and their names *)

Global Instance key_ge_total : Total key_ge.
Proof.
  intros [b1 q1] [b2 q2]. unfold key_ge, key_le. simpl.
  destruct (Qclt_le_dec q1 q2) as [Hlt|Hle]; [by right; left|].
  destruct (Qcle_lt_or_eq _ _ Hle) as [Hlt | ->]; [by left; left|].
  destruct (total String.le b1 b2); [right | left]; by right.
Qed.

Global Instance key_ge_trans : Transitive key_ge.
Proof.
  intros [b1 q1] [b2 q2] [b3 q3]. unfold key_ge, key_le. simpl.
  intros [H12|[-> H12]] [H23|[-> H23]].
  - left. by apply Qclt_trans with q2.
  - by left.
  - by left.
  - right. split; [done|]. by trans b2.
Qed.

Global Instance key_ge_antisym : AntiSymm (=) key_ge.
Proof.
  intros [b1 q1] [b2 q2]. unfold key_ge, key_le. simpl.
  intros [H12|[-> H12]] [H21|[H H21]].
  - exfalso. apply (Qclt_not_le _ _ H12). by apply Qclt_le_weak.
  - subst. by apply Qclt_not_eq in H12.
  - by apply Qclt_not_eq in H21.
  - f_equal. by apply (anti_symm String.le).
Qed.

Lemma sorted_items_perm m : Dimension.sorted_items m ≡ₚ map_to_list m.
Proof. apply merge_sort_Permutation. Qed.

Lemma sorted_items_sorted m : StronglySorted key_ge (Dimension.sorted_items m).
Proof. apply (StronglySorted_merge_sort key_ge). Qed.

(** The result of [sorted] does not depend on the order in which the
    dictionary lists its items. *)
Lemma sorted_items_any_order m l :
  l ≡ₚ map_to_list m → merge_sort key_ge l = Dimension.sorted_items m.
Proof.
  intros Hl. apply (StronglySorted_unique key_ge).
  - apply (StronglySorted_merge_sort key_ge).
  - apply sorted_items_sorted.
  - by rewrite merge_sort_Permutation, sorted_items_perm.
Qed.

Lemma sorted_items_named m :
  valid_powers m → nonzero_powers m →
  Forall named_item (Dimension.sorted_items m).
Proof.
  intros Hv Hn. apply Forall_forall. intros [b q] Hin.
  rewrite sorted_items_perm in Hin. apply elem_of_map_to_list in Hin.
  split; [by apply (Hv b q) | by apply (Hn b q)].
Qed.

(** On maps of valid symbols to nonzero powers the canonical name is
    injective. *)
Lemma canonical_name_inj m1 m2 :
  valid_powers m1 → nonzero_powers m1 →
  valid_powers m2 → nonzero_powers m2 →
  Dimension.canonical_name m1 = Dimension.canonical_name m2 → m1 = m2.
Proof.
  intros Hv1 Hn1 Hv2 Hn2 Hname.
  apply stripped_name_inj in Hname; [|by apply sorted_items_named..].
  apply map_to_list_inj.
  by rewrite <-!sorted_items_perm, Hname.
Qed.

Lemma drop_zero_nonzero arg : nonzero_powers (Dimension.drop_zero arg).
Proof.
  intros b q Hq. by apply map_lookup_filter_Some in Hq as [_ Hq].
Qed.

Lemma drop_zero_valid arg :
  valid_powers arg → valid_powers (Dimension.drop_zero arg).
Proof.
  intros Hv b q Hq. apply map_lookup_filter_Some in Hq as [Hq _].
  by apply (Hv b q).
Qed.

Lemma drop_zero_id m : nonzero_powers m → Dimension.drop_zero m = m.
Proof.
  intros Hn. apply map_eq. intros b. unfold Dimension.drop_zero.
  destruct (m !! b) as [q|] eqn:Hq.
  - apply map_lookup_filter_Some. split; [done|]. by apply (Hn b q).
  - apply map_lookup_filter_None. left. done.
Qed.

Lemma canonical_name_empty : Dimension.canonical_name ∅ = "".
Proof. reflexivity. Qed.

(** * The registry invariant *)

Lemma registry_empty_wf : registry_wf registry_empty.
Proof.
  split; [apply map_Forall_empty|].
  simpl. rewrite map_to_list_empty. constructor.
Qed.

Lemma NoDup_fmap_eq {A B} (f : A → B) (l : list A) x y :
  NoDup (f <$> l) → x ∈ l → y ∈ l → f x = f y → x = y.
Proof.
  induction l as [|a l IH]; [by intros _ ?%elem_of_nil|].
  rewrite fmap_cons, NoDup_cons.
  intros [Ha Hl] [->|Hx]%elem_of_cons [->|Hy]%elem_of_cons Hf; [done|..].
  - exfalso. apply Ha. rewrite Hf. by apply list_elem_of_fmap_2.
  - exfalso. apply Ha. rewrite <-Hf. by apply list_elem_of_fmap_2.
  - by apply IH.
Qed.

Lemma registry_wf_id_inj r n1 n2 c1 c2 :
  registry_wf r →
  __cache r !! n1 = Some c1 → __cache r !! n2 = Some c2 →
  dim_id c1 = dim_id c2 → n1 = n2 ∧ c1 = c2.
Proof.
  intros [_ Hnd] H1 H2 Hid.
  apply elem_of_map_to_list in H1, H2.
  assert ((n1, c1) = (n2, c2)) as [= -> ->]; [|done].
  by apply (NoDup_fmap_eq (dim_id ∘ snd) _ _ _ Hnd).
Qed.

(** ** [from_powers] *)

Lemma from_powers_cached arg r cls :
  __cache r !! Dimension.canonical_name (Dimension.drop_zero arg) = Some cls →
  Dimension.from_powers arg r = (Ok cls, r).
Proof. intros H. unfold Dimension.from_powers. by rewrite H. Qed.

Lemma from_powers_fresh arg r :
  __cache r !! Dimension.canonical_name (Dimension.drop_zero arg) = None →
  Dimension.from_powers arg r =
  let name := Dimension.canonical_name (Dimension.drop_zero arg) in
  let cls := {| dim_id := next_id r;
                __name__ := "[" +:+ name +:+ "]";
                __powers := Dimension.drop_zero arg |} in
  (Ok cls, {| __cache := <[name := cls]> (__cache r);
              next_id := N.succ (next_id r) |}).
Proof. intros H. unfold Dimension.from_powers. by rewrite H. Qed.

(** [from_powers] always returns a class, the one the cache then holds
    under the canonical name; the cache only grows. *)
Lemma from_powers_returns arg r :
  ∃ cls r',
    Dimension.from_powers arg r = (Ok cls, r')
    ∧ __cache r' !! Dimension.canonical_name (Dimension.drop_zero arg)
      = Some cls
    ∧ __cache r ⊆ __cache r'
    ∧ (next_id r ≤ next_id r')%N.
Proof.
  destruct (__cache r !! Dimension.canonical_name (Dimension.drop_zero arg))
    as [cls|] eqn:Hc.
  - exists cls, r. by rewrite (from_powers_cached _ _ _ Hc).
  - rewrite (from_powers_fresh _ _ Hc). cbv zeta.
    eexists _, _. split; [reflexivity|]. cbn [__cache next_id].
    split_and!; [apply lookup_insert_eq|by apply insert_subseteq|lia].
Qed.

Lemma registered_mono r r' name cls :
  (next_id r ≤ next_id r')%N → registered r name cls → registered r' name cls.
Proof. intros Hle (? & ? & ? & ? & ?). split_and!; [lia|done..]. Qed.

(** The invariant is kept, and on it the class that [from_powers]
    returns has the powers that were asked for. *)
Lemma from_powers_wf arg r :
  registry_wf r → valid_powers arg →
  ∃ cls r',
    Dimension.from_powers arg r = (Ok cls, r')
    ∧ registry_wf r'
    ∧ __powers cls = Dimension.drop_zero arg
    ∧ __cache r' !! Dimension.canonical_name (Dimension.drop_zero arg)
      = Some cls
    ∧ __cache r ⊆ __cache r'.
Proof.
  intros [Hreg Hnd] Hv.
  destruct (__cache r !! Dimension.canonical_name (Dimension.drop_zero arg))
    as [cls|] eqn:Hc.
  - exists cls, r. rewrite (from_powers_cached _ _ _ Hc).
    split_and!; try done.
    destruct (Hreg _ _ Hc) as (_ & _ & Hname & Hvalid & Hnz).
    apply canonical_name_inj;
      auto using drop_zero_valid, drop_zero_nonzero.
  - rewrite (from_powers_fresh _ _ Hc). cbv zeta.
    eexists _, _. split; [reflexivity|]. cbn [__cache next_id __powers].
    split_and!; [|done|apply lookup_insert_eq|by apply insert_subseteq].
    split; cbn [__cache next_id].
    + apply map_Forall_insert; [done|]. split.
      * split_and!; cbn [dim_id __name__ __powers next_id];
          auto using drop_zero_valid, drop_zero_nonzero. lia.
      * intros name cls Hcls. eapply registered_mono; [|by apply Hreg].
        cbn [next_id]. lia.
    + rewrite map_to_list_insert by done. rewrite fmap_cons.
      apply NoDup_cons. split; [|done]. simpl.
      intros ([name cls] & Hid & Hin)%list_elem_of_fmap.
      apply elem_of_map_to_list in Hin. simpl in Hid.
      destruct (Hreg _ _ Hin) as (Hlt & _). lia.
Qed.

Lemma app_inj_tail (s1 s2 : string) c :
  s1 +:+ String c "" = s2 +:+ String c "" → s1 = s2.
Proof.
  revert s2. induction s1 as [|a s1 IH]; intros [|b s2];
    rewrite ?app_String, ?app_empty_l; try done.
  - intros [= _ H]. by destruct s2.
  - intros [= _ H]. by destruct s1.
  - intros [= -> H]. f_equal. by apply IH.
Qed.

Lemma bracket_inj (n1 n2 : string) :
  "[" +:+ n1 +:+ "]" = "[" +:+ n2 +:+ "]" → n1 = n2.
Proof. intros H. by apply (inj (String.app "[")), app_inj_tail in H. Qed.

(** ** C1 *)

(** C1, amended.  In a registry that satisfies the invariant, for power
    maps over symbols that [create] accepts: [from_powers] returns a
    class whose powers are the map with its zero exponents dropped; two
    maps with equal dropped forms get the identical cached class, and
    the second call leaves the registry as it is; two maps with
    different dropped forms get classes with different identities,
    different cache keys and different names. *)
Theorem from_powers_bijection (r : registry) (a b : gmap string Fraction) :
  registry_wf r → valid_powers a → valid_powers b →
  ∃ da r1 db r2,
    Dimension.from_powers a r = (Ok da, r1)
    ∧ Dimension.from_powers b r1 = (Ok db, r2)
    ∧ registry_wf r2
    ∧ __powers da = Dimension.drop_zero a
    ∧ __powers db = Dimension.drop_zero b
    ∧ (Dimension.drop_zero a = Dimension.drop_zero b → db = da ∧ r2 = r1)
    ∧ (Dimension.drop_zero a ≠ Dimension.drop_zero b →
       dim_id db ≠ dim_id da
       ∧ Dimension.canonical_name (Dimension.drop_zero b)
         ≠ Dimension.canonical_name (Dimension.drop_zero a)
       ∧ __name__ db ≠ __name__ da).
Proof.
  intros Hr Ha Hb.
  destruct (from_powers_wf a r Hr Ha) as (da & r1 & Ea & Hr1 & Hpa & Hla & _).
  destruct (from_powers_wf b r1 Hr1 Hb)
    as (db & r2 & Eb & Hr2 & Hpb & Hlb & Hsub).
  exists da, r1, db, r2. split_and!; try done.
  - intros Heq.
    rewrite (from_powers_cached b r1 da) in Eb by (by rewrite <-Heq).
    by injection Eb as <- <-.
  - intros Hne.
    assert (Dimension.canonical_name (Dimension.drop_zero b)
            ≠ Dimension.canonical_name (Dimension.drop_zero a)) as Hname.
    { intros Hname. apply Hne. symmetry.
      apply canonical_name_inj;
        auto using drop_zero_valid, drop_zero_nonzero. }
    pose proof (lookup_weaken _ _ _ _ Hla Hsub) as Hla'.
    split_and!; [|done|].
    + intros Hid.
      by destruct (registry_wf_id_inj r2 _ _ _ _ Hr2 Hlb Hla' Hid).
    + destruct Hr2 as [Hreg _].
      destruct (Hreg _ _ Hlb) as (_ & -> & _).
      destruct (Hreg _ _ Hla') as (_ & -> & _).
      by intros ?%bracket_inj.
Qed.

Lemma valid_powers_decide (m : gmap string Fraction) :
  bool_decide (map_Forall (λ b _, valid_symbol b = true) m) = true →
  valid_powers m.
Proof. intros H. by apply bool_decide_eq_true in H. Qed.

Lemma from_powers_bijection_witness :
  registry_wf registry_empty
  ∧ valid_powers length_and_area.1 ∧ valid_powers length_and_area.2
  ∧ ∃ da r1 db r2,
      Dimension.from_powers length_and_area.1 registry_empty = (Ok da, r1)
      ∧ Dimension.from_powers length_and_area.2 r1 = (Ok db, r2)
      ∧ registry_wf r2
      ∧ __powers da = Dimension.drop_zero length_and_area.1
      ∧ __powers db = Dimension.drop_zero length_and_area.2
      ∧ (Dimension.drop_zero length_and_area.1
         = Dimension.drop_zero length_and_area.2 → db = da ∧ r2 = r1)
      ∧ (Dimension.drop_zero length_and_area.1
         ≠ Dimension.drop_zero length_and_area.2 →
         dim_id db ≠ dim_id da
         ∧ Dimension.canonical_name (Dimension.drop_zero length_and_area.2)
           ≠ Dimension.canonical_name
               (Dimension.drop_zero length_and_area.1)
         ∧ __name__ db ≠ __name__ da).
Proof.
  assert (valid_powers length_and_area.1) as H1
    by (apply valid_powers_decide; vm_compute; reflexivity).
  assert (valid_powers length_and_area.2) as H2
    by (apply valid_powers_decide; vm_compute; reflexivity).
  split; [apply registry_empty_wf|]. split; [exact H1|]. split; [exact H2|].
  apply (from_powers_bijection registry_empty _ _ registry_empty_wf H1 H2).
Defined.

(** C1 as stated fails: the maps [{'L2': 1}] and [{'L': 2}] differ, and
    [from_powers] gives both the name [L2] and the same class. *)
Lemma from_powers_shared_identity :
  let a : gmap string Fraction := {[ "L2" := Fraction_of_int 1 ]} in
  let b : gmap string Fraction := {[ "L" := Fraction_of_int 2 ]} in
  Dimension.drop_zero a ≠ Dimension.drop_zero b
  ∧ Dimension.canonical_name (Dimension.drop_zero a) = "L2"
  ∧ Dimension.canonical_name (Dimension.drop_zero b) = "L2"
  ∧ ∃ cls r1,
      Dimension.from_powers a registry_empty = (Ok cls, r1)
      ∧ Dimension.from_powers b r1 = (Ok cls, r1).
Proof.
  intros a b. split_and!.
  - intros H. apply (f_equal (λ m, m !! "L")) in H.
    vm_compute in H. discriminate.
  - vm_compute. reflexivity.
  - vm_compute. reflexivity.
  - eexists _, _. split; vm_compute; reflexivity.
Qed.

(** ** C2 *)

Lemma Fraction_pos_spec (q : Fraction) :
  Fraction_pos q = true ↔ (0 < q)%Qc.
Proof.
  unfold Fraction_pos, numerator, Qclt, Qlt. simpl.
  rewrite Z.ltb_lt. lia.
Qed.

Lemma spec_token_eq item : spec_token item = name_token item.
Proof.
  destruct item as [symbol power]. unfold spec_token, name_token.
  f_equal; [|do 2 f_equal].
  - destruct (Fraction_pos power) eqn:Hpos; case_decide; try done.
    + by apply Fraction_pos_spec in Hpos.
    + apply Fraction_pos_spec in H. congruence.
  - case_decide as H; [by rewrite H|]. by apply Z.eqb_neq in H as ->.
  - assert (Z.abs (denominator power) = denominator power) as ->
      by (unfold denominator; lia).
    case_decide as H; [by rewrite H|]. by apply Z.eqb_neq in H as ->.
Qed.

(** C2, amended.  The name under which [from_powers] caches the class
    of a power map, and which a class it creates carries between
    brackets, is the concatenation, with the leading [*] stripped, of
    the tokens of the entries with a nonzero power, taken by descending
    power and then by descending symbol; a token is [*] for a positive
    exponent or [/] for a negative one, then the symbol, then the
    numerator unless its magnitude is 1, then [_] and the denominator
    unless it is 1. *)
Theorem canonical_name_tokens (arg : gmap string Fraction) (r : registry) :
  ∃ items cls r',
    items ≡ₚ map_to_list (Dimension.drop_zero arg)
    ∧ StronglySorted descending items
    ∧ Dimension.from_powers arg r = (Ok cls, r')
    ∧ __cache r' !! lstrip "*" (join (map spec_token items)) = Some cls
    ∧ (__cache r !! lstrip "*" (join (map spec_token items)) = None →
       __name__ cls = "[" +:+ lstrip "*" (join (map spec_token items)) +:+ "]").
Proof.
  destruct (from_powers_returns arg r) as (cls & r' & Hrun & Hlookup & _).
  exists (Dimension.sorted_items (Dimension.drop_zero arg)), cls, r'.
  assert (map spec_token (Dimension.sorted_items (Dimension.drop_zero arg))
          = map name_token (Dimension.sorted_items (Dimension.drop_zero arg)))
    as ->.
  { apply map_ext. intros. apply spec_token_eq. }
  split_and!.
  - apply sorted_items_perm.
  - apply sorted_items_sorted.
  - done.
  - done.
  - intros Hnone. rewrite (from_powers_fresh _ _ Hnone) in Hrun.
    by injection Hrun as <- _.
Qed.

(** C2 as stated fails: for a force the code builds [M*L/T2], while the
    concatenation by symbol is [*L*M/T2], which differs from it even
    when its leading [*] is dropped. *)
Lemma canonical_name_not_by_symbol :
  Dimension.canonical_name (Dimension.drop_zero force_powers) = "M*L/T2"
  ∧ claimed_name (Dimension.drop_zero force_powers) = "*L*M/T2"
  ∧ Dimension.canonical_name (Dimension.drop_zero force_powers)
    ≠ claimed_name (Dimension.drop_zero force_powers)
  ∧ Dimension.canonical_name (Dimension.drop_zero force_powers)
    ≠ lstrip "*" (claimed_name (Dimension.drop_zero force_powers)).
Proof.
  assert (Dimension.canonical_name (Dimension.drop_zero force_powers)
          = "M*L/T2") as -> by (vm_compute; reflexivity).
  assert (claimed_name (Dimension.drop_zero force_powers) = "*L*M/T2")
    as -> by (vm_compute; reflexivity).
  split_and!; done.
Qed.

(** * The algebra of dimensions *)

Lemma lookup_pointwise op a b k :
  Dimension.pointwise op a b !! k =
  match a !! k, b !! k with
  | None, None => None
  | x, y => Some (op (default (Fraction_of_int 0) x)
                     (default (Fraction_of_int 0) y))
  end.
Proof.
  unfold Dimension.pointwise. rewrite lookup_merge.
  by destruct (a !! k), (b !! k).
Qed.

Lemma pointwise_valid op a b :
  valid_powers a → valid_powers b →
  valid_powers (Dimension.pointwise op a b).
Proof.
  intros Ha Hb k q. rewrite lookup_pointwise.
  destruct (a !! k) as [x|] eqn:Hx; [intros _; by apply (Ha k x)|].
  destruct (b !! k) as [y|] eqn:Hy; [intros _; by apply (Hb k y)|done].
Qed.

Lemma fmap_valid (f : Fraction → Fraction) a :
  valid_powers a → valid_powers (f <$> a).
Proof.
  intros Ha k q. rewrite lookup_fmap.
  destruct (a !! k) as [x|] eqn:Hx; [intros _; by apply (Ha k x)|done].
Qed.

Lemma valid_powers_empty : valid_powers ∅.
Proof. apply map_Forall_empty. Qed.

Lemma nonzero_powers_empty : nonzero_powers ∅.
Proof. apply map_Forall_empty. Qed.

Lemma Fraction_of_int_0 : Fraction_of_int 0 = 0%Qc.
Proof. reflexivity. Qed.

Lemma pointwise_empty_r op a :
  (∀ x, op x 0%Qc = x) → Dimension.pointwise op a ∅ = a.
Proof.
  intros Hop. apply map_eq. intros k.
  rewrite lookup_pointwise, lookup_empty.
  destruct (a !! k); simpl; [by rewrite Fraction_of_int_0, Hop|done].
Qed.

Lemma pointwise_empty_l op b :
  Dimension.pointwise op ∅ b = op 0%Qc <$> b.
Proof.
  apply map_eq. intros k.
  rewrite lookup_pointwise, lookup_empty, lookup_fmap.
  by destruct (b !! k).
Qed.

Lemma product_empty_r a : nonzero_powers a → product a ∅ = a.
Proof.
  intros Ha. unfold product.
  rewrite pointwise_empty_r by (intros; unfold Fraction in *; ring). by apply drop_zero_id.
Qed.

Lemma product_empty_l b : nonzero_powers b → product ∅ b = b.
Proof.
  intros Hb. unfold product. rewrite pointwise_empty_l.
  rewrite (map_fmap_ext _ id); [|intros; simpl; unfold Fraction in *; ring].
  rewrite map_fmap_id. by apply drop_zero_id.
Qed.

Lemma quotient_empty_r a : nonzero_powers a → quotient a ∅ = a.
Proof.
  intros Ha. unfold quotient.
  rewrite pointwise_empty_r by (intros; unfold Fraction in *; ring). by apply drop_zero_id.
Qed.

(** The quotient of a bare number by a dimension is the dimension to
    the power of minus one. *)
Lemma quotient_empty_l b : quotient ∅ b = to_power b (Fraction_of_int (-1)).
Proof.
  unfold quotient, to_power. rewrite pointwise_empty_l. f_equal.
  apply map_fmap_ext. intros k x _.
  assert (Fraction_of_int (-1) = (- 1)%Qc) as -> by by apply Qc_is_canon.
  unfold Fraction in *. ring.
Qed.

Lemma to_power_empty q : to_power ∅ q = ∅.
Proof. unfold to_power. rewrite fmap_empty. apply drop_zero_id, nonzero_powers_empty. Qed.

Lemma product_valid a b :
  valid_powers a → valid_powers b → valid_powers (product a b).
Proof. intros. by apply drop_zero_valid, pointwise_valid. Qed.

Lemma quotient_valid a b :
  valid_powers a → valid_powers b → valid_powers (quotient a b).
Proof. intros. by apply drop_zero_valid, pointwise_valid. Qed.

Lemma to_power_valid a q : valid_powers a → valid_powers (to_power a q).
Proof. intros. by apply drop_zero_valid, fmap_valid. Qed.

(** ** The methods of the metaclass on the invariant *)

Lemma _binop_wf op a b r :
  registry_wf r → valid_powers a → valid_powers b →
  ∃ cls r',
    Dimension._binop op a b r = (Ok cls, r')
    ∧ registry_wf r'
    ∧ __powers cls = Dimension.drop_zero (Dimension.pointwise op a b)
    ∧ __cache r ⊆ __cache r'.
Proof.
  intros Hr Ha Hb. unfold Dimension._binop.
  destruct (from_powers_wf (Dimension.pointwise op a b) r Hr)
    as (cls & r' & ? & ? & ? & _ & ?); [by apply pointwise_valid|].
  by exists cls, r'.
Qed.

Section methods.
Context `{Host}.

Lemma __pow___wf cls q r :
  registry_wf r → valid_powers (__powers cls) →
  ∃ cls' r',
    Dimension.__pow__ cls (PFraction q) r = (Ok cls', r')
    ∧ registry_wf r'
    ∧ __powers cls' = to_power (__powers cls) q
    ∧ __cache r ⊆ __cache r'.
Proof.
  intros Hr Hv. unfold Dimension.__pow__. cbn [Dimension.exponent].
  destruct (from_powers_wf ((λ power, power * q)%Qc <$> __powers cls) r Hr)
    as (cls' & r' & ? & ? & ? & _ & ?); [by apply fmap_valid|].
  by exists cls', r'.
Qed.

Lemma __pow___int_wf cls n r :
  registry_wf r → valid_powers (__powers cls) →
  ∃ cls' r',
    Dimension.__pow__ cls (PInt n) r = (Ok cls', r')
    ∧ registry_wf r'
    ∧ __powers cls' = to_power (__powers cls) (Fraction_of_int n)
    ∧ __cache r ⊆ __cache r'.
Proof.
  intros Hr Hv. unfold Dimension.__pow__. cbn [Dimension.exponent].
  destruct (from_powers_wf
              ((λ power, power * Fraction_of_int n)%Qc <$> __powers cls) r Hr)
    as (cls' & r' & ? & ? & ? & _ & ?); [by apply fmap_valid|].
  by exists cls', r'.
Qed.

Lemma type_ok_other (t : pytype T) : is_dimension t = false → type_ok t.
Proof.
  destruct t; try done; intros _;
    (split; [apply valid_powers_empty | apply nonzero_powers_empty]).
Qed.

Lemma class_mul_wf ta tb r :
  registry_wf r → type_ok ta → type_ok tb →
  is_dimension ta || is_dimension tb = true →
  ∃ cls r',
    class_mul ta tb r = (Ok cls, r')
    ∧ registry_wf r'
    ∧ __powers cls = product (type_powers ta) (type_powers tb)
    ∧ __cache r ⊆ __cache r'.
Proof.
  intros Hr [Hva Hna] [Hvb Hnb] Hdim.
  destruct ta as [ca| | | | | | |ta].
  { destruct tb as [cb| | | | | | |tb];
      [by apply _binop_wf|exists ca, r; cbn; by rewrite product_empty_r..]. }
  all: destruct tb as [cb| | | | | | |tb]; try done;
    exists cb, r; cbn; by rewrite product_empty_l.
Qed.

Lemma class_truediv_wf ta tb r :
  registry_wf r → type_ok ta → type_ok tb →
  is_dimension ta || is_dimension tb = true →
  ∃ cls r',
    class_truediv ta tb r = (Ok cls, r')
    ∧ registry_wf r'
    ∧ __powers cls = quotient (type_powers ta) (type_powers tb)
    ∧ __cache r ⊆ __cache r'.
Proof.
  intros Hr [Hva Hna] [Hvb Hnb] Hdim.
  destruct ta as [ca| | | | | | |ta].
  { destruct tb as [cb| | | | | | |tb];
      [by apply _binop_wf|exists ca, r; cbn; by rewrite quotient_empty_r..]. }
  all: destruct tb as [cb| | | | | | |tb]; try done;
    cbn [class_truediv Dimension.__rtruediv__ as_Dimension type_powers];
    rewrite quotient_empty_l; by apply __pow___int_wf.
Qed.
End methods.

(** * Arithmetic on values *)

Section arithmetic.
Context `{Host}.
Variable p : string → M state (obj V).

Lemma wrap_quantity cls v :
  quantity_of (Dimension.__wrap__ cls v) = Some (__powers cls, v).
Proof.
  unfold Dimension.__wrap__. case_bool_decide as Hp; [|done].
  simpl. by rewrite Hp.
Qed.

Lemma wrap_canonical cls v : canonical (Dimension.__wrap__ cls v).
Proof. unfold Dimension.__wrap__. by case_bool_decide. Qed.

Lemma wrap_ok cls v :
  valid_powers (__powers cls) → nonzero_powers (__powers cls) →
  value_ok (Dimension.__wrap__ cls v).
Proof. intros. unfold Dimension.__wrap__. by case_bool_decide. Qed.

Lemma quantity_of_type o q :
  quantity_of o = Some q → type_powers (type_ o) = q.1.
Proof. destruct o; try done; by intros [= <-]. Qed.

Lemma quantity_of_unwrap o q :
  quantity_of o = Some q → Quantity.unwrap o = Plain q.2.
Proof. destruct o; try done; by intros [= <-]. Qed.

Lemma value_type_ok o q :
  quantity_of o = Some q → value_ok o → type_ok (type_ o).
Proof.
  by destruct o.
Qed.

Lemma is_Quantity_type o : is_Quantity o = is_dimension (type_ o).
Proof. by destruct o. Qed.

Lemma state_wf_registry st r :
  state_wf st → registry_wf r →
  state_wf {| dimensions := r; units := units st |}.
Proof. intros [_ Hu] Hr. by split. Qed.

Lemma binop_mul_computes a b qa qb st :
  state_wf st → value_ok a → value_ok b →
  quantity_of a = Some qa → quantity_of b = Some qb →
  computes (Quantity.binop p "mul" a b) st (q_mul qa qb).
Proof.
  intros Hst Hoa Hob Ha Hb. unfold computes.
  pose proof (value_type_ok _ _ Ha Hoa) as Hta.
  pose proof (value_type_ok _ _ Hb Hob) as Htb.
  destruct (is_Quantity a || is_Quantity b) eqn:Hq.
  - assert (Quantity.binop p "mul" a b st
            = Quantity._dispatch p (operator "mul") [a; b] st) as ->.
    { unfold Quantity.binop, Quantity._binary_r, Quantity._binary_r_reflected.
      destruct a; try done; destruct b; done. }
    rewrite !is_Quantity_type in Hq.
    destruct (class_mul_wf _ _ _ (proj1 Hst) Hta Htb Hq)
      as (cls & r' & E & Hr' & Hp & Hsub).
    assert (valid_powers (__powers cls) ∧ nonzero_powers (__powers cls))
      as [Hv Hn].
    { rewrite Hp. split; [apply product_valid; [apply Hta|apply Htb]
                         |apply drop_zero_nonzero]. }
    exists (Dimension.__wrap__ cls
              (operator_call "mul" [Plain qa.2; Plain qb.2])),
           {| dimensions := r'; units := units st |}.
    split_and!; [|by rewrite wrap_quantity, Hp,
                        (quantity_of_type _ _ Ha), (quantity_of_type _ _ Hb)
                 |by apply wrap_ok|apply wrap_canonical
                 |by apply state_wf_registry|done|done].
    unfold Quantity._dispatch.
    destruct a; try done; destruct b; try done;
      cbn -[class_mul]; unfold bind, lift_result, ret, in_registry;
      cbn -[class_mul]; cbn -[class_mul] in E; rewrite E; cbn;
      by injection Ha as <-; injection Hb as <-.
  - destruct a; try done; destruct b; try done.
    injection Ha as <-. injection Hb as <-.
    exists (Plain (operator_call "mul" [Plain v; Plain v0])), st.
    unfold q_mul. cbn [fst snd]. rewrite product_empty_r
      by apply nonzero_powers_empty.
    split_and!; done.
Qed.
Lemma binop_truediv_computes a b qa qb st :
  state_wf st → value_ok a → value_ok b →
  quantity_of a = Some qa → quantity_of b = Some qb →
  computes (Quantity.binop p "truediv" a b) st (q_div qa qb).
Proof.
  intros Hst Hoa Hob Ha Hb. unfold computes.
  pose proof (value_type_ok _ _ Ha Hoa) as Hta.
  pose proof (value_type_ok _ _ Hb Hob) as Htb.
  destruct (is_Quantity a || is_Quantity b) eqn:Hq.
  - assert (Quantity.binop p "truediv" a b st
            = Quantity._dispatch p (operator "truediv") [a; b] st) as ->.
    { unfold Quantity.binop, Quantity._binary_r, Quantity._binary_r_reflected.
      destruct a; try done; destruct b; done. }
    rewrite !is_Quantity_type in Hq.
    destruct (class_truediv_wf _ _ _ (proj1 Hst) Hta Htb Hq)
      as (cls & r' & E & Hr' & Hp & Hsub).
    assert (valid_powers (__powers cls) ∧ nonzero_powers (__powers cls))
      as [Hv Hn].
    { rewrite Hp. split; [apply quotient_valid; [apply Hta|apply Htb]
                         |apply drop_zero_nonzero]. }
    exists (Dimension.__wrap__ cls
              (operator_call "truediv" [Plain qa.2; Plain qb.2])),
           {| dimensions := r'; units := units st |}.
    split_and!; [|by rewrite wrap_quantity, Hp,
                        (quantity_of_type _ _ Ha), (quantity_of_type _ _ Hb)
                 |by apply wrap_ok|apply wrap_canonical
                 |by apply state_wf_registry|done|done].
    unfold Quantity._dispatch.
    destruct a; try done; destruct b; try done;
      cbn -[class_truediv]; unfold bind, lift_result, ret, in_registry;
      cbn -[class_truediv]; cbn -[class_truediv] in E; rewrite E; cbn;
      by injection Ha as <-; injection Hb as <-.
  - destruct a; try done; destruct b; try done.
    injection Ha as <-. injection Hb as <-.
    exists (Plain (operator_call "truediv" [Plain v; Plain v0])), st.
    unfold q_div. cbn [fst snd]. rewrite quotient_empty_r
      by apply nonzero_powers_empty.
    split_and!; done.
Qed.
Lemma binop_pow_computes x qx q st :
  state_wf st → value_ok x → quantity_of x = Some qx →
  computes (Quantity.binop p "pow" x (PFraction q)) st (q_pow qx q).
Proof.
  intros Hst Hox Hx. unfold computes.
  destruct x; try done; injection Hx as <-.
  - exists (Plain (operator_call "pow" [Plain v; PFraction q])), st.
    unfold q_pow. cbn [fst snd]. rewrite to_power_empty.
    split_and!; done.
  - destruct Hox as [Hv Hn].
    destruct (__pow___wf cls q _ (proj1 Hst) Hv)
      as (cls' & r' & E & Hr' & Hp & Hsub).
    exists (Dimension.__wrap__ cls'
              (operator_call "pow" [Plain value; PFraction q])),
           {| dimensions := r'; units := units st |}.
    split_and!; [|by rewrite wrap_quantity, Hp
                 |apply wrap_ok; rewrite Hp;
                    [by apply to_power_valid|apply drop_zero_nonzero]
                 |apply wrap_canonical
                 |by apply state_wf_registry|done|done].
    unfold Quantity.binop, Quantity._binary_r, Quantity._dispatch.
    cbn -[Dimension.__pow__].
    unfold bind, lift_result, ret, in_registry. cbn -[Dimension.__pow__].
    by rewrite E.
Qed.

End arithmetic.

(** * [parse] computes the fold *)

Lemma bind_ok {S A B} (m : M S A) (k : A → M S B) s a s' :
  m s = (Ok a, s') → bind m k s = k a s'.
Proof. intros E. unfold bind. by rewrite E. Qed.

Lemma bind_err {S A B} (m : M S A) (k : A → M S B) s e s' :
  m s = (Err e, s') → bind m k s = (Err e, s').
Proof. intros E. unfold bind. by rewrite E. Qed.

Lemma try_except_ok {S A} (m : M S A) catches handler s a s' :
  m s = (Ok a, s') → try_except m catches handler s = (Ok a, s').
Proof. intros E. unfold try_except. by rewrite E. Qed.

Section parse_fold.
Context `{Host}.
Variable p : string → M state (obj V).

Lemma coefficient_float s c :
  coefficient s = Some c →
  float_or_1
    (take_str (String.length s
               - String.length (lstrip "+-0123456789." s)) s) = Ok c.
Proof.
  unfold coefficient, leading_literal. by destruct (float_or_1 _); intros [= ->].
Qed.

Lemma unit_quantity_getattr st u q :
  state_wf st → unit_quantity (units st) u = Some q →
  ∃ x, Units.getattr u st = (Ok x, st)
       ∧ quantity_of x = Some q ∧ value_ok x.
Proof.
  intros [_ Hunits]. unfold unit_quantity, Units.getattr, Units.__getattr__.
  destruct (name_in u Units.class_attrs); [done|].
  destruct (units st !! u) as [x|] eqn:Hx; [|done]. simpl. intros Hq.
  exists x. unfold bind, get. rewrite Hx. split_and!; [done..|].
  by apply (Hunits u x).
Qed.

Lemma parse_step_computes q acc item v st :
  state_wf st → value_ok q → quantity_of q = Some acc →
  factor_quantity (units st) item = Some v →
  computes (parse_step p q item) st
    (if item.2 then q_mul acc v else q_div acc v).
Proof.
  intros Hst Hoq Hq. destruct item as [[expr power] isnumer].
  unfold factor_quantity. cbn [snd].
  destruct (coefficient expr) as [c|] eqn:Hc; [|done]. simpl.
  destruct (unit_quantity (units st) (lstrip "+-0123456789." expr))
    as [xq|] eqn:Hu; [|done]. simpl. intros [= <-].
  apply coefficient_float in Hc.
  destruct (unit_quantity_getattr _ _ _ Hst Hu) as (x & Ex & Hx & Hox).
  destruct (binop_pow_computes p x xq power st Hst Hox Hx)
    as (xp & st1 & E1 & Hxp & Hoxp & _ & Hst1 & Hu1 & Hsub1).
  destruct (binop_mul_computes p (Plain c) xp (∅, c) _ st1 Hst1 I Hoxp
              eq_refl Hxp)
    as (f & st2 & E2 & Hf & Hof & _ & Hst2 & Hu2 & Hsub2).
  assert (∃ r st',
            (if isnumer then Quantity.binop p "mul" q f
             else Quantity.binop p "truediv" q f) st2 = (Ok r, st')
            ∧ quantity_of r
              = Some (if isnumer then q_mul acc (q_mul (∅, c) (q_pow xq power))
                      else q_div acc (q_mul (∅, c) (q_pow xq power)))
            ∧ value_ok r ∧ canonical r ∧ state_wf st'
            ∧ units st' = units st2
            ∧ __cache (dimensions st2) ⊆ __cache (dimensions st'))
    as (r & st3 & E3 & Hr & Hor & Hcr & Hst3 & Hu3 & Hsub3).
  { destruct isnumer;
      [by apply binop_mul_computes | by apply binop_truediv_computes]. }
  exists r, st3. split_and!; try done.
  - unfold parse_step.
    erewrite bind_ok; [exact E3|].
    apply try_except_ok.
    unfold lift_result at 1. rewrite Hc.
    erewrite bind_ok; [|reflexivity].
    erewrite bind_ok; [|exact Ex].
    erewrite bind_ok; [|exact E1]. exact E2.
  - by rewrite Hu3, Hu2.
  - by repeat (etrans; [eassumption|]).
Qed.

Lemma fold_computes factors : ∀ q acc res st,
  state_wf st → value_ok q → canonical q → quantity_of q = Some acc →
  fold_factors (units st) acc factors = Some res →
  computes (foldM (parse_step p) q factors) st res.
Proof.
  induction factors as [|item factors IH]; intros q acc res st Hst Hoq Hcq Hq.
  - intros [= <-]. exists q, st. split_and!; done.
  - cbn [fold_factors].
    destruct (factor_quantity (units st) item) as [v|] eqn:Hv; [|done].
    simpl. intros Hfold.
    destruct (parse_step_computes q acc item v st Hst Hoq Hq Hv)
      as (q' & st1 & E1 & Hq' & Hoq' & Hcq' & Hst1 & Hu1 & Hsub1).
    rewrite <-Hu1 in Hfold.
    destruct (IH q' _ res st1 Hst1 Hoq' Hcq' Hq' Hfold)
      as (r & st2 & E2 & Hr & Hor & Hcr & Hst2 & Hu2 & Hsub2).
    exists r, st2. split_and!; try done.
    + cbn [foldM]. erewrite bind_ok; [exact E2 | exact E1].
    + by rewrite Hu2.
    + by etrans.
Qed.

(** What [parse] does once the parser that [_dispatch] refers to is
    fixed: it returns the fold, wrapped in the class of its powers and
    tagged with the text, when the powers are not empty, and raises
    [AttributeError] when they are. *)
Lemma parse_body_computes s pw v st :
  state_wf st → parse_value (units st) s = Some (pw, v) →
  ∃ st',
    state_wf st' ∧ units st' = units st
    ∧ __cache (dimensions st) ⊆ __cache (dimensions st')
    ∧ if decide (pw = ∅)
      then parse_body p s st = (Err AttributeError, st')
      else ∃ cls, parse_body p s st = (Ok (Quant cls v (Some s)), st')
                  ∧ __powers cls = pw
                  ∧ value_ok (Quant cls v (Some s)).
Proof.
  intros Hst. unfold parse_value.
  destruct (coefficient s) as [c|] eqn:Hc; [|done]. simpl.
  destruct (_split_factors (lstrip "+-0123456789." s))
    as [factors [e|]] eqn:Hsplit; [done|].
  intros Hfold. apply coefficient_float in Hc.
  destruct (fold_computes factors (Plain c) (∅, c) (pw, v) st Hst I I
              eq_refl Hfold)
    as (r & st' & E & Hr & Hor & Hcr & Hst' & Hu & Hsub).
  exists st'. split_and!; try done.
  assert (parse_body p s st = set_parsed_from r s st') as ->.
  { unfold parse_body. rewrite Hc, Hsplit.
    erewrite bind_ok; [|reflexivity].
    erewrite bind_ok; [|exact E].
    by erewrite bind_ok; [|reflexivity]. }
  destruct r as [x| | | | |cls x pf| |]; try done.
  - injection Hr as <- <-. by rewrite decide_True.
  - injection Hr as <- <-. rewrite decide_False by done.
    by exists cls.
Qed.
End parse_fold.

Section parse_top.
Context `{Host}.

Lemma parse_unfold s : parse s = parse_body (parse_depth 999) s.
Proof. reflexivity. Qed.

Lemma parse_computes s pw v st :
  state_wf st → parse_value (units st) s = Some (pw, v) →
  ∃ st',
    state_wf st' ∧ units st' = units st
    ∧ __cache (dimensions st) ⊆ __cache (dimensions st')
    ∧ if decide (pw = ∅)
      then parse s st = (Err AttributeError, st')
      else ∃ cls, parse s st = (Ok (Quant cls v (Some s)), st')
                  ∧ __powers cls = pw
                  ∧ value_ok (Quant cls v (Some s)).
Proof. rewrite parse_unfold. apply parse_body_computes. Qed.
End parse_top.

(** * Only a definition changes [units] *)

Section frame.
Context `{Host}.

Lemma keeps_ret {A} (a : A) : keeps_units (ret a).
Proof. by intros st r st' [= _ <-]. Qed.

Lemma keeps_raise {A} e : keeps_units (raise (A:=A) e).
Proof. by intros st r st' [= _ <-]. Qed.

Lemma keeps_lift_result {A} (x : result A) : keeps_units (lift_result x).
Proof. by intros st r st' [= _ <-]. Qed.

Lemma keeps_get : keeps_units get.
Proof. by intros st r st' [= _ <-]. Qed.

Lemma keeps_bind {A B} (m : M state A) (k : A → M state B) :
  keeps_units m → (∀ a, keeps_units (k a)) → keeps_units (bind m k).
Proof.
  intros Hm Hk st r st'. unfold bind.
  destruct (m st) as [[a|e] st1] eqn:E.
  - intros Ek. rewrite (Hk a _ _ _ Ek). by apply (Hm _ _ _ E).
  - intros [= _ <-]. by apply (Hm _ _ _ E).
Qed.

Lemma keeps_in_registry {A} (m : M registry A) : keeps_units (in_registry m).
Proof.
  intros st r st'. unfold in_registry.
  destruct (m (dimensions st)). by intros [= _ <-].
Qed.

Lemma keeps_try_except {A} (m : M state A) catches handler :
  keeps_units m → keeps_units handler →
  keeps_units (try_except m catches handler).
Proof.
  intros Hm Hh st r st'. unfold try_except.
  destruct (m st) as [[a|e] st1] eqn:E.
  - intros [= _ <-]. by apply (Hm _ _ _ E).
  - destruct (catches e).
    + intros Eh. rewrite (Hh _ _ _ Eh). by apply (Hm _ _ _ E).
    + intros [= _ <-]. by apply (Hm _ _ _ E).
Qed.

Lemma keeps_mapM {A B} (f : A → M state B) l :
  (∀ a, keeps_units (f a)) → keeps_units (mapM f l).
Proof.
  intros Hf. induction l as [|a l IH]; cbn [mapM].
  - apply keeps_ret.
  - apply keeps_bind; [done|]. intros b.
    apply keeps_bind; [done|]. intros bs. apply keeps_ret.
Qed.

Lemma keeps_foldM {A B} (f : B → A → M state B) l :
  (∀ b a, keeps_units (f b a)) → ∀ b, keeps_units (foldM f b l).
Proof.
  intros Hf. induction l as [|a l IH]; intros b; cbn [foldM].
  - apply keeps_ret.
  - apply keeps_bind; [done|]. intros b'. apply IH.
Qed.

Lemma keeps_if {A} (c : bool) (m1 m2 : M state A) :
  keeps_units m1 → keeps_units m2 → keeps_units (if c then m1 else m2).
Proof. by destruct c. Qed.

(** Breaks a computation down to its primitive steps. *)
Ltac keeps :=
  repeat first
    [ apply keeps_ret | apply keeps_raise | apply keeps_lift_result
    | apply keeps_get | apply keeps_in_registry
    | apply keeps_bind; [|intros ?]
    | apply keeps_if
    | apply keeps_try_except
    | apply keeps_mapM; intros ?
    | done
    | match goal with
      | |- keeps_units (match ?x with _ => _ end) => destruct x
      | |- keeps_units (let '(_, _) := ?x in _) => destruct x
      end ].

Section with_parser.
Variable p : string → M state (obj V).
Hypothesis Hp : ∀ s, keeps_units (p s).

Lemma keeps_classify name args : keeps_units (Quantity.classify name args).
Proof. unfold Quantity.classify. keeps. Qed.

Lemma keeps__dispatch op args : keeps_units (Quantity._dispatch p op args).
Proof.
  unfold Quantity._dispatch. keeps.
Qed.

Lemma keeps_binop name a b : keeps_units (Quantity.binop p name a b).
Proof.
  unfold Quantity.binop, Quantity._binary_r, Quantity._binary_r_reflected.
  destruct (is_Quantity a); [apply keeps__dispatch|].
  destruct (is_Quantity b); [apply keeps__dispatch|].
  keeps.
Qed.

Lemma keeps_getattr u : keeps_units (Units.getattr u).
Proof. unfold Units.getattr, Units.__getattr__. keeps. Qed.

Lemma keeps_parse_step q item : keeps_units (parse_step p q item).
Proof.
  unfold parse_step. destruct item as [[expr power] isnumer].
  keeps; auto using keeps_binop, keeps_getattr.
Qed.

Lemma keeps_parse_body s : keeps_units (parse_body p s).
Proof.
  unfold parse_body, set_parsed_from.
  apply keeps_bind; [apply keeps_lift_result|]. intros q.
  destruct (_split_factors _) as [factors stop].
  apply keeps_bind; [apply keeps_foldM; apply keeps_parse_step|]. intros q'.
  keeps.
Qed.
End with_parser.

Lemma keeps_parse_depth depth : ∀ s, keeps_units (parse_depth depth s).
Proof.
  induction depth as [|depth IH]; intros s; cbn [parse_depth].
  - apply keeps_raise.
  - by apply keeps_parse_body.
Qed.

Lemma keeps_parse s : keeps_units (parse s).
Proof. apply keeps_parse_depth. Qed.

Lemma keeps_mul a b : keeps_units (Quantity.binop parse "mul" a b).
Proof. apply keeps_binop, keeps_parse. Qed.

(** [parse] returns nothing but an instance tagged with the text. *)
Lemma parse_returns_quantity s st q st' :
  parse s st = (Ok q, st') → ∃ cls v, q = Quant cls v (Some s).
Proof.
  rewrite parse_unfold. unfold parse_body.
  destruct (float_or_1 _) as [c|e]; [|done].
  destruct (_split_factors _) as [factors stop].
  unfold bind at 1, lift_result at 1.
  unfold bind at 1.
  destruct (foldM _ _ _ _) as [[r|e] st1]; [|done].
  unfold bind at 1.
  destruct stop as [e|]; [done|]. unfold ret at 1.
  unfold set_parsed_from. destruct r; try done.
  intros [= <- _]. by eexists _, _.
Qed.
End frame.

(** * Definitions of units *)

Section define.
Context `{Host}.

Lemma scale_quantity p cls raw pf x r u :
  Quantity.binop p "mul" (Quant cls raw pf) (Plain x) (mkState r u) =
  (Ok (Dimension.__wrap__ cls (operator_call "mul" [Plain raw; Plain x])),
   mkState r u).
Proof. reflexivity. Qed.

Lemma scale_all p name cls raw pf r u (l : list (string * string)) :
  mapM (λ ps : string * string,
          let* v := Quantity.binop p "mul" (Quant cls raw pf)
                      (Plain (float ps.2)) in
          ret (ps.1 +:+ name, v)) l (mkState r u) =
  (Ok (map (λ ps : string * string,
              (ps.1 +:+ name,
               Dimension.__wrap__ cls
                 (operator_call "mul" [Plain raw; Plain (float ps.2)]))) l),
   mkState r u).
Proof.
  induction l as [|ps l IH]; [done|].
  cbn [mapM map]. erewrite bind_ok; [|by erewrite bind_ok;
                                        [|apply scale_quantity]].
  by erewrite bind_ok; [|exact IH].
Qed.

(** What a definition by a quantity does. *)
Lemma define_quantity name cls raw pf r u :
  define name (Quant cls raw pf) (mkState r u) =
  if bool_decide (is_Some (u !! name)) then (Err ValueError, mkState r u)
  else if bool_decide
            (dom (Units.dict_of (prefixed_entries name cls raw)) ∩ dom u = ∅)
       then (Ok tt,
             mkState r (Units.dict_of (prefixed_entries name cls raw)
                        ∪ <[name := Quant cls raw pf]> u))
       else (Err ValueError, mkState r u).
Proof.
  unfold define, Units.__setattr__. cbn [is_Quantity].
  erewrite bind_ok; [|reflexivity].
  erewrite bind_ok; [|reflexivity]. cbn [units].
  case_bool_decide; [done|].
  erewrite bind_ok; [|apply scale_all].
  erewrite bind_ok; [|reflexivity]. cbn [units dimensions].
  fold (prefixed_entries name cls raw).
  case_bool_decide; [|done]. reflexivity.
Qed.

(** What a definition by an expression does: it parses the expression
    and goes on as a definition by the quantity that comes out. *)
Lemma define_str name e st :
  define name (PStr e) st =
  match parse e st with
  | (Ok q, st1) => define name q st1
  | (Err err, st1) => (Err err, st1)
  end.
Proof.
  destruct (parse e st) as [[q|err] st1] eqn:E.
  - destruct (parse_returns_quantity _ _ _ _ E) as (cls & v & ->).
    unfold define, Units.__setattr__. cbn [is_Quantity].
    erewrite bind_ok; [|exact E]. by erewrite (bind_ok (ret _)).
  - unfold define, Units.__setattr__. cbn [is_Quantity].
    by erewrite bind_err; [|exact E].
Qed.

(** A definition that fails leaves [units] as it was. *)
Lemma define_atomic name value st e st' :
  define name value st = (Err e, st') → units st' = units st.
Proof.
  destruct value as [x|n|q|s|l|cls raw pf|a|]; try by intros [= _ <-].
  - rewrite define_str.
    destruct (parse s st) as [[q|err] st1] eqn:E.
    + destruct (parse_returns_quantity _ _ _ _ E) as (cls & v & ->).
      apply keeps_parse in E. destruct st1 as [r1 u1].
      rewrite define_quantity. repeat case_bool_decide; try done;
        by intros [= _ <-].
    + intros [= _ <-]. by apply keeps_parse in E.
  - destruct st as [r u]. rewrite define_quantity.
    repeat case_bool_decide; try done; by intros [= _ <-].
Qed.

(** A definition by a quantity of a symbol that is defined, or one of
    whose prefixed forms is, fails with [ValueError]. *)
Lemma define_quantity_collision name cls raw pf st :
  is_Some (units st !! name)
  ∨ (∃ ps, ps ∈ Units.__prefix ∧ is_Some (units st !! (ps.1 +:+ name))) →
  ∃ st', define name (Quant cls raw pf) st = (Err ValueError, st')
         ∧ units st' = units st.
Proof.
  destruct st as [r u]. cbn [units]. intros Hc.
  exists (mkState r u). rewrite define_quantity. split; [|done].
  case_bool_decide; [done|]. destruct Hc as [?|(ps & Hps & [o Ho])]; [done|].
  rewrite bool_decide_eq_false_2; [done|].
  intros Hempty.
  assert (ps.1 +:+ name ∈ dom (Units.dict_of (prefixed_entries name cls raw))
                          ∩ dom u) as Hin; [|by rewrite Hempty in Hin].
  apply elem_of_intersection. split; [|by apply elem_of_dom].
  revert Hps. unfold prefixed_entries. generalize Units.__prefix.
  intros l Hps. unfold Units.dict_of.
  assert (∀ (items : list (string * obj V)) (d : gmap string (obj V)) k,
            k ∈ dom d ∨ k ∈ items.*1 →
            k ∈ dom (foldl (λ d kv, <[kv.1 := kv.2]> d) d items)) as Hfold.
  { induction items as [|kv items IH]; intros d k; cbn [foldl].
    - intros [?|?%elem_of_nil]; done.
    - rewrite fmap_cons, elem_of_cons. intros Hk. apply IH.
      rewrite dom_insert_L, elem_of_union, elem_of_singleton. tauto. }
  apply Hfold. right. rewrite <-list_fmap_compose.
  apply list_elem_of_fmap. by exists ps.
Qed.
End define.

(** ** The entries that a definition adds *)

Lemma length_app_str (a b : string) :
  String.length (a +:+ b) = (String.length a + String.length b)%nat.
Proof.
  induction a as [|c a IH]; [done|]. rewrite app_String. simpl. by rewrite IH.
Qed.

Lemma app_inj_r (name a b : string) : a +:+ name = b +:+ name → a = b.
Proof.
  revert b. induction a as [|c a IH]; intros [|d b];
    rewrite ?app_String, ?app_empty_l; try done.
  - intros Heq. apply (f_equal String.length) in Heq.
    simpl in Heq. rewrite length_app_str in Heq. lia.
  - intros Heq. apply (f_equal String.length) in Heq.
    simpl in Heq. rewrite length_app_str in Heq. lia.
  - intros [= -> Heq]. f_equal. by apply IH.
Qed.

Section entries.
Context `{Host}.

Lemma dict_of_fold (items : list (string * obj V)) (d : gmap string (obj V)) :
  foldl (λ d kv, <[kv.1 := kv.2]> d) d items
  = list_to_map (reverse items) ∪ d.
Proof.
  revert d. induction items as [|[k v] items IH]; intros d; cbn [foldl].
  - by rewrite reverse_nil, list_to_map_nil, (left_id_L ∅ (∪)).
  - rewrite IH, reverse_cons, list_to_map_app. cbn [list_to_map foldr].
    rewrite <-(assoc_L (∪)). f_equal.
    by rewrite insert_empty, <-insert_union_singleton_l.
Qed.

Lemma dict_of_list_to_map (items : list (string * obj V)) :
  Units.dict_of items = list_to_map (reverse items).
Proof. unfold Units.dict_of. by rewrite dict_of_fold, (right_id_L ∅ (∪)). Qed.

Lemma prefixed_keys name cls raw :
  (prefixed_entries name cls raw).*1
  = (λ p, p +:+ name) <$> Units.__prefix.*1.
Proof.
  unfold prefixed_entries. rewrite <-!list_fmap_compose. done.
Qed.

Lemma prefixes_NoDup : NoDup Units.__prefix.*1.
Proof. apply (bool_decide_eq_true_1 (NoDup _)). vm_compute. reflexivity. Qed.

Lemma prefixes_nonempty : Forall (λ p, p ≠ "") Units.__prefix.*1.
Proof. apply (bool_decide_eq_true_1 (Forall _ _)). vm_compute. reflexivity. Qed.

Lemma prefixed_keys_NoDup name cls raw :
  NoDup (reverse (prefixed_entries name cls raw)).*1.
Proof.
  rewrite fmap_reverse, prefixed_keys, reverse_Permutation.
  assert (Inj (=) (=) (λ p, p +:+ name)) by (intros a b; apply app_inj_r).
  apply (NoDup_fmap_2 (λ p, p +:+ name)), prefixes_NoDup.
Qed.

Lemma prefixed_lookup name cls raw p f :
  (p, f) ∈ Units.__prefix →
  Units.dict_of (prefixed_entries name cls raw) !! (p +:+ name)
  = Some (Dimension.__wrap__ cls
            (operator_call "mul" [Plain raw; Plain (float f)])).
Proof.
  intros Hin. rewrite dict_of_list_to_map.
  apply elem_of_list_to_map; [apply prefixed_keys_NoDup|].
  rewrite elem_of_reverse. unfold prefixed_entries.
  apply list_elem_of_fmap. by exists (p, f).
Qed.

Lemma prefixed_lookup_other name cls raw k :
  (∀ p f, (p, f) ∈ Units.__prefix → k ≠ p +:+ name) →
  Units.dict_of (prefixed_entries name cls raw) !! k = None.
Proof.
  intros Hk. rewrite dict_of_list_to_map.
  apply not_elem_of_list_to_map.
  rewrite fmap_reverse, elem_of_reverse. unfold prefixed_entries.
  rewrite <-list_fmap_compose.
  intros ([p f] & -> & Hin)%list_elem_of_fmap. by apply (Hk p f).
Qed.

Lemma prefixed_size name cls raw :
  size (Units.dict_of (prefixed_entries name cls raw)) = 19%nat.
Proof.
  rewrite dict_of_list_to_map, map_size_list_to_map
    by apply prefixed_keys_NoDup.
  by rewrite length_reverse.
Qed.

Lemma prefixed_not_name name p f : (p, f) ∈ Units.__prefix → name ≠ p +:+ name.
Proof.
  intros Hin Heq. apply (app_inj_r name "" p) in Heq.
  pose proof prefixes_nonempty as Hne. rewrite Forall_forall in Hne.
  apply (Hne p); [|done]. apply list_elem_of_fmap. by exists (p, f).
Qed.
End entries.

Section define_inserts.
Context `{Host}.

(** The dictionary after a definition by a quantity that succeeds. *)
Lemma define_quantity_inserts name cls raw pf r u st' :
  define name (Quant cls raw pf) (mkState r u) = (Ok tt, st') →
  u !! name = None
  ∧ units st' !! name = Some (Quant cls raw pf)
  ∧ (∀ p f, (p, f) ∈ Units.__prefix →
       u !! (p +:+ name) = None
       ∧ units st' !! (p +:+ name)
         = Some (Dimension.__wrap__ cls
                   (operator_call "mul" [Plain raw; Plain (float f)])))
  ∧ (∀ k, k ≠ name →
       (∀ p f, (p, f) ∈ Units.__prefix → k ≠ p +:+ name) →
       units st' !! k = u !! k)
  ∧ size (units st') = (size u + 1 + 19)%nat.
Proof.
  rewrite define_quantity.
  case_bool_decide as Hname; [done|].
  case_bool_decide as Hdisj; [|done]. intros [= <-]. cbn [units].
  apply eq_None_not_Some in Hname.
  assert (Units.dict_of (prefixed_entries name cls raw) !! name = None)
    as Hscaled_name.
  { apply prefixed_lookup_other. intros p f Hin.
    by apply (prefixed_not_name name p f). }
  assert (∀ p f, (p, f) ∈ Units.__prefix → u !! (p +:+ name) = None)
    as Hfree.
  { intros p f Hin. apply eq_None_not_Some. intros Hsome.
    assert (p +:+ name ∈ dom (Units.dict_of (prefixed_entries name cls raw))
                         ∩ dom u) as Hboth; [|by rewrite Hdisj in Hboth].
    apply elem_of_intersection. split; apply elem_of_dom; [|done].
    rewrite (prefixed_lookup _ _ _ _ _ Hin). by eexists. }
  split_and!.
  - done.
  - rewrite lookup_union_r by done. apply lookup_insert_eq.
  - intros p f Hin. split; [by apply (Hfree p f)|].
    apply lookup_union_Some_l. by apply prefixed_lookup.
  - intros k Hk Hother.
    rewrite lookup_union_r by by apply prefixed_lookup_other.
    by rewrite lookup_insert_ne.
  - rewrite map_size_disj_union.
    + rewrite prefixed_size, map_size_insert_None by done. lia.
    + apply map_disjoint_spec. intros k x y Hx Hy.
      destruct (decide (k = name)) as [->|Hk]; [congruence|].
      rewrite lookup_insert_ne in Hy by done.
      assert (k ∈ dom (Units.dict_of (prefixed_entries name cls raw))
                  ∩ dom u) as Hboth; [|by rewrite Hdisj in Hboth].
      apply elem_of_intersection. split; apply elem_of_dom; by eexists.
Qed.

(** C7, amended.  A definition that succeeds resolves its value to a
    quantity, stores it under the symbol, which was not defined, and
    stores besides it exactly 19 entries, one for each of the 19
    prefixes: the prefixed symbol, which was not defined either, with
    the value scaled by the factor of the prefix.  No other entry
    changes, so the dictionary grows by 1 + 19 entries. *)
Theorem define_inserts_prefixed (name : string) (value : obj V)
    (st st' : state) :
  define name value st = (Ok tt, st') →
  ∃ cls raw pf,
    (value = Quant cls raw pf
     ∨ ∃ e st1, value = PStr e
                ∧ parse e st = (Ok (Quant cls raw pf), st1))
    ∧ length Units.__prefix = 19%nat
    ∧ units st !! name = None
    ∧ units st' !! name = Some (Quant cls raw pf)
    ∧ (∀ p f, (p, f) ∈ Units.__prefix →
         units st !! (p +:+ name) = None
         ∧ units st' !! (p +:+ name)
           = Some (Dimension.__wrap__ cls
                     (operator_call "mul" [Plain raw; Plain (float f)])))
    ∧ (∀ k, k ≠ name →
         (∀ p f, (p, f) ∈ Units.__prefix → k ≠ p +:+ name) →
         units st' !! k = units st !! k)
    ∧ size (units st') = (size (units st) + 1 + 19)%nat.
Proof.
  destruct value as [x|n|q|e|l|cls raw pf|a|]; try done.
  - rewrite define_str.
    destruct (parse e st) as [[q|err] st1] eqn:E; [|done].
    destruct (parse_returns_quantity _ _ _ _ E) as (cls & raw & ->).
    pose proof (keeps_parse _ _ _ _ E) as Hu.
    destruct st1 as [r1 u1]. cbn [units] in Hu. subst u1.
    intros Hdef. apply define_quantity_inserts in Hdef.
    exists cls, raw, (Some e). split; [right; by exists e, (mkState r1 (units st))|].
    split; [done|]. exact Hdef.
  - destruct st as [r u]. intros Hdef. apply define_quantity_inserts in Hdef.
    exists cls, raw, pf. split; [by left|]. split; [done|]. exact Hdef.
Qed.
End define_inserts.

(** The outcome of a run decides the run. *)
Lemma run_fst {S A} (m : M S A) (s : S) (r : result A) :
  (m s).1 = r → m s = (r, (m s).2).
Proof. intros <-. by destruct (m s). Qed.

(** ** C7: witness and counterexample *)

Section define_examples.
#[local] Existing Instance symbolic_host.

Lemma define_inserts_prefixed_witness :
  let st : state := initial in
  let st' := (define "zz" (PStr "1s") st).2 in
  define "zz" (PStr "1s") st = (Ok tt, st')
  ∧ ∃ cls raw pf,
      ((PStr "1s" : obj V) = Quant cls raw pf
       ∨ ∃ e st1, (PStr "1s" : obj V) = PStr e
                  ∧ parse e st = (Ok (Quant cls raw pf), st1))
      ∧ length Units.__prefix = 19%nat
      ∧ units st !! "zz" = None
      ∧ units st' !! "zz" = Some (Quant cls raw pf)
      ∧ (∀ p f, (p, f) ∈ Units.__prefix →
           units st !! (p +:+ "zz") = None
           ∧ units st' !! (p +:+ "zz")
             = Some (Dimension.__wrap__ cls
                       (operator_call "mul" [Plain raw; Plain (float f)])))
      ∧ (∀ k, k ≠ "zz" →
           (∀ p f, (p, f) ∈ Units.__prefix → k ≠ p +:+ "zz") →
           units st' !! k = units st !! k)
      ∧ size (units st') = (size (units st) + 1 + 19)%nat.
Proof.
  intros st st'.
  assert ((define "zz" (PStr "1s") st).1 = Ok tt) as Hrun
    by (vm_compute; reflexivity).
  pose proof (run_fst _ _ _ Hrun) as Hdef.
  split; [exact Hdef|].
  exact (define_inserts_prefixed "zz" (PStr "1s") st st' Hdef).
Defined.

(** C7 as stated fails: the definition of a new unit [zz] in the state
    after import succeeds, and the entries it adds besides the literal
    one are 19, not 20. *)
Lemma define_inserts_19_not_20 :
  let st : state := initial in
  let st' := (define "zz" (PStr "1s") st).2 in
  (define "zz" (PStr "1s") st).1 = Ok tt
  ∧ size (filter (λ kv, kv.1 ≠ "zz" ∧ units st !! kv.1 = None) (units st'))
    = 19%nat
  ∧ size (filter (λ kv, kv.1 ≠ "zz" ∧ units st !! kv.1 = None) (units st'))
    ≠ 20%nat
  ∧ length Units.__prefix = 19%nat.
Proof.
  intros st st'.
  assert (size (filter (λ kv, kv.1 ≠ "zz" ∧ units st !! kv.1 = None)
                  (units st')) = 19%nat) as ->
    by (vm_compute; reflexivity).
  split_and!; [vm_compute; reflexivity|done|done|done].
Qed.

End define_examples.

(** ** C6 *)

(** C6, as the code has it.  A definition that fails, whatever the
    exception, leaves the dictionary as it was; a definition by a
    quantity of a symbol that is defined, or one of whose prefixed
    forms is defined, fails with [ValueError].  A definition by a
    dimensionless expression does not: [units.m = "1"] in the state
    after import, where [m] is defined, raises [AttributeError], which
    [parse] raises before the symbol is looked at. *)
Theorem define_dimensionless_expression `{Host} :
  (∀ name value st e st',
     define name value st = (Err e, st') → units st' = units st)
  ∧ (∀ name cls raw pf st,
       is_Some (units st !! name)
       ∨ (∃ ps, ps ∈ Units.__prefix
                ∧ is_Some (units st !! (ps.1 +:+ name))) →
       ∃ st', define name (Quant cls raw pf) st = (Err ValueError, st')
              ∧ units st' = units st)
  ∧ is_Some (units initial !! "m")
  ∧ ∃ st', define "m" (PStr "1") initial = (Err AttributeError, st')
           ∧ units st' = units initial.
Proof.
  assert ((define "m" (PStr "1") initial).1 = Err AttributeError) as Hrun
    by (vm_compute; reflexivity).
  pose proof (run_fst _ _ _ Hrun) as Hdef.
  split; [exact define_atomic|].
  split; [exact define_quantity_collision|].
  split.
  - apply (bool_decide_eq_true_1 (is_Some _)). vm_compute. reflexivity.
  - eexists. split; [exact Hdef|]. by apply define_atomic in Hdef.
Qed.

(** ** C8 *)

(** C8 fails on the code: [parse] raises [AttributeError] on the bare
    literal ["2"] in every state and on ["2m/m"] in the state after
    import, and on every string whose fold has no powers left: the
    assignment of [_parsed_from] needs an instance, and the value is a
    bare number. *)
Theorem parse_dimensionless_raises `{Host} :
  (∀ st, parse "2" st = (Err AttributeError, st))
  ∧ (∃ st', parse "2m/m" initial = (Err AttributeError, st'))
  ∧ (∀ st s v,
       state_wf st → parse_value (units st) s = Some (∅, v) →
       ∃ st', parse s st = (Err AttributeError, st')).
Proof.
  split_and!.
  - intros st. reflexivity.
  - assert ((parse "2m/m" initial).1 = Err AttributeError) as Hrun
      by (vm_compute; reflexivity).
    eexists. exact (run_fst _ _ _ Hrun).
  - intros st s v Hst Hv.
    destruct (parse_computes s ∅ v st Hst Hv) as (st' & _ & _ & _ & Hp).
    rewrite decide_True in Hp by done. by exists st'.
Qed.

(** ** C3 *)

Lemma initial_wf `{Host} : state_wf initial.
Proof.
  apply (bool_decide_eq_true_1 (state_wf initial)). vm_compute. reflexivity.
Qed.


Section parse_examples.
#[local] Existing Instance symbolic_host.

End parse_examples.

(** * The dispatcher *)

Lemma name_in_elem name names : name_in name names = true → name ∈ names.
Proof.
  unfold name_in. induction names as [|n names IH]; [done|]. cbn [existsb].
  intros [Heq|Hin]%orb_true_iff.
  - apply String.eqb_eq in Heq as ->. by left.
  - right. by apply IH.
Qed.

Section dispatch.
Context `{Host}.

(** Operands that are not strings are dispatched as they are. *)
Lemma resolve_values (p : string → M state (obj V)) args st :
  Forall (λ a, ∀ s, a ≠ PStr s) args →
  mapM (λ arg, match arg with
               | PStr s => p s
               | _ => ret arg
               end) args st = (Ok args, st).
Proof.
  induction 1 as [|a args Ha _ IH]; [done|]. cbn [mapM].
  erewrite bind_ok; [|destruct a; try reflexivity; exfalso; by eapply Ha].
  by erewrite bind_ok; [|exact IH].
Qed.

Lemma wrap_dimensioned cls (v : V) :
  __powers cls ≠ ∅ → Dimension.__wrap__ cls v = Quant cls v None.
Proof. intros Hp. unfold Dimension.__wrap__. by rewrite bool_decide_eq_false_2. Qed.


(** ** C4 *)

(** C4.  For an operation with an additive name on two quantities, the
    first of which has a dimension: when the class of the second is not
    the class of the first, [_dispatch] raises [TypeError]; when it is,
    [_dispatch] returns an instance of the class of the first operand
    whose payload is what the operation gives on the two payloads (for
    [operator.add], their sum in the host library).  The state is left
    as it was. *)
Theorem additive_dispatch (op : callable) (c0 c1 : Dimension) (v0 v1 : V)
    (pf0 pf1 : option string) (st : state) :
  fn_name op ∈ additive_names →
  __powers c0 ≠ ∅ →
  (dim_id c1 ≠ dim_id c0 →
   _dispatch op [Quant c0 v0 pf0; Quant c1 v1 pf1] st = (Err TypeError, st))
  ∧ (dim_id c1 = dim_id c0 →
     _dispatch op [Quant c0 v0 pf0; Quant c1 v1 pf1] st
     = (Ok (Quant c0 (fn_call op [Plain v0; Plain v1]) None), st))
  ∧ fn_call (operator "add") [Plain v0; Plain v1]
    = operator_call "add" [Plain v0; Plain v1].
Proof.
  intros Hname Hp.
  assert (name_in (fn_name op) ["add"; "sub"; "subtract"; "hypot"] = true)
    as Hin.
  { unfold additive_names in Hname.
    repeat (apply elem_of_cons in Hname as [->|Hname]; [reflexivity|]).
    by apply elem_of_nil in Hname. }
  assert (_dispatch op [Quant c0 v0 pf0; Quant c1 v1 pf1] st =
          if (dim_id c1 =? dim_id c0)%N
          then (Ok (Quant c0 (fn_call op [Plain v0; Plain v1]) None), st)
          else (Err TypeError, st)) as ->.
  { unfold _dispatch, Quantity._dispatch.
    erewrite bind_ok; [|reflexivity].
    unfold Quantity.classify. rewrite Hin.
    unfold bind, ret, lift_result, raise. cbn.
    destruct (dim_id c1 =? dim_id c0)%N; cbn; [|done].
    by rewrite wrap_dimensioned. }
  split_and!.
  - intros Hne. by apply N.eqb_neq in Hne as ->.
  - intros Heq. by apply N.eqb_eq in Heq as ->.
  - reflexivity.
Qed.
End dispatch.

Section dispatch_examples.
#[local] Existing Instance symbolic_host.

Lemma additive_dispatch_witness :
  fn_name (operator "add") ∈ additive_names
  ∧ __powers Length_class ≠ ∅
  ∧ (dim_id Length_class ≠ dim_id Length_class →
     _dispatch (operator "add")
       [Quant Length_class (SFloat "1") None;
        Quant Length_class (SFloat "2") None] SI.state_empty
     = (Err TypeError, SI.state_empty))
  ∧ (dim_id Length_class = dim_id Length_class →
     _dispatch (operator "add")
       [Quant Length_class (SFloat "1") None;
        Quant Length_class (SFloat "2") None] SI.state_empty
     = (Ok (Quant Length_class
              (fn_call (operator "add")
                 [Plain (SFloat "1"); Plain (SFloat "2")]) None),
        SI.state_empty))
  ∧ fn_call (operator "add") [Plain (SFloat "1"); Plain (SFloat "2")]
    = operator_call "add" [Plain (SFloat "1"); Plain (SFloat "2")].
Proof.
  assert (fn_name (operator "add") ∈ additive_names) as Hname
    by (apply (bool_decide_eq_true_1 (_ ∈ _)); vm_compute; reflexivity).
  assert (__powers Length_class ≠ ∅) as Hp.
  { intros Hp. apply (f_equal (λ m, m !! "L")) in Hp.
    vm_compute in Hp. discriminate. }
  split; [exact Hname|]. split; [exact Hp|].
  exact (additive_dispatch (operator "add") Length_class Length_class
           (SFloat "1") (SFloat "2") None None SI.state_empty Hname Hp).
Defined.
End dispatch_examples.

Section dispatch_comparison.
Context `{Host}.

Lemma any_other_type_true Dim (l : list (obj V)) :
  Quantity.any_other_type Dim l = true
  ↔ Exists (λ q, type_eqb (type_ q) Dim = false) l.
Proof.
  unfold Quantity.any_other_type. rewrite existsb_exists, Exists_exists.
  setoid_rewrite negb_true_iff. setoid_rewrite list_elem_of_In. done.
Qed.


(** On the invariant the class of the empty power map has no powers. *)
Lemma dimensionless_class r :
  registry_wf r →
  ∃ cls r', Dimension.from_powers ∅ r = (Ok cls, r')
            ∧ __powers cls = ∅ ∧ registry_wf r'.
Proof.
  intros Hr.
  destruct (from_powers_wf ∅ r Hr valid_powers_empty)
    as (cls & r' & E & Hr' & Hp & _).
  exists cls, r'. split_and!; [done| |done].
  rewrite Hp. apply drop_zero_id, nonzero_powers_empty.
Qed.

(** ** C5 *)

End dispatch_comparison.

Section comparison_examples.
#[local] Existing Instance symbolic_host.

End comparison_examples.

(** * Scalars in the algebra of dimensions *)

Lemma Fraction_bool_spec (q : Fraction) : Fraction_bool q = true ↔ q ≠ 0%Qc.
Proof.
  unfold Fraction_bool, numerator. rewrite negb_true_iff, Z.eqb_neq.
  split.
  - intros Hn ->. by apply Hn.
  - intros Hq Hn. apply Hq, Qc_is_canon. unfold Qeq. rewrite Hn. reflexivity.
Qed.



Section scalars.
Context `{Host}.

Lemma plain_number_type (w : obj V) :
  plain_number w = true →
  is_Quantity w = false
  ∧ (∀ s, w ≠ PStr s)
  ∧ as_Dimension (AClass (type_ w)) = None
  ∧ Quantity.unwrap w = w.
Proof. by destruct w. Qed.

(** The class of the empty power map is shared by the cache of a
    registry: two classes of one cache are the same class exactly when
    their powers are the same. *)
Lemma identity_iff_powers r n1 n2 c1 c2 :
  registry_wf r →
  __cache r !! n1 = Some c1 → __cache r !! n2 = Some c2 →
  dim_id c1 = dim_id c2 ↔ __powers c1 = __powers c2.
Proof.
  intros Hr H1 H2. split.
  - intros Hid. by destruct (registry_wf_id_inj _ _ _ _ _ Hr H1 H2 Hid) as [_ ->].
  - intros Hp. destruct Hr as [Hreg _].
    destruct (Hreg _ _ H1) as (_ & _ & Hn1 & _).
    destruct (Hreg _ _ H2) as (_ & _ & Hn2 & _).
    rewrite Hp, Hn2 in Hn1. subst n2. congruence.
Qed.

(** ** C10 *)

End scalars.

Section scalar_examples.
#[local] Existing Instance symbolic_host.

End scalar_examples.

(** * Display *)

Lemma app_last_eq (s1 s2 : string) (c d : ascii) :
  s1 +:+ String c "" = s2 +:+ String d "" → c = d.
Proof.
  revert s2. induction s1 as [|a s1 IH]; intros [|b s2];
    rewrite ?app_String, ?app_empty_l.
  - by intros [= ->].
  - intros [= _ Hs]. by destruct s2.
  - intros [= _ Hs]. by destruct s1.
  - intros [= _ Hs]. by apply (IH s2).
Qed.

Section display.
Context `{Host}.

(** ** C9 *)

(** C9, as the code has it.  For an instance of a class that the
    metaclass created, which has the name [[name]], [__format__] with
    an empty format returns [repr(self)]; [Quantity] defines [__str__]
    and no [__repr__], so this is the text that [object] gives, with
    the qualified name of the class and the address of the instance.
    The payload followed by the name of the dimension is what [__str__]
    returns, and [__format__] never returns that. *)
Theorem format_empty_spec (id : N) (name : string)
    (powers : gmap string Fraction) (value : V) (pf : option string)
    (addr : N) (st : state) :
  let cls := {| dim_id := id; __name__ := "[" +:+ name +:+ "]";
                __powers := powers |} in
  Quantity__format__ cls value pf addr "" st
  = (Ok ("<nutils.SI.Quantity.[" +:+ name +:+ "] object at 0x"
         +:+ hex addr +:+ ">"), st)
  ∧ Quantity.__str__ cls value = str value +:+ "[" +:+ name +:+ "]"
  ∧ (Quantity__format__ cls value pf addr "" st).1
    ≠ Ok (Quantity.__str__ cls value).
Proof.
  intros cls.
  assert (Quantity__format__ cls value pf addr "" st
          = (Ok (("<nutils.SI.Quantity.[" +:+ name +:+ "] object at 0x"
                  +:+ hex addr) +:+ ">"), st)) as E.
  { unfold Quantity__format__, __repr__, __module__, __qualname__, ret.
    cbn [__name__ cls]. by rewrite !app_assoc_str. }
  split_and!.
  - rewrite E. by rewrite !app_assoc_str.
  - reflexivity.
  - rewrite E. cbn [fst]. unfold Quantity.__str__. cbn [__name__ cls].
    intros [= Heq].
    replace (str value +:+ "[" +:+ name +:+ "]")
      with ((str value +:+ "[" +:+ name) +:+ "]") in Heq
      by (by rewrite !app_assoc_str).
    by apply app_last_eq in Heq.
Qed.
End display.

Section display_examples.
#[local] Existing Instance symbolic_host.

(** The length [1.0], at the address [0x7f00]: the text of [format]
    with an empty format, and the text of [str]. *)
Lemma format_empty_length :
  (Quantity__format__ Length_class (SFloat "1.0") None 32512 ""
     SI.state_empty).1
  = Ok "<nutils.SI.Quantity.[L] object at 0x7f00>"
  ∧ Quantity.__str__ Length_class (SFloat "1.0") = "1.0[L]".
Proof. split; vm_compute; reflexivity. Qed.
End display_examples.

(** * The group of dimensions *)

Lemma Fraction_bool_false (q : Fraction) : Fraction_bool q = false → q = 0%Qc.
Proof.
  intros Hq. destruct (decide (q = 0%Qc)) as [|Hne]; [done|].
  apply Fraction_bool_spec in Hne. congruence.
Qed.

Lemma lookup_drop_zero m k :
  Dimension.drop_zero m !! k
  = q ← m !! k; if Fraction_bool q then Some q else None.
Proof.
  unfold Dimension.drop_zero. rewrite map_lookup_filter.
  destruct (m !! k) as [q|]; [|done]. cbn.
  destruct (Fraction_bool q) eqn:Hq; cbn.
  - by rewrite option_guard_True.
  - rewrite option_guard_False; [done|]. cbn. congruence.
Qed.

Lemma power_at_drop_zero m k :
  power_at (Dimension.drop_zero m) k = power_at m k.
Proof.
  unfold power_at. rewrite lookup_drop_zero.
  destruct (m !! k) as [q|]; [|done]. cbn.
  destruct (Fraction_bool q) eqn:Hq; [done|].
  by rewrite (Fraction_bool_false q).
Qed.

Lemma power_at_pointwise op a b k :
  op 0%Qc 0%Qc = 0%Qc →
  power_at (Dimension.pointwise op a b) k = op (power_at a k) (power_at b k).
Proof.
  intros Hop. unfold power_at. rewrite lookup_pointwise.
  destruct (a !! k), (b !! k); cbn; rewrite ?Fraction_of_int_0, ?Hop; done.
Qed.

Lemma power_at_product a b k :
  power_at (product a b) k = (power_at a k + power_at b k)%Qc.
Proof. unfold product. by rewrite power_at_drop_zero, power_at_pointwise. Qed.

Lemma power_at_quotient a b k :
  power_at (quotient a b) k = (power_at a k - power_at b k)%Qc.
Proof. unfold quotient. by rewrite power_at_drop_zero, power_at_pointwise. Qed.

Lemma power_at_to_power a q k :
  power_at (to_power a q) k = (power_at a k * q)%Qc.
Proof.
  unfold to_power. rewrite power_at_drop_zero. unfold power_at.
  rewrite lookup_fmap.
  assert (∀ o : option Fraction,
            default 0%Qc ((λ power, power * q)%Qc <$> o)
            = (default 0%Qc o * q)%Qc) as Hdef
    by (intros [x|]; cbn; unfold Fraction in *; ring).
  apply Hdef.
Qed.

Lemma power_at_empty k : power_at ∅ k = 0%Qc.
Proof. unfold power_at. by rewrite lookup_empty. Qed.

(** Two maps without zero powers that give every base the same exponent
    are the same map. *)
Lemma power_at_ext a b :
  nonzero_powers a → nonzero_powers b →
  (∀ k, power_at a k = power_at b k) → a = b.
Proof.
  intros Ha Hb Heq. apply map_eq. intros k. specialize (Heq k).
  unfold power_at in Heq.
  destruct (a !! k) as [x|] eqn:Hx, (b !! k) as [y|] eqn:Hy; cbn in Heq.
  - by rewrite Heq.
  - apply Ha in Hx. apply Fraction_bool_spec in Hx. done.
  - apply Hb in Hy. apply Fraction_bool_spec in Hy. done.
  - done.
Qed.

Lemma product_nonzero a b : nonzero_powers (product a b).
Proof. apply drop_zero_nonzero. Qed.
Lemma quotient_nonzero a b : nonzero_powers (quotient a b).
Proof. apply drop_zero_nonzero. Qed.
Lemma to_power_nonzero a q : nonzero_powers (to_power a q).
Proof. apply drop_zero_nonzero. Qed.

Lemma product_comm a b : product a b = product b a.
Proof.
  apply power_at_ext; [apply product_nonzero..|]. intros k.
  rewrite !power_at_product. unfold Fraction in *. ring.
Qed.

Lemma product_assoc a b c :
  product (product a b) c = product a (product b c).
Proof.
  apply power_at_ext; [apply product_nonzero..|]. intros k.
  rewrite !power_at_product. unfold Fraction in *. ring.
Qed.

Lemma quotient_product a b :
  nonzero_powers a → quotient (product a b) b = a.
Proof.
  intros Ha. apply power_at_ext; [apply quotient_nonzero|done|]. intros k.
  rewrite power_at_quotient, power_at_product. unfold Fraction in *. ring.
Qed.

Lemma product_quotient a b :
  nonzero_powers a → product (quotient a b) b = a.
Proof.
  intros Ha. apply power_at_ext; [apply product_nonzero|done|]. intros k.
  rewrite power_at_product, power_at_quotient. unfold Fraction in *. ring.
Qed.


Lemma to_power_to_power a p q :
  to_power (to_power a p) q = to_power a (p * q)%Qc.
Proof.
  apply power_at_ext; [apply to_power_nonzero..|]. intros k.
  rewrite !power_at_to_power. unfold Fraction in *. ring.
Qed.

Lemma to_power_1 a : nonzero_powers a → to_power a 1%Qc = a.
Proof.
  intros Ha. apply power_at_ext; [apply to_power_nonzero|done|]. intros k.
  rewrite power_at_to_power. unfold Fraction in *. ring.
Qed.

Lemma to_power_0 a : to_power a 0%Qc = ∅.
Proof.
  apply power_at_ext; [apply to_power_nonzero|apply nonzero_powers_empty|].
  intros k. rewrite power_at_to_power, power_at_empty.
  unfold Fraction in *. ring.
Qed.

Lemma to_power_product a b q :
  to_power (product a b) q = product (to_power a q) (to_power b q).
Proof.
  apply power_at_ext; [apply to_power_nonzero|apply product_nonzero|].
  intros k. rewrite power_at_to_power, !power_at_product, !power_at_to_power.
  unfold Fraction in *. ring.
Qed.

(** ** Classes of equal powers *)

(** [from_powers] looks at its argument through the map without its
    zero powers. *)
Lemma from_powers_drop_zero arg arg' r :
  Dimension.drop_zero arg = Dimension.drop_zero arg' →
  Dimension.from_powers arg r = Dimension.from_powers arg' r.
Proof. intros Heq. unfold Dimension.from_powers. by rewrite Heq. Qed.

(** A class of the cache is what [from_powers] returns for its powers. *)
Lemma from_powers_of_cached r n cls arg :
  registry_wf r → __cache r !! n = Some cls →
  Dimension.drop_zero arg = __powers cls →
  Dimension.from_powers arg r = (Ok cls, r).
Proof.
  intros [Hreg _] Hc Hp. apply from_powers_cached.
  destruct (Hreg _ _ Hc) as (_ & _ & Hn & _). by rewrite Hp, Hn.
Qed.

Lemma cached_valid r n cls :
  registry_wf r → __cache r !! n = Some cls →
  valid_powers (__powers cls) ∧ nonzero_powers (__powers cls).
Proof. intros [Hreg _] Hc. by destruct (Hreg _ _ Hc) as (_ & _ & _ & ? & ?). Qed.

Lemma length_time_wf : registry_wf length_time.
Proof.
  apply (bool_decide_eq_true_1 (registry_wf length_time)).
  vm_compute. reflexivity.
Qed.

Section group.
Context `{Host}.

(** X5.  The product of classes is commutative and associative: the two
    orders of the operands give the same class, cached once. *)
Theorem times_commutes_associates (r : registry) (a b c : Dimension) :
  registry_wf r →
  valid_powers (__powers a) → valid_powers (__powers b) →
  valid_powers (__powers c) →
  SI.times a b r = SI.times b a r
  ∧ ∃ ab r1 abc r2 bc r3,
      SI.times a b r = (Ok ab, r1)
      ∧ SI.times ab c r1 = (Ok abc, r2)
      ∧ SI.times b c r2 = (Ok bc, r3)
      ∧ SI.times a bc r3 = (Ok abc, r3)
      ∧ __powers abc = product (product (__powers a) (__powers b))
                               (__powers c).
Proof.
  intros Hr Ha Hb Hc. unfold SI.times, Dimension.__mul__. cbn [as_Dimension].
  split.
  { apply from_powers_drop_zero. apply product_comm. }
  destruct (_binop_wf Qcplus _ _ r Hr Ha Hb)
    as (ab & r1 & E1 & Hr1 & Hab & _).
  assert (valid_powers (__powers ab)) as Hvab
    by (rewrite Hab; by apply product_valid).
  destruct (from_powers_wf
              (Dimension.pointwise Qcplus (__powers ab) (__powers c)) r1 Hr1)
    as (abc & r2 & E2 & Hr2 & Habc & Hc2 & _); [by apply pointwise_valid|].
  destruct (_binop_wf Qcplus _ _ r2 Hr2 Hb Hc)
    as (bc & r3 & E3 & Hr3 & Hbc & Hsub).
  exists ab, r1, abc, r2, bc, r3. split_and!; [done..| |].
  - apply from_powers_cached.
    fold (product (__powers a) (__powers bc)).
    rewrite Hbc. fold (product (__powers b) (__powers c)).
    rewrite <- product_assoc.
    fold (product (__powers ab) (__powers c)) in Hc2.
    rewrite Hab in Hc2. fold (product (__powers a) (__powers b)) in Hc2.
    by eapply lookup_weaken.
  - rewrite Habc, Hab. reflexivity.
Qed.

(** X6.  Division undoes multiplication, on the class itself: for a class
    [a] of the cache, [(a * b) / b] and [(a / b) * b] are [a]. *)
Theorem times_over_cancel (r : registry) (n : string) (a b : Dimension) :
  registry_wf r →
  __cache r !! n = Some a →
  valid_powers (__powers b) →
  (∃ ab r1, SI.times a b r = (Ok ab, r1) ∧ SI.over ab b r1 = (Ok a, r1))
  ∧ (∃ a_b r1, SI.over a b r = (Ok a_b, r1)
               ∧ SI.times a_b b r1 = (Ok a, r1)).
Proof.
  intros Hr Hca Hb. destruct (cached_valid _ _ _ Hr Hca) as [Ha Hna].
  unfold SI.times, SI.over, Dimension.__mul__, Dimension.__truediv__.
  cbn [as_Dimension]. split.
  - destruct (_binop_wf Qcplus _ _ r Hr Ha Hb)
      as (ab & r1 & E1 & Hr1 & Hab & Hsub).
    exists ab, r1. split; [done|].
    eapply from_powers_of_cached; [done|by eapply lookup_weaken|].
    fold (quotient (__powers ab) (__powers b)). rewrite Hab.
    fold (product (__powers a) (__powers b)). by apply quotient_product.
  - destruct (_binop_wf Qcminus _ _ r Hr Ha Hb)
      as (a_b & r1 & E1 & Hr1 & Hab & Hsub).
    exists a_b, r1. split; [done|].
    eapply from_powers_of_cached; [done|by eapply lookup_weaken|].
    fold (product (__powers a_b) (__powers b)). rewrite Hab.
    fold (quotient (__powers a) (__powers b)). by apply product_quotient.
Qed.


(** X8.  Powers compose: [(a ** p) ** q] is [a ** (p * q)], [a ** 1] is [a]
    for a class of the cache, and [a ** 0] is the class without
    powers. *)
Theorem pow_composes (r : registry) (n : string) (a : Dimension)
    (p q : Fraction) :
  registry_wf r →
  __cache r !! n = Some a →
  (∃ ap r1 apq r2,
     Dimension.__pow__ a (PFraction p) r = (Ok ap, r1)
     ∧ Dimension.__pow__ ap (PFraction q) r1 = (Ok apq, r2)
     ∧ Dimension.__pow__ a (PFraction (p * q)%Qc) r2 = (Ok apq, r2)
     ∧ ∀ base, power_at (__powers apq) base
               = (power_at (__powers a) base * (p * q))%Qc)
  ∧ Dimension.__pow__ a (PInt 1) r = (Ok a, r)
  ∧ (∃ one r1, Dimension.__pow__ a (PInt 0) r = (Ok one, r1)
               ∧ Dimension.from_powers ∅ r = (Ok one, r1)
               ∧ __powers one = ∅).
Proof.
  intros Hr Hca. destruct (cached_valid _ _ _ Hr Hca) as [Ha Hna].
  split_and!.
  - destruct (__pow___wf a p r Hr Ha) as (ap & r1 & E1 & Hr1 & Hap & _).
    assert (valid_powers (__powers ap)) as Hvap
      by (rewrite Hap; by apply to_power_valid).
    unfold Dimension.__pow__ in *. cbn [Dimension.exponent] in *.
    destruct (from_powers_wf ((λ power, power * q)%Qc <$> __powers ap) r1 Hr1)
      as (apq & r2 & E2 & Hr2 & Hapq & Hc2 & _); [by apply fmap_valid|].
    exists ap, r1, apq, r2. split_and!; [done..| |].
    + apply from_powers_cached.
      fold (to_power (__powers a) (p * q)%Qc).
      fold (to_power (__powers ap) q) in Hc2.
      by rewrite Hap, to_power_to_power in Hc2.
    + intros base. rewrite Hapq. fold (to_power (__powers ap) q).
      rewrite Hap, to_power_to_power. apply power_at_to_power.
  - unfold Dimension.__pow__. cbn [Dimension.exponent].
    eapply from_powers_of_cached; [done..|].
    fold (to_power (__powers a) (Fraction_of_int 1)).
    replace (Fraction_of_int 1) with 1%Qc by by apply Qc_is_canon.
    by apply to_power_1.
  - destruct (dimensionless_class r Hr) as (one & r1 & E & Hp & _).
    exists one, r1. split_and!; [|done..].
    unfold Dimension.__pow__. cbn [Dimension.exponent].
    rewrite <- E. apply from_powers_drop_zero.
    fold (to_power (__powers a) (Fraction_of_int 0)).
    rewrite Fraction_of_int_0, to_power_0.
    symmetry. apply drop_zero_id, nonzero_powers_empty.
Qed.
End group.

Section group_examples.
#[local] Existing Instance symbolic_host.

Lemma Length_class_valid : valid_powers (__powers Length_class).
Proof.
  apply (bool_decide_eq_true_1 (valid_powers _)). vm_compute. reflexivity.
Qed.

Lemma Time_class_valid : valid_powers (__powers Time_class).
Proof.
  apply (bool_decide_eq_true_1 (valid_powers _)). vm_compute. reflexivity.
Qed.

Lemma times_commutes_associates_witness :
  registry_wf length_time
  ∧ valid_powers (__powers Length_class)
  ∧ valid_powers (__powers Time_class)
  ∧ SI.times Length_class Time_class length_time
    = SI.times Time_class Length_class length_time
  ∧ ∃ ab r1 abc r2 bc r3,
      SI.times Length_class Time_class length_time = (Ok ab, r1)
      ∧ SI.times ab Length_class r1 = (Ok abc, r2)
      ∧ SI.times Time_class Length_class r2 = (Ok bc, r3)
      ∧ SI.times Length_class bc r3 = (Ok abc, r3)
      ∧ __powers abc
        = product (product (__powers Length_class) (__powers Time_class))
                  (__powers Length_class).
Proof.
  split; [exact length_time_wf|]. split; [exact Length_class_valid|].
  split; [exact Time_class_valid|].
  exact (times_commutes_associates length_time Length_class Time_class
           Length_class length_time_wf Length_class_valid Time_class_valid
           Length_class_valid).
Defined.

Lemma times_over_cancel_witness :
  registry_wf length_time
  ∧ __cache length_time !! "L" = Some Length_class
  ∧ valid_powers (__powers Time_class)
  ∧ (∃ ab r1, SI.times Length_class Time_class length_time = (Ok ab, r1)
              ∧ SI.over ab Time_class r1 = (Ok Length_class, r1))
  ∧ (∃ a_b r1, SI.over Length_class Time_class length_time = (Ok a_b, r1)
               ∧ SI.times a_b Time_class r1 = (Ok Length_class, r1)).
Proof.
  assert (__cache length_time !! "L" = Some Length_class) as Hc
    by (vm_compute; reflexivity).
  split; [exact length_time_wf|]. split; [exact Hc|].
  split; [exact Time_class_valid|].
  exact (times_over_cancel length_time "L" Length_class Time_class
           length_time_wf Hc Time_class_valid).
Defined.


Lemma pow_composes_witness :
  let p : Fraction := Fraction_of_int 2 in
  let q : Fraction := Fraction_of_int 3 in
  registry_wf length_time
  ∧ __cache length_time !! "L" = Some Length_class
  ∧ (∃ ap r1 apq r2,
       Dimension.__pow__ Length_class (PFraction p) length_time = (Ok ap, r1)
       ∧ Dimension.__pow__ ap (PFraction q) r1 = (Ok apq, r2)
       ∧ Dimension.__pow__ Length_class (PFraction (p * q)%Qc) r2
         = (Ok apq, r2)
       ∧ ∀ base, power_at (__powers apq) base
                 = (power_at (__powers Length_class) base * (p * q))%Qc)
  ∧ Dimension.__pow__ Length_class (PInt 1) length_time
    = (Ok Length_class, length_time)
  ∧ (∃ one r1,
       Dimension.__pow__ Length_class (PInt 0) length_time = (Ok one, r1)
       ∧ Dimension.from_powers ∅ length_time = (Ok one, r1)
       ∧ __powers one = ∅).
Proof.
  intros p q.
  assert (__cache length_time !! "L" = Some Length_class) as Hc
    by (vm_compute; reflexivity).
  split; [exact length_time_wf|]. split; [exact Hc|].
  exact (pow_composes length_time "L" Length_class p q length_time_wf Hc).
Defined.
End group_examples.

(** * The other branches of the dispatcher *)

Lemma name_in_not_elem name names : name ∉ names → name_in name names = false.
Proof.
  intros Hn. apply not_true_is_false. intros Hin. by apply Hn, name_in_elem.
Qed.

Section dispatch_more.
Context `{Host}.

(** [_dispatch] on operands none of which is a string. *)
Lemma dispatch_values (op : callable) (args : list (obj V)) (st : state) :
  Forall (λ a, ∀ s, a ≠ PStr s) args →
  _dispatch op args st =
  (let* r := Quantity.classify (fn_name op) args in
   match r with
   | None => ret NotImplemented
   | Some (TDimension Dim, args) =>
       ret (Dimension.__wrap__ Dim (fn_call op (map Quantity.unwrap args)))
   | Some (_, _) => raise AssertionError
   end) st.
Proof.
  intros Hv. unfold _dispatch, Quantity._dispatch.
  by erewrite bind_ok; [|by apply resolve_values].
Qed.

Lemma classify_elementwise name (args : list (obj V)) :
  name ∈ elementwise_names →
  Quantity.classify name args =
  let* a0 := lift_result (getitem args 0) in
  ret (Some (type_ a0, args)).
Proof.
  intros Hname. unfold elementwise_names in Hname.
  repeat (apply elem_of_cons in Hname as [->|Hname]; [reflexivity|]).
  by apply elem_of_nil in Hname.
Qed.

(** X19.  An operation on the elements of its first operand, such as a
    negation, a sum, a transposition or an indexing, returns a quantity
    of the class of that operand, with the payload that the operation
    gives on the payloads; the state is left as it was.  On a first
    operand that is a plain number the assertion of [_dispatch] fails,
    and without operands the index does. *)
Theorem elementwise_dispatch (op : callable) (D : Dimension) (v : V)
    (pf : option string) (w : obj V) (rest : list (obj V)) (st : state) :
  fn_name op ∈ elementwise_names →
  __powers D ≠ ∅ →
  plain_number w = true →
  Forall (λ a, ∀ s, a ≠ PStr s) rest →
  _dispatch op (Quant D v pf :: rest) st
  = (Ok (Quant D (fn_call op (Plain v :: map Quantity.unwrap rest)) None), st)
  ∧ _dispatch op (w :: rest) st = (Err AssertionError, st)
  ∧ _dispatch op [] st = (Err IndexError, st).
Proof.
  intros Hname Hp Hw Hrest. split_and!.
  - rewrite dispatch_values by (constructor; done).
    rewrite classify_elementwise by done.
    unfold bind, ret, lift_result. cbn. by rewrite wrap_dimensioned.
  - rewrite dispatch_values
      by (constructor; [by destruct w|done]).
    rewrite classify_elementwise by done.
    unfold bind, ret, lift_result, raise. cbn. by destruct w.
  - rewrite dispatch_values by constructor.
    by rewrite classify_elementwise by done.
Qed.

(** X25.  A name that no branch of [_dispatch] tests for: the result is
    [NotImplemented], and nothing is changed or raised. *)
Theorem unknown_dispatch (op : callable) (args : list (obj V)) (st : state) :
  fn_name op ∉ dispatch_names →
  Forall (λ a, ∀ s, a ≠ PStr s) args →
  _dispatch op args st = (Ok NotImplemented, st).
Proof.
  intros Hname Hargs. rewrite dispatch_values by done.
  unfold dispatch_names, additive_names, multiplicative_names,
    elementwise_names, comparison_names, stacking_names, shape_names in Hname.
  assert (∀ n, n ∈ [
    "add"; "sub"; "subtract"; "hypot"; "mul"; "multiply"; "matmul";
    "truediv"; "true_divide"; "divide";
    "neg"; "negative"; "pos"; "positive"; "abs"; "absolute"; "sum"; "mean";
    "broadcast_to"; "transpose"; "trace"; "take"; "ptp"; "getitem"; "amax";
    "amin"; "max"; "min"; "sqrt"; "setitem"; "pow"; "power";
    "lt"; "le"; "eq"; "ne"; "gt"; "ge"; "equal"; "not_equal"; "less";
    "less_equal"; "greater"; "greater_equal"; "isfinite"; "isnan";
    "stack"; "concatenate"; "shape"; "ndim"; "size"] →
    String.eqb (fn_name op) n = false) as Hno.
  { cbn in Hname. intros n Hn. apply String.eqb_neq. intros Heq.
    apply Hname. by rewrite Heq. }
  unfold Quantity.classify, name_in. cbn [existsb].
  rewrite !Hno by (repeat first [by left | right]).
  reflexivity.
Qed.

(** X20.  The square root halves every power, and on the square of a class
    of the cache it returns a quantity of that class itself. *)
Theorem sqrt_dispatch (op : callable) (n : string) (a : Dimension) (v : V)
    (pf : option string) (st : state) :
  fn_name op = "sqrt" →
  registry_wf (dimensions st) →
  __cache (dimensions st) !! n = Some a →
  (∃ D' st',
     _dispatch op [Quant a v pf] st
     = (Ok (Dimension.__wrap__ D' (fn_call op [Plain v])), st')
     ∧ (∀ base, power_at (__powers D') base
                = (power_at (__powers a) base * Q2Qc (1 # 2))%Qc)
     ∧ units st' = units st
     ∧ registry_wf (dimensions st'))
  ∧ (∃ a2 r1,
       Dimension.__pow__ a (PInt 2) (dimensions st) = (Ok a2, r1)
       ∧ _dispatch op [Quant a2 v pf] {| dimensions := r1; units := units st |}
         = (Ok (Dimension.__wrap__ a (fn_call op [Plain v])),
            {| dimensions := r1; units := units st |})).
Proof.
  intros Hname Hr Hca. destruct st as [r u]. cbn [dimensions units] in *.
  destruct (cached_valid _ _ _ Hr Hca) as [Ha Hna].
  assert (∀ (D : Dimension) r0,
            _dispatch op [Quant D v pf] (mkState r0 u) =
            let '(x, r1) := Dimension.__pow__ D (PFraction (Q2Qc (1 # 2))) r0 in
            match x with
            | Ok D' => (Ok (Dimension.__wrap__ D' (fn_call op [Plain v])),
                        mkState r1 u)
            | Err e => (Err e, mkState r1 u)
            end) as Hrun.
  { intros D r0. rewrite dispatch_values by (repeat constructor; done).
    rewrite Hname. unfold Quantity.classify. cbn -[Dimension.__pow__].
    unfold bind, ret, lift_result, in_registry. cbn -[Dimension.__pow__].
    by destruct (Dimension.__pow__ D _ r0) as [[D'|e] r1]. }
  split.
  - destruct (__pow___wf a (Q2Qc (1 # 2)) r Hr Ha)
      as (D' & r1 & E & Hr1 & Hp & _).
    exists D', (mkState r1 u). rewrite Hrun, E.
    split_and!; [done| |done..].
    intros base. rewrite Hp. apply power_at_to_power.
  - destruct (__pow___int_wf a 2 r Hr Ha) as (a2 & r1 & E & Hr1 & Hp & Hsub).
    exists a2, r1. split; [done|]. rewrite Hrun.
    assert (Dimension.__pow__ a2 (PFraction (Q2Qc (1 # 2))) r1 = (Ok a, r1))
      as ->; [|done].
    unfold Dimension.__pow__. cbn [Dimension.exponent].
    eapply from_powers_of_cached; [done|by eapply lookup_weaken|].
    fold (to_power (__powers a2) (Q2Qc (1 # 2))).
    rewrite Hp, to_power_to_power.
    replace (Fraction_of_int 2 * Q2Qc (1 # 2))%Qc with 1%Qc
      by by apply Qc_is_canon.
    by apply to_power_1.
Qed.


(** X22.  A quantity is never an exponent: a quantity to the power of a
    quantity raises [TypeError], and a plain number to the power of a
    quantity ends in [RecursionError], because the class of the number
    has no power operator of its own and the reflected method of the
    quantity comes back to the same expression. *)
Theorem quantity_exponent (D E : Dimension) (v w : V)
    (pf pf' : option string) (x : obj V) (st : state) :
  plain_number x = true →
  pow (Quant D v pf) (Quant E w pf') st = (Err TypeError, st)
  ∧ pow x (Quant E w pf') st = (Err RecursionError, st).
Proof.
  intros Hx. destruct st as [r u]. split.
  - unfold pow, Quantity.binop, Quantity._binary_r. cbn [is_Quantity].
    fold _dispatch. rewrite dispatch_values by (repeat constructor; done).
    reflexivity.
  - unfold pow, Quantity.binop, Quantity._binary_r_reflected.
    destruct (plain_number_type x Hx) as (-> & Hstr & _). cbn [is_Quantity].
    fold _dispatch. rewrite dispatch_values by (repeat constructor; done).
    by destruct x.
Qed.

(** X23.  An assignment to an item checks the class of the assigned value
    against the class of the target: [TypeError] when they differ, and
    otherwise the host assignment on the payloads. *)
Theorem setitem_dispatch (op : callable) (D : Dimension) (v : V)
    (pf : option string) (item value : obj V) (st : state) :
  fn_name op = "setitem" →
  __powers D ≠ ∅ →
  (∀ s, item ≠ PStr s) → (∀ s, value ≠ PStr s) →
  (type_eqb (type_ value) (TDimension D) = false →
   _dispatch op [Quant D v pf; item; value] st = (Err TypeError, st))
  ∧ (type_eqb (type_ value) (TDimension D) = true →
     _dispatch op [Quant D v pf; item; value] st
     = (Ok (Quant D (fn_call op [Plain v; Quantity.unwrap item;
                                 Quantity.unwrap value]) None), st))
  ∧ _dispatch op [Quant D v pf; item] st = (Err IndexError, st).
Proof.
  intros Hname Hp Hitem Hvalue.
  split_and!; [intros Hty..|];
    rewrite dispatch_values by (repeat constructor; done);
    rewrite Hname; unfold Quantity.classify; cbn;
    unfold bind, ret, lift_result, raise; cbn; [by rewrite Hty| |done].
  rewrite Hty. cbn. by rewrite wrap_dimensioned.
Qed.

Lemma unwrap_all (l : list (obj V)) (st : state) :
  Forall (λ q, is_Quantity q = true) l →
  mapM (λ q, match q with
             | Quant _ value _ => ret (Plain value)
             | _ => raise AttributeError
             end) l st = (Ok (map Quantity.unwrap l), st).
Proof.
  induction 1 as [|q l Hq _ IH]; [done|]. cbn [mapM map].
  destruct q; try done. erewrite bind_ok; [|reflexivity].
  by erewrite bind_ok; [|exact IH].
Qed.

Lemma classify_stacking name (args : list (obj V)) :
  name ∈ stacking_names →
  Quantity.classify name args =
  match args with
  | [PList stack_args] =>
      let* a0 := lift_result (getitem stack_args 0) in
      let Dim := type_ a0 in
      if Quantity.any_other_type Dim (drop 1 stack_args) then raise TypeError
      else
        let* values :=
          mapM (λ q, match q with
                     | Quant _ value _ => ret (Plain value)
                     | _ => raise AttributeError
                     end) stack_args in
        ret (Some (Dim, [PList values]))
  | [_] => raise TypeError
  | _ => raise ValueError
  end.
Proof.
  intros Hname. unfold stacking_names in Hname.
  repeat (apply elem_of_cons in Hname as [->|Hname]; [reflexivity|]).
  by apply elem_of_nil in Hname.
Qed.

(** X24.  Stacking or concatenating a sequence of quantities: [TypeError]
    when an element is not of the class of the first one, and otherwise
    a quantity of that class over the stacked payloads.  An empty
    sequence raises [IndexError]. *)
Theorem stack_dispatch (op : callable) (D : Dimension) (v : V)
    (pf : option string) (rest : list (obj V)) (st : state) :
  fn_name op ∈ stacking_names →
  __powers D ≠ ∅ →
  (Exists (λ q, type_eqb (type_ q) (TDimension D) = false) rest →
   _dispatch op [PList (Quant D v pf :: rest)] st = (Err TypeError, st))
  ∧ (Forall (λ q, type_eqb (type_ q) (TDimension D) = true) rest →
     _dispatch op [PList (Quant D v pf :: rest)] st
     = (Ok (Quant D (fn_call op [PList (Plain v :: map Quantity.unwrap rest)])
              None), st))
  ∧ _dispatch op [PList []] st = (Err IndexError, st).
Proof.
  intros Hname Hp.
  split_and!; [intros Hex|intros Hall|];
    rewrite dispatch_values by (repeat constructor; done);
    rewrite classify_stacking by done; [| |done].
  - apply any_other_type_true in Hex.
    unfold bind, lift_result. cbn -[Quantity.any_other_type].
    by rewrite drop_0, Hex.
  - assert (Quantity.any_other_type (TDimension D) rest = false) as Hno.
    { apply not_true_is_false. intros Hex%any_other_type_true.
      apply Exists_exists in Hex as (q & Hq & Hne).
      rewrite Forall_forall in Hall. specialize (Hall q Hq). congruence. }
    assert (Forall (λ q, is_Quantity q = true) (Quant D v pf :: rest)) as Hqs.
    { constructor; [done|]. eapply Forall_impl; [exact Hall|].
      intros q Hq. by destruct q. }
    unfold bind at 1. unfold lift_result.
    cbn -[mapM Quantity.any_other_type]. rewrite drop_0, Hno.
    erewrite bind_ok; [|by apply unwrap_all]. cbn.
    by rewrite wrap_dimensioned.
Qed.


(** X26.  An operand that is a string is parsed before anything else: the
    operation goes on with the quantity that [parse] returns, in the
    state that [parse] leaves, and an exception of [parse] is the
    exception of the operation. *)
Theorem string_operand (op : callable) (a : obj V) (s : string)
    (st : state) :
  (∀ s', a ≠ PStr s') →
  match parse s st with
  | (Ok q, st') =>
      _dispatch op [a; PStr s] st = _dispatch op [a; q] st'
      ∧ _dispatch op [PStr s; a] st = _dispatch op [q; a] st'
  | (Err e, st') =>
      _dispatch op [a; PStr s] st = (Err e, st')
      ∧ _dispatch op [PStr s; a] st = (Err e, st')
  end.
Proof.
  intros Ha. destruct (parse s st) as [[q|e] st'] eqn:E.
  - destruct (parse_returns_quantity _ _ _ _ E) as (cls & v & ->).
    assert (∀ st0, (match a with PStr s0 => parse s0 | _ => ret a end) st0
                   = (Ok a, st0)) as Hret
      by (intros; destruct a; try done; by exfalso; eapply Ha).
    split.
    + rewrite (dispatch_values op [a; Quant cls v (Some s)])
        by (repeat constructor; done).
      unfold _dispatch, Quantity._dispatch. cbn [mapM].
      erewrite bind_ok; [done|].
      erewrite bind_ok; [|apply Hret].
      erewrite bind_ok; [done|]. by erewrite bind_ok; [|exact E].
    + rewrite (dispatch_values op [Quant cls v (Some s); a])
        by (repeat constructor; done).
      unfold _dispatch, Quantity._dispatch. cbn [mapM].
      erewrite bind_ok; [done|].
      erewrite bind_ok; [|exact E].
      erewrite bind_ok; [done|]. by erewrite bind_ok; [|apply Hret].
  - assert (∀ st0, (match a with PStr s0 => parse s0 | _ => ret a end) st0
                   = (Ok a, st0)) as Hret
      by (intros; destruct a; try done; by exfalso; eapply Ha).
    split; unfold _dispatch, Quantity._dispatch; cbn [mapM].
    + erewrite bind_err; [done|].
      erewrite bind_ok; [|apply Hret]. erewrite bind_err; [done|].
      by erewrite bind_err; [|exact E].
    + erewrite bind_err; [done|]. by erewrite bind_err; [|exact E].
Qed.
End dispatch_more.

Section dispatch_more_examples.
#[local] Existing Instance symbolic_host.

Lemma Length_class_powers : __powers Length_class ≠ ∅.
Proof.
  intros Hp. apply (f_equal (λ m, m !! "L")) in Hp.
  vm_compute in Hp. discriminate.
Qed.

Lemma metre_second_wf : state_wf metre_second.
Proof.
  apply (bool_decide_eq_true_1 (state_wf metre_second)).
  vm_compute. reflexivity.
Qed.

Lemma elementwise_dispatch_witness :
  let q : obj V := Quant Length_class (SFloat "3") None in
  let w : obj V := Plain (SFloat "2") in
  fn_name (operator "neg") ∈ elementwise_names
  ∧ __powers Length_class ≠ ∅
  ∧ plain_number w = true
  ∧ Forall (λ a : obj V, ∀ s, a ≠ PStr s) []
  ∧ _dispatch (operator "neg") [q] metre_second
    = (Ok (Quant Length_class (operator_call "neg" [Plain (SFloat "3")])
             None), metre_second)
  ∧ _dispatch (operator "neg") [w] metre_second
    = (Err AssertionError, metre_second)
  ∧ _dispatch (operator "neg") [] metre_second
    = (Err IndexError, metre_second).
Proof.
  intros q w.
  assert (fn_name (operator "neg") ∈ elementwise_names) as Hname
    by (apply (bool_decide_eq_true_1 (_ ∈ _)); vm_compute; reflexivity).
  split; [exact Hname|]. split; [exact Length_class_powers|].
  split; [reflexivity|]. split; [constructor|].
  exact (elementwise_dispatch (operator "neg") Length_class (SFloat "3") None
           w [] metre_second Hname Length_class_powers eq_refl
           (Forall_nil_2 _)).
Defined.

Lemma unknown_dispatch_witness :
  let q : obj V := Quant Length_class (SFloat "3") None in
  (fn_name (operator "mod") ∉ dispatch_names)
  ∧ Forall (λ a : obj V, ∀ s, a ≠ PStr s) [q; q]
  ∧ _dispatch (operator "mod") [q; q] metre_second
    = (Ok NotImplemented, metre_second).
Proof.
  intros q.
  assert (fn_name (operator "mod") ∉ dispatch_names) as Hname
    by (apply (bool_decide_eq_true_1 (_ ∉ _)); vm_compute; reflexivity).
  assert (Forall (λ a : obj V, ∀ s, a ≠ PStr s) [q; q]) as Hq
    by (repeat constructor; discriminate).
  split; [exact Hname|]. split; [exact Hq|].
  exact (unknown_dispatch (operator "mod") [q; q] metre_second Hname Hq).
Defined.

Lemma sqrt_dispatch_witness :
  let st : state := metre_second in
  fn_name (operator "sqrt") = "sqrt"
  ∧ registry_wf (dimensions st)
  ∧ __cache (dimensions st) !! "L" = Some Length_class
  ∧ (∃ D' st',
       _dispatch (operator "sqrt") [Quant Length_class (SFloat "4") None] st
       = (Ok (Dimension.__wrap__ D'
                (fn_call (operator "sqrt") [Plain (SFloat "4")])), st')
       ∧ (∀ base, power_at (__powers D') base
                  = (power_at (__powers Length_class) base * Q2Qc (1 # 2))%Qc)
       ∧ units st' = units st
       ∧ registry_wf (dimensions st'))
  ∧ (∃ a2 r1,
       Dimension.__pow__ Length_class (PInt 2) (dimensions st) = (Ok a2, r1)
       ∧ _dispatch (operator "sqrt") [Quant a2 (SFloat "4") None]
           {| dimensions := r1; units := units st |}
         = (Ok (Dimension.__wrap__ Length_class
                  (fn_call (operator "sqrt") [Plain (SFloat "4")])),
            {| dimensions := r1; units := units st |})).
Proof.
  intros st.
  assert (__cache (dimensions st) !! "L" = Some Length_class) as Hc
    by (vm_compute; reflexivity).
  split; [reflexivity|]. split; [exact length_time_wf|]. split; [exact Hc|].
  exact (sqrt_dispatch (operator "sqrt") "L" Length_class (SFloat "4") None
           st eq_refl length_time_wf Hc).
Defined.


Lemma quantity_exponent_witness :
  let x : obj V := Plain (SFloat "2") in
  plain_number x = true
  ∧ pow (Quant Length_class (SFloat "4") None)
        (Quant Time_class (SFloat "3") None) metre_second
    = (Err TypeError, metre_second)
  ∧ pow x (Quant Time_class (SFloat "3") None) metre_second
    = (Err RecursionError, metre_second).
Proof.
  intros x. split; [reflexivity|].
  exact (quantity_exponent Length_class Time_class (SFloat "4") (SFloat "3")
           None None x metre_second eq_refl).
Defined.

Lemma setitem_dispatch_witness :
  let item : obj V := PInt 0 in
  let value : obj V := Quant Time_class (SFloat "3") None in
  let target : obj V := Quant Length_class (SFloat "4") None in
  fn_name (operator "setitem") = "setitem"
  ∧ __powers Length_class ≠ ∅
  ∧ (∀ s, item ≠ PStr s) ∧ (∀ s, value ≠ PStr s)
  ∧ type_eqb (type_ value) (TDimension Length_class) = false
  ∧ _dispatch (operator "setitem") [target; item; value] metre_second
    = (Err TypeError, metre_second).
Proof.
  intros item value target.
  assert (∀ s, item ≠ PStr s) as Hitem by discriminate.
  assert (∀ s, value ≠ PStr s) as Hvalue by discriminate.
  split; [reflexivity|]. split; [exact Length_class_powers|].
  split; [exact Hitem|]. split; [exact Hvalue|]. split; [reflexivity|].
  exact (proj1 (setitem_dispatch (operator "setitem") Length_class
                  (SFloat "4") None item value metre_second eq_refl
                  Length_class_powers Hitem Hvalue) eq_refl).
Defined.

Lemma stack_dispatch_witness :
  let rest : list (obj V) := [Quant Length_class (SFloat "5") None] in
  fn_name (operator "stack") ∈ stacking_names
  ∧ __powers Length_class ≠ ∅
  ∧ Forall (λ q, type_eqb (type_ q) (TDimension Length_class) = true) rest
  ∧ _dispatch (operator "stack")
      [PList (Quant Length_class (SFloat "4") None :: rest)] metre_second
    = (Ok (Quant Length_class
             (fn_call (operator "stack")
                [PList (Plain (SFloat "4") :: map Quantity.unwrap rest)])
             None), metre_second).
Proof.
  intros rest.
  assert (fn_name (operator "stack") ∈ stacking_names) as Hname
    by (apply (bool_decide_eq_true_1 (_ ∈ _)); vm_compute; reflexivity).
  assert (Forall (λ q, type_eqb (type_ q) (TDimension Length_class) = true)
            rest) as Hall by (repeat constructor).
  split; [exact Hname|]. split; [exact Length_class_powers|].
  split; [exact Hall|].
  exact (proj1 (proj2 (stack_dispatch (operator "stack") Length_class
                         (SFloat "4") None rest metre_second Hname
                         Length_class_powers)) Hall).
Defined.


Lemma string_operand_witness :
  let a : obj V := Quant Length_class (SFloat "6") None in
  let q : obj V := Quant Length_class
                     (SCall "mul"
                        [Plain (SFloat "2");
                         Plain (SCall "mul"
                                  [Plain (SFloat "1");
                                   Plain (SCall "pow"
                                            [Plain (SFloat "1.");
                                             PFraction 1%Qc])])])
                     (Some "2m") in
  (∀ s', a ≠ PStr s')
  ∧ (parse "2m" metre_second).1 = Ok q
  ∧ _dispatch (operator "add") [a; PStr "2m"] metre_second
    = _dispatch (operator "add") [a; q] (parse "2m" metre_second).2.
Proof.
  intros a q.
  assert (∀ s', a ≠ PStr s') as Ha by discriminate.
  assert ((parse "2m" metre_second).1 = Ok q) as Hrun
    by (vm_compute; reflexivity).
  split; [exact Ha|]. split; [exact Hrun|].
  pose proof (string_operand (operator "add") a "2m" metre_second Ha) as Hs.
  rewrite (run_fst _ _ _ Hrun) in Hs. exact (proj1 Hs).
Defined.
End dispatch_more_examples.

(** * [create] *)

Lemma rstrip_length chars s :
  (String.length (rstrip chars s) ≤ String.length s)%nat.
Proof.
  induction s as [|c s IH]; [done|]. cbn.
  destruct (rstrip chars s) as [|d r]; [destruct (mem_char c chars)|];
    cbn in *; lia.
Qed.

(** The pieces of a split are no longer than the string, and shorter
    when the separator occurs. *)
Lemma split_lengths sep s :
  Forall (λ p, (String.length p ≤ String.length s)%nat) (split sep s).
Proof.
  induction s as [|c s IH]; [constructor; [done|constructor]|]. cbn.
  destruct (Ascii.eqb c sep).
  - constructor; [cbn; lia|]. eapply Forall_impl; [exact IH|]. cbn. lia.
  - destruct (split sep s) as [|h t]; cbn;
      [constructor; [cbn; lia|constructor]|].
    inversion IH as [|?? Hh Ht]; subst.
    constructor; [cbn; lia|]. eapply Forall_impl; [exact Ht|]. cbn. lia.
Qed.

Lemma split_nonempty sep s : split sep s ≠ [].
Proof.
  destruct s as [|c s]; [done|]. cbn.
  destruct (Ascii.eqb c sep); [done|]. by destruct (split sep s).
Qed.

Lemma split_shorter sep s :
  mem_char sep s = true →
  Forall (λ p, (String.length p < String.length s)%nat) (split sep s).
Proof.
  induction s as [|c s IH]; [done|]. cbn.
  rewrite Ascii.eqb_sym. destruct (Ascii.eqb c sep) eqn:Hc.
  - intros _. constructor; [cbn; lia|].
    eapply Forall_impl; [apply split_lengths|]. cbn. lia.
  - intros Hm. specialize (IH Hm).
    destruct (split sep s) as [|h t] eqn:Es; cbn;
      [by apply split_nonempty in Es|].
    inversion IH as [|?? Hh Ht]; subst.
    constructor; [cbn; lia|]. eapply Forall_impl; [exact Ht|]. cbn. lia.
Qed.

Lemma split_no_sep sep s : mem_char sep s = false → split sep s = [s].
Proof.
  induction s as [|c s IH]; [done|]. cbn.
  rewrite Ascii.eqb_sym. destruct (Ascii.eqb c sep); [done|].
  intros Hm. by rewrite IH.
Qed.

Lemma any_chars_mem c1 c2 s :
  any_chars (String c1 (String c2 "")) s
  = mem_char c1 s || mem_char c2 s.
Proof.
  induction s as [|c s IH]; [done|]. cbn. rewrite IH.
  rewrite (Ascii.eqb_sym c1 c), (Ascii.eqb_sym c2 c).
  destruct (Ascii.eqb c c1), (Ascii.eqb c c2), (mem_char c1 s),
    (mem_char c2 s); done.
Qed.

(** The errors of [int] and of a factor. *)
Lemma int_go_error acc b s e : int_go acc b s = Err e → e = ValueError.
Proof.
  revert acc b. induction s as [|c s IH]; intros acc b; cbn.
  - destruct b; [done|congruence].
  - destruct (digit_value c); [apply IH|].
    destruct (Ascii.eqb c "_" && b); [apply IH|congruence].
Qed.

Lemma int_or_1_error s e : int_or_1 s = Err e → e = ValueError.
Proof. destruct s; [done|]. apply int_go_error. Qed.

Lemma split_factor_error factor e :
  split_factor factor = Err e → e = ValueError ∨ e = ZeroDivisionError.
Proof.
  unfold split_factor.
  destruct (partition "_" _) as [[numer sep] denom].
  destruct (int_or_1 numer) as [n|e1] eqn:En; cbn;
    [|intros [= <-]; left; by eapply int_or_1_error].
  destruct (int_or_1 denom) as [d|e2] eqn:Ed; cbn;
    [|intros [= <-]; left; by eapply int_or_1_error].
  unfold Fraction_new. destruct d; cbn; intros [= <-]; by right.
Qed.

Lemma split_factor_base factor base power :
  split_factor factor = Ok (base, power) →
  base = rstrip "0123456789_" factor.
Proof.
  unfold split_factor.
  destruct (partition "_" _) as [[numer sep] denom].
  destruct (int_or_1 numer); [|done]. cbn.
  destruct (int_or_1 denom); [|done]. cbn.
  destruct (Fraction_new _ _); [|done]. cbn. by intros [= <- _].
Qed.

(** The first value of the generator comes from a nonempty factor of
    one of the parts. *)
Lemma next_split_part isnumer factors base power b :
  next (split_part isnumer factors) = Ok (base, power, b) →
  ∃ factor, factor ∈ factors ∧ factor ≠ ""
            ∧ split_factor factor = Ok (base, power).
Proof.
  revert isnumer. induction factors as [|f factors IH]; intros isnumer; [done|].
  cbn [split_part]. destruct f as [|c f].
  - intros Hn. destruct (IH _ Hn) as (factor & ? & ? & ?).
    exists factor. split_and!; [by right|done..].
  - destruct (split_factor (String c f)) as [[base' power']|e] eqn:Ef; [|done].
    destruct (split_part false factors) as [l e]. cbn. intros [= <- <- <-].
    exists (String c f). split_and!; [by left|done..].
Qed.

Lemma next_split_part_error isnumer factors e :
  next (split_part isnumer factors) = Err e →
  e = ValueError ∨ e = ZeroDivisionError
  ∨ (e = StopIteration ∧ (split_part isnumer factors) = ([], None)).
Proof.
  revert isnumer. induction factors as [|f factors IH]; intros isnumer.
  - cbn. intros [= <-]. by right; right.
  - cbn [split_part]. destruct f as [|c f]; [apply IH|].
    destruct (split_factor (String c f)) as [[base' power']|e'] eqn:Ef.
    + by destruct (split_part false factors) as [l e0].
    + cbn. intros [= <-]. apply split_factor_error in Ef. tauto.
Qed.

Lemma next_split_parts parts base power b :
  next (split_parts parts) = Ok (base, power, b) →
  ∃ part factor, part ∈ parts ∧ factor ∈ split "/" part ∧ factor ≠ ""
                 ∧ split_factor factor = Ok (base, power).
Proof.
  induction parts as [|p parts IH]; [done|]. cbn [split_parts].
  destruct (split_part true (split "/" p)) as [l [e|]] eqn:Ep.
  - intros Hn. destruct (next_split_part true (split "/" p) base power b)
      as (factor & ? & ? & ?); [by rewrite Ep|].
    exists p, factor. split_and!; [by left|done..].
  - destruct l as [|x l].
    + destruct (split_parts parts) as [l' e'] eqn:Eps. cbn [app].
      intros Hn. destruct (IH Hn) as (part & factor & ? & ? & ? & ?).
      exists part, factor. split_and!; [by right|done..].
    + destruct (split_parts parts) as [l' e']. cbn. intros [= ->].
      destruct (next_split_part true (split "/" p) base power b)
        as (factor & ? & ? & ?); [by rewrite Ep|].
      exists p, factor. split_and!; [by left|done..].
Qed.

Lemma next_split_parts_error parts e :
  next (split_parts parts) = Err e →
  e = ValueError ∨ e = ZeroDivisionError ∨ e = StopIteration.
Proof.
  induction parts as [|p parts IH]; [cbn; intros [= <-]; tauto|].
  cbn [split_parts].
  destruct (split_part true (split "/" p)) as [l [e'|]] eqn:Ep.
  - intros Hn.
    destruct (next_split_part_error true (split "/" p) e) as [?|[?|[? ?]]];
      [by rewrite Ep|tauto..].
  - destruct l as [|x l].
    + destruct (split_parts parts) as [l' e']. cbn [app]. apply IH.
    + by destruct (split_parts parts) as [l' e'].
Qed.

(** [_split_factors] on a valid symbol yields the symbol to the power
    one, as a numerator. *)
Lemma split_factor_symbol b :
  valid_symbol b = true → split_factor b = Ok (b, Fraction_of_int 1).
Proof.
  intros (Hne & Hsep & Hstrip)%valid_symbol_spec. unfold split_factor.
  rewrite Hstrip.
  assert (drop_str (String.length b) b = "") as ->.
  { clear. induction b; [done|]. cbn. done. }
  reflexivity.
Qed.

Lemma split_factors_symbol b :
  valid_symbol b = true →
  _split_factors b = ([(b, Fraction_of_int 1, true)], None).
Proof.
  intros Hv. pose proof Hv as (Hne & Hsep & Hstrip)%valid_symbol_spec.
  rewrite any_chars_mem in Hsep. apply orb_false_iff in Hsep as [Hstar Hslash].
  unfold _split_factors. rewrite split_no_sep by done. cbn [split_parts].
  rewrite split_no_sep by done. cbn [split_part].
  destruct b as [|c b]; [done|]. by rewrite split_factor_symbol.
Qed.

(** A string that [_split_factors] gives back as its first base is a
    valid symbol. *)
Lemma first_base_valid arg power b :
  next (_split_factors arg) = Ok (arg, power, b) → valid_symbol arg = true.
Proof.
  intros Hn. unfold _split_factors in Hn.
  destruct (next_split_parts _ _ _ _ Hn)
    as (part & factor & Hpart & Hfactor & Hne & Hf).
  apply split_factor_base in Hf.
  pose proof (rstrip_length "0123456789_" factor) as Hlen.
  rewrite <- Hf in Hlen.
  assert (mem_char "*" arg = false) as Hstar.
  { apply not_true_is_false. intros Hm.
    pose proof (split_shorter _ _ Hm) as Hs. rewrite Forall_forall in Hs.
    specialize (Hs _ Hpart).
    pose proof (split_lengths "/" part) as Hl. rewrite Forall_forall in Hl.
    specialize (Hl _ Hfactor). lia. }
  rewrite split_no_sep in Hpart by done.
  apply list_elem_of_singleton in Hpart as ->.
  assert (mem_char "/" arg = false) as Hslash.
  { apply not_true_is_false. intros Hm.
    pose proof (split_shorter _ _ Hm) as Hs. rewrite Forall_forall in Hs.
    specialize (Hs _ Hfactor). lia. }
  rewrite split_no_sep in Hfactor by done.
  apply list_elem_of_singleton in Hfactor as ->.
  apply valid_symbol_spec. split_and!; [done| |done].
  rewrite any_chars_mem. by rewrite Hstar, Hslash.
Qed.

Lemma canonical_name_symbol b :
  valid_symbol b = true →
  Dimension.canonical_name {[ b := Fraction_of_int 1 ]} = b.
Proof.
  intros Hv. unfold Dimension.canonical_name.
  assert (Dimension.sorted_items {[ b := Fraction_of_int 1 ]}
          = [(b, Fraction_of_int 1)]) as ->.
  { pose proof (sorted_items_perm {[ b := Fraction_of_int 1 ]}) as Hp.
    rewrite map_to_list_singleton in Hp. by apply Permutation_singleton_r. }
  rewrite (lstrip_join_tokens b (Fraction_of_int 1) []) by done. cbn.
  by rewrite !app_empty_r.
Qed.

Lemma drop_zero_symbol b :
  Dimension.drop_zero {[ b := Fraction_of_int 1 ]}
  = {[ b := Fraction_of_int 1 ]}.
Proof.
  apply drop_zero_id. intros k q Hq.
  apply lookup_singleton_Some in Hq as [_ <-]. reflexivity.
Qed.

(** X1.  [create] on a valid symbol: a new class with the symbol to the
    power one, stored under the symbol, when the cache has no entry of
    that name; [ValueError] when it has one, as after a first call. *)
Theorem create_symbol (arg : string) (r : registry) :
  valid_symbol arg = true →
  (__cache r !! arg = None →
   let cls := {| dim_id := next_id r; __name__ := "[" +:+ arg +:+ "]";
                 __powers := {[ arg := Fraction_of_int 1 ]} |} in
   let r' := {| __cache := <[arg := cls]> (__cache r);
                next_id := N.succ (next_id r) |} in
   Dimension.create arg r = (Ok cls, r')
   ∧ Dimension.create arg r' = (Err ValueError, r')
   ∧ (registry_wf r → registry_wf r'))
  ∧ (is_Some (__cache r !! arg) →
     Dimension.create arg r = (Err ValueError, r)).
Proof.
  intros Hv.
  assert (∀ r0, Dimension.create arg r0 =
                match __cache r0 !! arg with
                | Some _ => (Err ValueError, r0)
                | None => Dimension.from_powers {[ arg := Fraction_of_int 1 ]} r0
                end) as Hrun.
  { intros r0. unfold Dimension.create.
    rewrite split_factors_symbol by done. cbn [next].
    rewrite String.eqb_refl. cbn [negb]. unfold bind, get.
    by destruct (__cache r0 !! arg). }
  split.
  - intros Hc cls r'.
    assert (Dimension.create arg r = (Ok cls, r')) as E.
    { rewrite Hrun, Hc, from_powers_fresh;
        rewrite drop_zero_symbol, canonical_name_symbol; done. }
    split_and!; [done| |].
    + rewrite Hrun. unfold r'. cbn [__cache]. by rewrite lookup_insert_eq.
    + intros Hr.
      assert (valid_powers {[ arg := Fraction_of_int 1 ]}) as Hvp
        by (by apply map_Forall_singleton).
      destruct (from_powers_wf _ r Hr Hvp) as (c & r1 & E1 & Hr1 & _).
      rewrite Hrun, Hc in E. congruence.
  - intros [c Hc]. by rewrite Hrun, Hc.
Qed.

(** X2.  [create] on any other string raises and leaves the registry as it
    was: [ValueError] for a string that is not its own first base or
    has a malformed exponent, [ZeroDivisionError] for an exponent with
    the denominator zero, and [StopIteration] for a string without a
    factor, such as the empty one. *)
Theorem create_rejects (arg : string) (r : registry) :
  valid_symbol arg = false →
  (∃ e, Dimension.create arg r = (Err e, r)
        ∧ e ∈ [ValueError; ZeroDivisionError; StopIteration])
  ∧ Dimension.create "" r = (Err StopIteration, r).
Proof.
  intros Hv. split; [|reflexivity]. unfold Dimension.create.
  destruct (next (_split_factors arg)) as [[[base power] b]|e] eqn:En.
  - destruct (String.eqb_spec base arg) as [->|Hne].
    + apply first_base_valid in En. congruence.
    + exists ValueError. split; [done|by left].
  - exists e. split; [done|].
    destruct (next_split_parts_error _ _ En) as [-> | [-> | ->]];
      repeat first [by left | right].
Qed.

Lemma create_symbol_witness :
  valid_symbol "L" = true
  ∧ __cache registry_empty !! "L" = None
  ∧ Dimension.create "L" registry_empty
    = (Ok Length_class,
       {| __cache := {[ "L" := Length_class ]}; next_id := 1 |})
  ∧ Dimension.create "L"
      {| __cache := {[ "L" := Length_class ]}; next_id := 1 |}
    = (Err ValueError,
       {| __cache := {[ "L" := Length_class ]}; next_id := 1 |}).
Proof.
  split; [reflexivity|]. split; [reflexivity|].
  destruct (proj1 (create_symbol "L" registry_empty eq_refl) eq_refl)
    as (Hfirst & Hsecond & _).
  split; [exact Hfirst|exact Hsecond].
Defined.

Lemma create_rejects_witness :
  valid_symbol "L2" = false
  ∧ ∃ e, Dimension.create "L2" registry_empty = (Err e, registry_empty)
         ∧ e ∈ [ValueError; ZeroDivisionError; StopIteration].
Proof.
  split; [reflexivity|].
  exact (proj1 (create_rejects "L2" registry_empty eq_refl)).
Defined.

(** * Names of classes, read back *)

(** ** [int] reads what [str] writes *)

Lemma digit_value_pretty x :
  (x < 10)%N → digit_value (pretty_N_char x) = Some (Z.of_N x).
Proof.
  intros Hx. destruct x as [|p]; [reflexivity|].
  do 4 (try destruct p as [p|p|]); try reflexivity; lia.
Qed.

Lemma int_go_pretty x : ∀ s acc b,
  (0 < x)%N →
  ∃ k, 0 ≤ k
       ∧ int_go acc b (pretty_N_go x s)
         = int_go (acc * 10 ^ k + Z.of_N x) true s.
Proof.
  induction (N.lt_wf_0 x) as [x _ IH]; intros s acc b Hx.
  rewrite pretty_N_go_step by done.
  assert (x = 10 * (x `div` 10) + x `mod` 10)%N as Hdiv
    by (apply N.div_mod; lia).
  assert (x `mod` 10 < 10)%N as Hmod by (apply N.mod_lt; lia).
  destruct (decide (x `div` 10 = 0)%N) as [Hq|Hq].
  - rewrite Hq, pretty_N_go_0. exists 1. split; [lia|]. cbn [int_go].
    rewrite digit_value_pretty by done. f_equal. lia.
  - destruct (IH (x `div` 10)%N) with
      (s := String (pretty_N_char (x `mod` 10)) s) (acc := acc) (b := b)
      as (k & Hk0 & Hk); [apply N.div_lt; lia|lia|].
    exists (k + 1). split; [lia|]. rewrite Hk. cbn [int_go].
    rewrite digit_value_pretty by done. f_equal.
    rewrite Z.pow_add_r by lia. lia.
Qed.

Lemma int_str_int n : 0 < n → int (str_int n) = Ok n.
Proof.
  intros Hn. unfold int, str_int, pretty, pretty_Z.
  destruct n as [|p|p]; [lia| |lia].
  unfold pretty, pretty_positive, pretty, pretty_N.
  rewrite decide_False by done.
  destruct (int_go_pretty (N.pos p) "" 0 false) as (k & _ & ->); [lia|].
  cbn. f_equal.
Qed.


(** ** A factor of a name, read back *)

Lemma drop_str_app (a b : string) : drop_str (String.length a) (a +:+ b) = b.
Proof. induction a as [|c a IH]; [by destruct b|]. by rewrite app_String. Qed.

Lemma partition_no_sep sep s :
  mem_char sep s = false → partition sep s = (s, "", "").
Proof.
  induction s as [|c s IH]; [done|]. cbn. rewrite Ascii.eqb_sym.
  destruct (Ascii.eqb c sep); [done|]. intros Hm. by rewrite IH.
Qed.

Lemma partition_app sep a r :
  mem_char sep a = false →
  partition sep (a +:+ String sep r) = (a, String sep "", r).
Proof.
  induction a as [|c a IH].
  - intros _. rewrite app_empty_l. cbn. by rewrite Ascii.eqb_refl.
  - rewrite app_String. cbn [partition mem_char]. rewrite Ascii.eqb_sym.
    destruct (Ascii.eqb c sep); [done|]. intros Hm. by rewrite IH.
Qed.

Lemma any_chars_single c s : any_chars (String c "") s = mem_char c s.
Proof.
  induction s as [|d s IH]; [done|]. cbn. rewrite IH.
  rewrite (Ascii.eqb_sym c d). by destruct (Ascii.eqb d c).
Qed.

Lemma int_or_1_str_int n : 0 < n → int_or_1 (str_int n) = Ok n.
Proof.
  intros Hn. unfold int_or_1.
  destruct (str_int n) eqn:Es; [by apply str_int_nonempty in Es; [|lia]|].
  rewrite <- Es. by apply int_str_int.
Qed.

(** The magnitude of a fraction, from its numerator and denominator. *)
Lemma magnitude_canon (q : Fraction) :
  Q2Qc (Z.abs (numerator q) # Qden (this q))
  = if Fraction_pos q then q else (- q)%Qc.
Proof.
  unfold Fraction_pos, numerator. destruct q as [[n d] Hq]. cbn [this Qnum Qden].
  destruct (Z.ltb_spec 0 n).
  - rewrite Z.abs_eq by lia. apply Qc_is_canon. cbn. apply Qred_correct.
  - rewrite Z.abs_neq by lia. reflexivity.
Qed.

Lemma numerator_nonzero (q : Fraction) :
  Fraction_bool q = true → 0 < Z.abs (numerator q).
Proof.
  unfold Fraction_bool. intros Hq%negb_true_iff%Z.eqb_neq. lia.
Qed.

Lemma split_factor_body b q :
  named_item (b, q) →
  split_factor (b +:+ num_text q +:+ den_text q) = Ok (factor_of (b, q)).1.
Proof.
  intros [Hv Hq]. cbn [fst snd] in *.
  pose proof Hv as (Hne & Hsep & Hstrip)%valid_symbol_spec.
  unfold split_factor.
  rewrite (rstrip_app _ b (num_text q +:+ den_text q))
    by (done || apply suffix_chars).
  rewrite drop_str_app.
  assert (mem_char "_" (num_text q) = false) as Hnum.
  { rewrite <- any_chars_single. apply digits_no_underscore, num_text_digits. }
  assert (int_or_1 (num_text q) = Ok (Z.abs (numerator q))) as Hn.
  { unfold num_text. destruct (Z.eqb_spec (Z.abs (numerator q)) 1) as [->|?];
      [done|]. by apply int_or_1_str_int, numerator_nonzero. }
  assert (∀ sep denom : string,
            int_or_1 denom = Ok (denominator q) →
            (let '(numer, sep, denom) := (num_text q, sep, denom) in
             result_bind (int_or_1 numer) (λ n,
             result_bind (int_or_1 denom) (λ d,
             result_bind (Fraction_new n d) (λ power, Ok (b, power)))))
            = Ok (factor_of (b, q)).1) as Hgo.
  { intros sep denom Hd. rewrite Hn, Hd. cbn.
    unfold factor_of. cbn. by rewrite magnitude_canon. }
  unfold den_text.
  destruct (Z.eqb_spec (Z.abs (denominator q)) 1) as [Hd|Hd].
  - rewrite app_empty_r, partition_no_sep by done.
    apply (Hgo "" ""). unfold denominator in *.
    rewrite Z.abs_eq in Hd by lia. by rewrite Hd.
  - change ("_" +:+ str_int (Z.abs (denominator q)))
      with (String "_" (str_int (Z.abs (denominator q)))).
    rewrite partition_app by done.
    apply (Hgo "_"). unfold denominator in *.
    rewrite Z.abs_eq by lia. by apply int_or_1_str_int.
Qed.

(** ** The factors of a name *)

Lemma split_app_sep sep a r :
  mem_char sep a = false → split sep (a +:+ String sep r) = a :: split sep r.
Proof.
  induction a as [|c a IH].
  - intros _. rewrite app_empty_l. cbn. by rewrite Ascii.eqb_refl.
  - rewrite app_String. cbn [split mem_char]. rewrite Ascii.eqb_sym.
    destruct (Ascii.eqb c sep); [done|]. intros Hm. by rewrite IH.
Qed.

Lemma token_body_no_sep item :
  named_item item →
  mem_char "*" (token_body item) = false
  ∧ mem_char "/" (token_body item) = false
  ∧ token_body item ≠ "".
Proof.
  destruct item as [b q]. intros [Hv Hq]. cbn [fst snd] in *.
  pose proof (named_item_body b q Hv) as Hb.
  rewrite any_chars_mem in Hb. apply orb_false_iff in Hb as [? ?].
  split_and!; [done..|].
  apply valid_symbol_spec in Hv as (Hne & _). unfold token_body. cbn.
  by destruct b.
Qed.

Lemma name_token_body item :
  name_token item = String (sign_char item.2) (token_body item).
Proof. destruct item as [b q]. apply name_token_shape. Qed.

Lemma sign_char_pos q : Fraction_pos q = true → sign_char q = "*"%char.
Proof. unfold sign_char. by intros ->. Qed.

Lemma sign_char_neg q : Fraction_pos q = false → sign_char q = "/"%char.
Proof. unfold sign_char. by intros ->. Qed.

(** The tokens of entries with negative powers hold no [*]. *)
Lemma negatives_no_star (N : list (string * Fraction)) :
  Forall named_item N → Forall (λ it, Fraction_pos it.2 = false) N →
  mem_char "*" (join (map name_token N)) = false.
Proof.
  induction 1 as [|it N Hit _ IH]; [done|]. intros Hneg.
  apply Forall_cons in Hneg as [Hs Hneg]. cbn [map]. rewrite join_cons.
  rewrite name_token_body, sign_char_neg, app_String by done.
  cbn [mem_char]. change (Ascii.eqb "*" "/") with false. cbn match.
  destruct (token_body_no_sep it Hit) as (Hstar & _).
  rewrite <- any_chars_single, any_chars_app, !any_chars_single.
  by rewrite Hstar, IH.
Qed.

Lemma split_negatives b0 (N : list (string * Fraction)) :
  mem_char "/" b0 = false →
  Forall named_item N → Forall (λ it, Fraction_pos it.2 = false) N →
  split "/" (b0 +:+ join (map name_token N)) = b0 :: map token_body N.
Proof.
  intros Hb0 HN. revert b0 Hb0.
  induction HN as [|it N Hit _ IH]; intros b0 Hb0 Hneg.
  - cbn. rewrite app_empty_r. by apply split_no_sep.
  - apply Forall_cons in Hneg as [Hs Hneg]. cbn [map]. rewrite join_cons.
    rewrite name_token_body, sign_char_neg, app_String by done.
    rewrite split_app_sep by done. f_equal.
    apply IH; [|done]. by destruct (token_body_no_sep it Hit) as (_ & ? & _).
Qed.

Lemma split_part_bodies isnumer (N : list (string * Fraction)) :
  Forall named_item N → Forall (λ it, Fraction_pos it.2 = false) N →
  ∀ it, named_item it → Fraction_pos it.2 = isnumer →
  split_part isnumer (token_body it :: map token_body N)
  = (factor_of it :: map factor_of N, None)
  ∧ split_part false (map token_body N) = (map factor_of N, None).
Proof.
  intros HN Hneg.
  assert (∀ it b, named_item it → Fraction_pos it.2 = b → ∀ rest l,
            split_part false rest = (l, None) →
            split_part b (token_body it :: rest)
            = (factor_of it :: l, None)) as Hstep.
  { intros [b q] isn Hit Hs rest l Hrest. cbn [split_part].
    destruct (token_body_no_sep _ Hit) as (_ & _ & Hne).
    destruct (token_body (b, q)) as [|c body] eqn:Eb; [done|].
    rewrite <- Eb. unfold token_body. cbn [fst snd].
    rewrite split_factor_body by done. cbn [fst]. rewrite Hrest.
    unfold factor_of. cbn [fst snd] in *. by rewrite Hs. }
  assert (split_part false (map token_body N) = (map factor_of N, None))
    as Hrest.
  { induction HN as [|it N Hit HN IH]; [done|].
    apply Forall_cons in Hneg as [Hs Hneg]. cbn [map].
    apply Hstep; [done..|]. by apply IH. }
  intros it Hit Hs. split; [|done]. by apply Hstep.
Qed.

(** The generator on the text of a product of positive powers followed
    by negative ones. *)
Lemma split_parts_positives (P N : list (string * Fraction)) :
  Forall named_item P → Forall (λ it, Fraction_pos it.2 = true) P →
  Forall named_item N → Forall (λ it, Fraction_pos it.2 = false) N →
  ∀ p, named_item p → Fraction_pos p.2 = true →
  split_parts (split "*" (token_body p +:+ join (map name_token (P ++ N))))
  = (map factor_of (p :: P ++ N), None).
Proof.
  intros HP Hpos HN Hneg. induction HP as [|p' P Hp' HP IH]; intros p Hp Hs.
  - cbn [app].
    destruct (token_body_no_sep p Hp) as (Hstar & Hslash & _).
    rewrite split_no_sep.
    2:{ rewrite <- any_chars_single, any_chars_app, !any_chars_single.
        by rewrite Hstar, negatives_no_star. }
    cbn [split_parts]. rewrite split_negatives by done.
    destruct (split_part_bodies true N HN Hneg p Hp Hs) as [-> _].
    cbn [map]. by rewrite app_nil_r.
  - apply Forall_cons in Hpos as [Hs' Hpos]. cbn [app map].
    rewrite join_cons, name_token_body, sign_char_pos, app_String by done.
    destruct (token_body_no_sep p Hp) as (Hstar & Hslash & _).
    rewrite split_app_sep by done. cbn [split_parts].
    rewrite (split_no_sep "/") by done.
    destruct (split_part_bodies true [] (Forall_nil_2 _) (Forall_nil_2 _)
                p Hp Hs) as [Hone _].
    cbn [map] in Hone. rewrite Hone.
    rewrite (IH Hpos p' Hp' Hs'). reflexivity.
Qed.

(** A descending list of entries has its positive powers first. *)
Lemma sorted_signs (l : list (string * Fraction)) :
  StronglySorted key_ge l →
  ∃ P N : list (string * Fraction),
    l = (P ++ N)%list
    ∧ Forall (λ it, Fraction_pos it.2 = true) P
         ∧ Forall (λ it, Fraction_pos it.2 = false) N.
Proof.
  induction 1 as [|x l Hl IH Hx].
  - exists [], []. by repeat constructor.
  - destruct (Fraction_pos x.2) eqn:Hs.
    + destruct IH as (P & N & -> & HP & HN).
      exists (x :: P), N. split_and!; [done| |done]. by constructor.
    + exists [], (x :: l). split_and!; [done|constructor|].
      constructor; [done|]. eapply Forall_impl; [exact Hx|].
      intros y Hy. apply not_true_is_false. intros Hpos.
      apply Fraction_pos_spec in Hpos.
      assert (¬ (0 < x.2)%Qc) as Hnx
        by (intros Hp%Fraction_pos_spec; congruence).
      apply Hnx. unfold key_ge, key_le in Hy.
      destruct Hy as [Hlt|[Heq _]]; [by etrans|by rewrite <- Heq].
Qed.

Lemma split_factors_tokens (l : list (string * Fraction)) :
  Forall named_item l → StronglySorted key_ge l →
  _split_factors (lstrip "*" (join (map name_token l)))
  = (map factor_of l, None).
Proof.
  intros Hl Hsorted.
  destruct (sorted_signs l Hsorted) as (P & N & -> & HP & HN).
  apply Forall_app in Hl as [HlP HlN]. unfold _split_factors.
  destruct P as [|p P].
  - cbn [app].
    rewrite lstrip_not_in.
    2:{ destruct N as [|it N]; [done|]. cbn [map]. rewrite join_cons.
        apply Forall_cons in HN as [Hs _].
        by rewrite name_token_body, sign_char_neg, app_String. }
    rewrite split_no_sep by by apply negatives_no_star.
    cbn [split_parts].
    rewrite <- (app_empty_l (join (map name_token N))).
    rewrite split_negatives by done. cbn [split_part].
    destruct N as [|it N]; [done|].
    apply Forall_cons in HlN as [Hit HlN]. apply Forall_cons in HN as [Hs HN].
    cbn [map].
    destruct (split_part_bodies false N HlN HN it Hit Hs) as [-> _].
    by rewrite app_nil_r.
  - apply Forall_cons in HlP as [Hp HlP]. apply Forall_cons in HP as [Hs HP].
    destruct p as [b q]. cbn [app].
    rewrite lstrip_join_tokens by apply Hp. cbn [snd] in Hs. rewrite Hs.
    exact (split_parts_positives P N HlP HP HlN HN (b, q) Hp Hs).
Qed.

(** ** The powers of a name *)

Lemma Fraction_bool_opp (q : Fraction) :
  Fraction_bool q = true → Fraction_bool (- q)%Qc = true.
Proof.
  intros Hq%Fraction_bool_spec. apply Fraction_bool_spec.
  intros Hz. apply Hq. rewrite <- (Qcopp_involutive q), Hz. reflexivity.
Qed.

Lemma powers_of_factors_fold (l : list (string * Fraction)) :
  Forall named_item l →
  ∀ d : gmap string Fraction,
       foldl (λ d '(base, power, isnumer),
                if Fraction_bool power
                then <[base := if isnumer : bool then power
                               else (- power)%Qc]> d
                else d) d (map factor_of l)
       = foldl (λ d it, <[it.1 := it.2]> d) d l.
Proof.
  induction 1 as [|[b q] l [_ Hq] _ IH]; intros d; [done|].
  cbn [map foldl factor_of fst snd] in *. rewrite <- IH. f_equal.
  destruct (Fraction_pos q); [by rewrite Hq|].
  by rewrite Fraction_bool_opp, Qcopp_involutive.
Qed.

Lemma foldl_insert_list_to_map (items : list (string * Fraction))
    (d : gmap string Fraction) :
  foldl (λ d kv, <[kv.1 := kv.2]> d) d items
  = list_to_map (reverse items) ∪ d.
Proof.
  revert d. induction items as [|[k v] items IH]; intros d; cbn [foldl].
  - by rewrite reverse_nil, list_to_map_nil, (left_id_L ∅ (∪)).
  - rewrite IH, reverse_cons, list_to_map_app. cbn [list_to_map foldr].
    rewrite <-(assoc_L (∪)). f_equal.
    by rewrite insert_empty, <-insert_union_singleton_l.
Qed.

Lemma powers_of_factors_items (m : gmap string Fraction) :
  valid_powers m → nonzero_powers m →
  powers_of_factors (map factor_of (Dimension.sorted_items m)) = m.
Proof.
  intros Hv Hn. unfold powers_of_factors.
  rewrite powers_of_factors_fold by by apply sorted_items_named.
  rewrite foldl_insert_list_to_map, (right_id_L ∅ (∪)).
  assert (reverse (Dimension.sorted_items m) ≡ₚ map_to_list m) as Hperm
    by (by rewrite reverse_Permutation, sorted_items_perm).
  assert (NoDup (reverse (Dimension.sorted_items m)).*1) as Hnd
    by (rewrite Hperm; apply NoDup_fst_map_to_list).
  rewrite (list_to_map_proper _ _ Hnd Hperm). apply list_to_map_to_list.
Qed.

Lemma bracket_parts (x : string) :
  startswith "[" ("[" +:+ x +:+ "]") = true
  ∧ endswith "]" ("[" +:+ x +:+ "]") = true
  ∧ strip_ends ("[" +:+ x +:+ "]") = x.
Proof.
  change ("[" +:+ x +:+ "]") with (String "[" (x +:+ "]")).
  split_and!; [done| |].
  - cbn [endswith]. induction x as [|c x IH]; [done|].
    rewrite app_String. cbn [endswith].
    destruct (x +:+ "]") eqn:Ex; [by destruct x|]. exact IH.
  - unfold strip_ends. cbn [drop_str String.length].
    rewrite length_app_str. cbn [String.length].
    replace (S (String.length x + 1) - 2)%nat with (String.length x) by lia.
    induction x as [|c x IH]; [done|]. rewrite app_String. cbn. by rewrite IH.
Qed.

(** X3.  [_split_factors] reads a canonical name back: it yields the entries
    of the power map in the order of the name, each with the magnitude
    of its power and with the flag of a numerator exactly when the
    power is positive, and it ends without an exception. *)
Theorem split_factors_canonical (powers : gmap string Fraction) :
  valid_powers powers → nonzero_powers powers →
  _split_factors (Dimension.canonical_name powers)
  = (map factor_of (Dimension.sorted_items powers), None)
  ∧ powers_of_factors (_split_factors (Dimension.canonical_name powers)).1
    = powers.
Proof.
  intros Hv Hn.
  assert (_split_factors (Dimension.canonical_name powers)
          = (map factor_of (Dimension.sorted_items powers), None)) as E.
  { apply split_factors_tokens;
      [by apply sorted_items_named|apply sorted_items_sorted]. }
  split; [done|]. rewrite E. by apply powers_of_factors_items.
Qed.

(** X4.  The name of a class resolves to the class: for a class [cls] of
    the cache, [Dimension.__getattr__] on [cls.__name__] returns [cls]
    itself and leaves the registry as it was, which is what lets pickle
    find the class again by its qualified name.  A bracketed canonical
    name resolves as [from_powers] does on the powers. *)
Theorem getattr_class_name (r : registry) (n : string) (cls : Dimension) :
  registry_wf r →
  __cache r !! n = Some cls →
  Dimension__getattr__ (__name__ cls) r = (Ok cls, r)
  ∧ Dimension__getattr__
      ("[" +:+ Dimension.canonical_name (__powers cls) +:+ "]") r
    = Dimension.from_powers (__powers cls) r.
Proof.
  intros Hr Hc. pose proof Hr as [Hreg _].
  destruct (Hreg _ _ Hc) as (_ & Hname & Hn & Hv & Hnz).
  assert (Dimension__getattr__
            ("[" +:+ Dimension.canonical_name (__powers cls) +:+ "]") r
          = Dimension.from_powers (__powers cls) r) as E.
  { unfold Dimension__getattr__.
    destruct (bracket_parts (Dimension.canonical_name (__powers cls)))
      as (-> & -> & ->). cbn [andb].
    unfold Dimension.canonical_name.
    rewrite split_factors_tokens
      by (by apply sorted_items_named || apply sorted_items_sorted).
    by rewrite powers_of_factors_items. }
  split; [|done].
  rewrite Hname, <- Hn, E.
  eapply from_powers_of_cached; [done..|]. by apply drop_zero_id.
Qed.

Lemma split_factors_canonical_witness :
  valid_powers force_powers ∧ nonzero_powers force_powers
  ∧ _split_factors (Dimension.canonical_name force_powers)
    = (map factor_of (Dimension.sorted_items force_powers), None)
  ∧ powers_of_factors
      (_split_factors (Dimension.canonical_name force_powers)).1
    = force_powers.
Proof.
  assert (valid_powers force_powers) as Hv
    by (apply (bool_decide_eq_true_1 (valid_powers _)); vm_compute;
        reflexivity).
  assert (nonzero_powers force_powers) as Hn
    by (apply (bool_decide_eq_true_1 (nonzero_powers _)); vm_compute;
        reflexivity).
  split; [exact Hv|]. split; [exact Hn|].
  exact (split_factors_canonical force_powers Hv Hn).
Defined.

Lemma getattr_class_name_witness :
  registry_wf length_time
  ∧ __cache length_time !! "L" = Some Length_class
  ∧ Dimension__getattr__ (__name__ Length_class) length_time
    = (Ok Length_class, length_time)
  ∧ Dimension__getattr__
      ("[" +:+ Dimension.canonical_name (__powers Length_class) +:+ "]")
      length_time
    = Dimension.from_powers (__powers Length_class) length_time.
Proof.
  assert (__cache length_time !! "L" = Some Length_class) as Hc
    by (vm_compute; reflexivity).
  split; [exact length_time_wf|]. split; [exact Hc|].
  exact (getattr_class_name length_time "L" Length_class length_time_wf Hc).
Defined.

(** * Calling a class, and serialization *)

Section calls.
Context `{Host}.

(** X9.  What a call of a class returns is an instance of that class: the
    argument itself when it is one, or the quantity that [parse] makes
    of a string, tagged with the string.  The dictionary [units] is
    never changed. *)
Theorem call_returns_instance (cls : Dimension) (value q : obj V)
    (st st' : state) :
  Dimension__call__ cls value st = (Ok q, st') →
  ∃ c v pf,
    q = Quant c v pf
    ∧ dim_id c = dim_id cls
    ∧ units st' = units st
    ∧ ((value = q ∧ st' = st)
       ∨ (∃ s, value = PStr s ∧ pf = Some s ∧ parse s st = (Ok q, st')
               ∧ __powers cls ≠ ∅)).
Proof.
  unfold Dimension__call__. destruct value as [x|n|f|s|l|c v pf|a|]; try done.
  - destruct (parse s st) as [[r|e] st1] eqn:E.
    + erewrite bind_ok by exact E.
      destruct (parse_returns_quantity _ _ _ _ E) as (c & v & ->).
      cbn [type_]. case_bool_decide as Hp; cbn [type_eqb negb]; [done|].
      destruct (dim_id c =? dim_id cls)%N eqn:Hid; cbn [negb]; [|done].
      intros [= <- <-]. exists c, v, (Some s).
      split_and!; [done|by apply N.eqb_eq|by eapply keeps_parse|].
      right. by exists s.
    + by erewrite bind_err by exact E.
  - destruct (dim_id c =? dim_id cls)%N eqn:Hid; [|done].
    intros [= <- <-]. exists c, v, pf.
    split_and!; [done|by apply N.eqb_eq|done|by left].
Qed.

(** X10.  What a call of a class refuses: a number, or a quantity of another
    class, with [ValueError]; a string that parses to a quantity of
    another class, with [TypeError]; and, for the class without powers,
    every string, since [parse] returns only instances. *)
Theorem call_rejects (cls c : Dimension) (v : V) (pf : option string)
    (w : obj V) (s : string) (st : state) :
  plain_number w = true →
  dim_id c ≠ dim_id cls →
  Dimension__call__ cls w st = (Err ValueError, st)
  ∧ Dimension__call__ cls (Quant c v pf) st = (Err ValueError, st)
  ∧ (∀ st', parse s st = (Ok (Quant c v pf), st') →
            Dimension__call__ cls (PStr s) st = (Err TypeError, st'))
  ∧ (__powers cls = ∅ →
     ∃ e st', Dimension__call__ cls (PStr s) st = (Err e, st')).
Proof.
  intros Hw Hid. apply N.eqb_neq in Hid. split_and!.
  - by destruct w.
  - unfold Dimension__call__. by rewrite Hid.
  - intros st' E. unfold Dimension__call__. erewrite bind_ok by exact E.
    cbn [type_]. case_bool_decide; cbn [type_eqb negb]; [done|].
    by rewrite Hid.
  - intros Hp. unfold Dimension__call__.
    destruct (parse s st) as [[r|e] st1] eqn:E.
    + erewrite bind_ok by exact E.
      destruct (parse_returns_quantity _ _ _ _ E) as (c' & v' & ->).
      rewrite bool_decide_eq_true_2 by done. cbn. by eexists _, _.
    + erewrite bind_err by exact E. by eexists _, _.
Qed.

(** X11.  A value that [__stringly_loads__] returns is dumped as the string
    it was loaded from.  A value that arithmetic made, and a bare
    number, cannot be dumped. *)
Theorem stringly_round_trip (cls : Dimension) (s : string) (q : obj V)
    (st st' : state) :
  __stringly_loads__ cls s st = (Ok q, st') →
  __stringly_dumps__ cls q = Some s
  ∧ (∀ D x, __stringly_dumps__ cls (Dimension.__wrap__ D x) = None)
  ∧ (∀ x, __stringly_dumps__ cls (Plain x) = None).
Proof.
  intros Hload. split_and!.
  - unfold __stringly_loads__, Dimension__call__ in Hload.
    destruct (parse s st) as [[r|e] st1] eqn:E.
    + erewrite bind_ok in Hload by exact E.
      destruct (parse_returns_quantity _ _ _ _ E) as (c & v & ->).
      destruct (negb _); [done|]. by injection Hload as <- _.
    + by erewrite bind_err in Hload by exact E.
  - intros D x. unfold Dimension.__wrap__. by case_bool_decide.
  - done.
Qed.
End calls.

(** * Errors of [parse] *)

Section parse_errors.
Context `{Host}.

Lemma float_or_1_error x e : float_or_1 x = Err e → e = ValueError.
Proof.
  unfold float_or_1. destruct x; [done|].
  destruct (float_accepts _); [done|]. by intros [= <-].
Qed.

(** A factor whose unit is not defined fails with [ValueError]. *)
Lemma parse_step_undefined p (q : obj V) expr power isnumer st :
  units st !! lstrip "+-0123456789." expr = None →
  name_in (lstrip "+-0123456789." expr) Units.class_attrs = false →
  parse_step p q (expr, power, isnumer) st = (Err ValueError, st).
Proof.
  intros Hu Hattr. unfold parse_step.
  erewrite bind_err; [reflexivity|]. unfold try_except.
  assert (Units.getattr (lstrip "+-0123456789." expr) st
          = (Err AttributeError, st)) as Hget.
  { unfold Units.getattr. rewrite Hattr. unfold Units.__getattr__.
    erewrite bind_ok; [|reflexivity]. by rewrite Hu. }
  destruct (float_or_1 _) as [c|e] eqn:Ec.
  - erewrite bind_ok; [|reflexivity].
    by erewrite bind_err by exact Hget.
  - apply float_or_1_error in Ec as ->.
    by erewrite bind_err; [|reflexivity].
Qed.

Lemma foldM_fails p (item : string * Fraction * bool) factors (st : state) :
  (∀ s, keeps_units (p s)) →
  item ∈ factors →
  (∀ q st0, units st0 = units st →
            ∃ e, parse_step p q item st0 = (Err e, st0)) →
  ∀ q st0, units st0 = units st →
           ∃ e st1, foldM (parse_step p) q factors st0 = (Err e, st1).
Proof.
  intros Hp Hin Hitem. induction factors as [|x factors IH]; intros q st0 Hu.
  - by apply elem_of_nil in Hin.
  - cbn [foldM]. apply elem_of_cons in Hin as [<-|Hin].
    + destruct (Hitem q st0 Hu) as [e E]. exists e, st0.
      by erewrite bind_err by exact E.
    + destruct (parse_step p q x st0) as [[q'|e] st1] eqn:E.
      * erewrite bind_ok by exact E. apply IH; [done|].
        rewrite <- Hu. by eapply keeps_parse_step.
      * exists e, st1. by erewrite bind_err by exact E.
Qed.

(** X13.  A quantity string with a factor whose unit is not defined is never
    parsed: [parse] raises and leaves [units] as it was; when the
    factor is the first one the exception is [ValueError], raised
    before anything changed. *)
Theorem parse_undefined_unit (s expr : string) (power : Fraction)
    (isnumer : bool) (factors : list (string * Fraction * bool))
    (stop : option exn) (st : state) :
  _split_factors (lstrip "+-0123456789." s) = (factors, stop) →
  (expr, power, isnumer) ∈ factors →
  units st !! lstrip "+-0123456789." expr = None →
  name_in (lstrip "+-0123456789." expr) Units.class_attrs = false →
  (∃ e st', parse s st = (Err e, st') ∧ units st' = units st)
  ∧ (∀ rest, factors = (expr, power, isnumer) :: rest →
             parse s st = (Err ValueError, st)).
Proof.
  intros Hsplit Hin Hu Hattr. rewrite parse_unfold. unfold parse_body.
  rewrite Hsplit.
  destruct (float_or_1 _) as [c|e] eqn:Ec.
  2:{ apply float_or_1_error in Ec as ->. split; [by exists ValueError, st|].
      intros rest _. reflexivity. }
  erewrite bind_ok; [|reflexivity]. split.
  - destruct (foldM_fails (parse_depth 999) (expr, power, isnumer) factors st)
      with (q := Plain c) (st0 := st) as (e & st1 & E);
      [apply keeps_parse_depth|done| |done|].
    { intros q st0 Hu0. exists ValueError.
      apply parse_step_undefined; [by rewrite Hu0|done]. }
    exists e, st1. split; [by erewrite bind_err by exact E|].
    eapply (keeps_foldM (parse_step (parse_depth 999))); [|exact E].
    intros b a. apply keeps_parse_step, keeps_parse_depth.
  - intros rest ->. cbn [foldM].
    erewrite bind_err; [reflexivity|].
    erewrite bind_err; [reflexivity|]. by apply parse_step_undefined.
Qed.

(** X15.  A name that [units] inherits from [dict], or its table of
    prefixes, is found on the class before [__getattr__] is asked, so a
    unit of such a name is out of reach, whether it was defined or not:
    the attribute is not a quantity, and [parse] raises [TypeError]. *)
Theorem dict_attribute_shadows (name : string) (st : state) :
  name ∈ Units.class_attrs →
  Units.getattr name st = (Ok (ClassAttr name), st)
  ∧ parse name st = (Err TypeError, st).
Proof.
  intros Hname. unfold Units.class_attrs in Hname.
  repeat (apply elem_of_cons in Hname as [->|Hname];
          [split; reflexivity|]).
  by apply elem_of_nil in Hname.
Qed.

(** X14.  An exception of [_split_factors] is not translated: a string whose
    first factor has a malformed exponent raises what [int] or
    [Fraction] raised, [ZeroDivisionError] for a denominator zero. *)
Theorem parse_generator_error (s : string) (c : V) (e : exn) (st : state) :
  coefficient s = Some c →
  _split_factors (lstrip "+-0123456789." s) = ([], Some e) →
  parse s st = (Err e, st)
  ∧ (e = ValueError ∨ e = ZeroDivisionError).
Proof.
  intros Hc Hsplit. split.
  - rewrite parse_unfold. unfold parse_body. rewrite Hsplit.
    rewrite (coefficient_float _ _ Hc).
    erewrite bind_ok; [|reflexivity]. cbn [foldM].
    erewrite bind_ok; [|reflexivity]. by erewrite bind_err; [|reflexivity].
  - unfold _split_factors in Hsplit.
    destruct (next_split_parts_error
                (split "*" (lstrip "+-0123456789." s)) e)
      as [?|[?|?]]; [by rewrite Hsplit|tauto|tauto|].
    subst e. exfalso. revert Hsplit. clear.
    generalize (split "*" (lstrip "+-0123456789." s)). intros parts.
    induction parts as [|p parts IH]; [done|]. cbn [split_parts].
    destruct (split_part true (split "/" p)) as [l [e'|]] eqn:Ep.
    + intros [= -> ->].
      destruct (next_split_part_error true (split "/" p) StopIteration)
        as [?|[?|[_ Hnone]]]; [by rewrite Ep|done|done|].
      rewrite Ep in Hnone. done.
    + destruct (split_parts parts) as [l' e']. intros [= Hl ->].
      apply app_eq_nil in Hl as [-> ->]. by apply IH.
Qed.

(** X12.  What [parse] returns, when it returns, is an instance tagged with
    the string; and whatever the outcome, [units] is left as it was. *)
Theorem parse_outcome (s : string) (r : result (obj V)) (st st' : state) :
  parse s st = (r, st') →
  units st' = units st
  ∧ match r with
    | Ok q => ∃ cls v, q = Quant cls v (Some s)
    | Err e => True
    end.
Proof.
  intros E. split; [by eapply keeps_parse|].
  destruct r as [q|e]; [|done]. by eapply parse_returns_quantity.
Qed.
End parse_errors.

Section call_examples.
#[local] Existing Instance symbolic_host.

Lemma parse_two_metres : (parse "2m" metre_second).1 = Ok two_metres.
Proof. vm_compute. reflexivity. Qed.

Lemma call_two_metres :
  (Dimension__call__ Length_class (PStr "2m") metre_second).1 = Ok two_metres.
Proof. vm_compute. reflexivity. Qed.

Lemma call_returns_instance_witness :
  let st' := (Dimension__call__ Length_class (PStr "2m") metre_second).2 in
  Dimension__call__ Length_class (PStr "2m") metre_second
  = (Ok two_metres, st')
  ∧ ∃ c v pf,
      two_metres = Quant c v pf
      ∧ dim_id c = dim_id Length_class
      ∧ units st' = units metre_second
      ∧ (((PStr "2m" : obj V) = two_metres ∧ st' = metre_second)
         ∨ (∃ s, (PStr "2m" : obj V) = PStr s ∧ pf = Some s
                 ∧ parse s metre_second = (Ok two_metres, st')
                 ∧ __powers Length_class ≠ ∅)).
Proof.
  intros st'. pose proof (run_fst _ _ _ call_two_metres) as Hrun.
  split; [exact Hrun|].
  exact (call_returns_instance Length_class (PStr "2m") two_metres
           metre_second st' Hrun).
Defined.

Lemma call_rejects_witness :
  let w : obj V := Plain (SFloat "2") in
  plain_number w = true
  ∧ dim_id Time_class ≠ dim_id Length_class
  ∧ Dimension__call__ Length_class w metre_second
    = (Err ValueError, metre_second)
  ∧ Dimension__call__ Length_class (Quant Time_class (SFloat "3") None)
      metre_second
    = (Err ValueError, metre_second).
Proof.
  intros w.
  assert (dim_id Time_class ≠ dim_id Length_class) as Hid by discriminate.
  destruct (@call_rejects symbolic_host Length_class Time_class (SFloat "3") None w "2s"
              metre_second eq_refl Hid) as (Hw & Hq & _).
  split; [reflexivity|]. split; [exact Hid|]. split; [exact Hw|exact Hq].
Defined.

Lemma stringly_round_trip_witness :
  let st' := (Dimension__call__ Length_class (PStr "2m") metre_second).2 in
  __stringly_loads__ Length_class "2m" metre_second = (Ok two_metres, st')
  ∧ __stringly_dumps__ Length_class two_metres = Some "2m".
Proof.
  intros st'. pose proof (run_fst _ _ _ call_two_metres) as Hrun.
  split; [exact Hrun|].
  exact (proj1 (stringly_round_trip Length_class "2m" two_metres
                  metre_second st' Hrun)).
Defined.

Lemma parse_undefined_unit_witness :
  _split_factors (lstrip "+-0123456789." "3furlong")
  = ([("furlong", Fraction_of_int 1, true)], None)
  ∧ ("furlong", Fraction_of_int 1, true)
    ∈ [("furlong", Fraction_of_int 1, true)]
  ∧ units metre_second !! lstrip "+-0123456789." "furlong" = None
  ∧ name_in (lstrip "+-0123456789." "furlong") Units.class_attrs = false
  ∧ parse "3furlong" metre_second = (Err ValueError, metre_second).
Proof.
  assert (_split_factors (lstrip "+-0123456789." "3furlong")
          = ([("furlong", Fraction_of_int 1, true)], None)) as Hs
    by (vm_compute; reflexivity).
  assert (("furlong", Fraction_of_int 1, true)
          ∈ [("furlong", Fraction_of_int 1, true)]) as Hin by by left.
  assert (units metre_second !! lstrip "+-0123456789." "furlong" = None)
    as Hu by (vm_compute; reflexivity).
  split; [exact Hs|]. split; [exact Hin|]. split; [exact Hu|].
  split; [reflexivity|].
  exact (proj2 (parse_undefined_unit "3furlong" "furlong"
                  (Fraction_of_int 1) true _ None metre_second Hs Hin Hu
                  eq_refl) [] eq_refl).
Defined.

Lemma dict_attribute_shadows_witness :
  "items" ∈ Units.class_attrs
  ∧ Units.getattr "items" metre_second = (Ok (ClassAttr "items"), metre_second)
  ∧ parse "items" metre_second = (Err TypeError, metre_second).
Proof.
  assert ("items" ∈ Units.class_attrs) as Hin
    by (apply (bool_decide_eq_true_1 (_ ∈ _)); vm_compute; reflexivity).
  split; [exact Hin|].
  exact (dict_attribute_shadows "items" metre_second Hin).
Defined.

Lemma parse_generator_error_witness :
  coefficient "m_0" = Some (SFloat "1")
  ∧ _split_factors (lstrip "+-0123456789." "m_0")
    = ([], Some ZeroDivisionError)
  ∧ parse "m_0" metre_second = (Err ZeroDivisionError, metre_second).
Proof.
  split; [reflexivity|]. split; [reflexivity|].
  exact (proj1 (parse_generator_error "m_0" (SFloat "1") ZeroDivisionError
                  metre_second eq_refl eq_refl)).
Defined.

Lemma parse_outcome_witness :
  let st' := (parse "2m" metre_second).2 in
  parse "2m" metre_second = (Ok two_metres, st')
  ∧ units st' = units metre_second
  ∧ ∃ cls v, two_metres = Quant cls v (Some "2m").
Proof.
  intros st'. pose proof (run_fst _ _ _ parse_two_metres) as Hrun.
  split; [exact Hrun|].
  exact (parse_outcome "2m" (Ok two_metres) metre_second st' Hrun).
Defined.
End call_examples.

(** * Formatting with a unit *)



Section format.
Context `{Host}.




End format.

Section format_examples.
#[local] Existing Instance symbolic_host.

End format_examples.

(** * The tables after import *)

(** X28.  Importing the module raises nothing and leaves a state on the
    invariant, in which every unit symbol of the table is a quantity of
    the class that the table of dimensions has for what the unit
    measures: the newton is a [Force], the pascal a [Pressure], the
    ohm a [Resistance], the litre a [Volume], and so on; with the 19
    prefixed forms of each of the 35 symbols the dictionary holds 700
    entries. *)
Theorem import_tables_agree `{Host} :
  ∃ d,
    imported = Ok d
    ∧ state_wf initial
    ∧ Forall (λ ud : string * (SI.dimensions_table → Dimension),
                ∃ v pf, units initial !! ud.1 = Some (Quant (ud.2 d) v pf))
             unit_dimensions
    ∧ size (units initial) = 700%nat
    ∧ length unit_dimensions = 35%nat.
Proof.
  destruct imported as [d|e] eqn:Ed; [|by vm_compute in Ed].
  exists d. split; [done|]. split; [apply initial_wf|].
  assert (tables_agree = true) as Hall by (vm_compute; reflexivity).
  unfold tables_agree in Hall. rewrite Ed in Hall.
  cbn [result_bind] in Hall.
  rewrite forallb_forall in Hall.
  split_and!; [|vm_compute; reflexivity|reflexivity].
  apply Forall_forall. intros ud Hin. apply list_elem_of_In in Hin.
  specialize (Hall ud Hin). unfold unit_of_class in Hall.
  destruct (units initial !! ud.1) as [o|]; [|discriminate Hall].
  destruct o as [| | | | |c v pf| |]; try discriminate Hall.
  apply bool_decide_eq_true_1 in Hall. rewrite Hall.
  exists v, pf. reflexivity.
Qed.

(** * A unit, once defined, is parsed *)

Section define_parse.
Context `{Host}.

(** A definition by a quantity keeps the invariant, and leaves the
    registry alone. *)
Lemma define_quantity_wf name cls raw pf st st' :
  state_wf st → value_ok (Quant cls raw pf) →
  define name (Quant cls raw pf) st = (Ok tt, st') →
  state_wf st' ∧ dimensions st' = dimensions st.
Proof.
  intros [Hr Hu] Hok. destruct st as [r u]. cbn [dimensions units] in *.
  rewrite define_quantity. repeat case_bool_decide; try done.
  intros [= <-]. split; [|done]. split; [done|]. cbn [units].
  apply map_Forall_lookup. intros k o Hk.
  apply lookup_union_Some_raw in Hk as [Hk|[_ Hk]].
  - rewrite dict_of_list_to_map in Hk.
    apply elem_of_list_to_map_2 in Hk. rewrite elem_of_reverse in Hk.
    unfold prefixed_entries in Hk.
    apply list_elem_of_In, in_map_iff in Hk as (ps & [= _ <-] & _).
    destruct Hok. by apply wrap_ok.
  - apply lookup_insert_Some in Hk as [[_ <-]|[_ Hk]]; [done|].
    by apply (Hu k o).
Qed.

(** X16.  A symbol that was defined by a quantity is parsed as that
    quantity: [parse] returns an instance with the powers of the
    quantity, tagged with the symbol, whose payload is the defined
    payload to the power one, times the coefficient one of the factor
    and the coefficient one of the string. *)
Theorem define_then_parse (name : string) (cls : Dimension) (raw : V)
    (pf : option string) (st st' : state) :
  state_wf st →
  value_ok (Quant cls raw pf) → __powers cls ≠ ∅ →
  valid_symbol name = true →
  lstrip "+-0123456789." name = name →
  name_in name Units.class_attrs = false →
  define name (Quant cls raw pf) st = (Ok tt, st') →
  ∃ c st'',
    parse name st'
    = (Ok (Quant c
             (operator_call "mul"
                [Plain (float "1");
                 Plain (operator_call "mul"
                          [Plain (float "1");
                           Plain (operator_call "pow"
                                    [Plain raw;
                                     PFraction (Fraction_of_int 1)])])])
             (Some name)), st'')
    ∧ __powers c = __powers cls
    ∧ units st'' = units st'.
Proof.
  intros Hst Hok Hp Hv Hstrip Hattr Hdef.
  destruct (define_quantity_wf _ _ _ _ _ _ Hst Hok Hdef) as [Hst' _].
  assert (units st' !! name = Some (Quant cls raw pf)) as Hlook.
  { destruct st as [r u].
    by destruct (define_quantity_inserts _ _ _ _ _ _ _ Hdef) as (_ & ? & _). }
  destruct Hok as [Hvalid Hnz].
  assert (coefficient name = Some (float "1")) as Hc.
  { unfold coefficient, leading_literal. rewrite Hstrip.
    by rewrite Nat.sub_diag. }
  set (payload := operator_call "mul"
                    [Plain (float "1");
                     Plain (operator_call "mul"
                              [Plain (float "1");
                               Plain (operator_call "pow"
                                        [Plain raw;
                                         PFraction (Fraction_of_int 1)])])]).
  assert (parse_value (units st') name = Some (__powers cls, payload)) as Hpv.
  { unfold parse_value. rewrite Hc, Hstrip. cbn [mbind option_bind].
    rewrite split_factors_symbol by done.
    cbn [fold_factors factor_quantity]. rewrite Hc, Hstrip.
    unfold unit_quantity. rewrite Hattr, Hlook. cbn. f_equal.
    unfold q_mul, q_pow. cbn [fst snd]. f_equal.
    rewrite !product_empty_l; try apply product_nonzero;
      try apply to_power_nonzero.
    replace (Fraction_of_int 1) with 1%Qc by by apply Qc_is_canon.
    by apply to_power_1. }
  destruct (parse_computes name _ _ st' Hst' Hpv) as (st'' & _ & Hu & _ & Hrun).
  rewrite decide_False in Hrun by done.
  destruct Hrun as (c & Hrun & Hpc & _). by exists c, st''.
Qed.
End define_parse.

Section define_parse_examples.
#[local] Existing Instance symbolic_host.

Lemma define_then_parse_witness :
  let st' := (define "ft" (Quant Length_class (SFloat "0.3048") None)
                metre_second).2 in
  state_wf metre_second
  ∧ value_ok (Quant Length_class (SFloat "0.3048") None)
  ∧ __powers Length_class ≠ ∅
  ∧ valid_symbol "ft" = true
  ∧ lstrip "+-0123456789." "ft" = "ft"
  ∧ name_in "ft" Units.class_attrs = false
  ∧ define "ft" (Quant Length_class (SFloat "0.3048") None) metre_second
    = (Ok tt, st')
  ∧ ∃ c st'',
      parse "ft" st'
      = (Ok (Quant c
               (operator_call "mul"
                  [Plain (float "1");
                   Plain (operator_call "mul"
                            [Plain (float "1");
                             Plain (operator_call "pow"
                                      [Plain (SFloat "0.3048");
                                       PFraction (Fraction_of_int 1)])])])
               (Some "ft")), st'')
      ∧ __powers c = __powers Length_class
      ∧ units st'' = units st'.
Proof.
  intros st'.
  assert (value_ok (Quant Length_class (SFloat "0.3048") None)) as Hok
    by (apply (bool_decide_eq_true_1 (value_ok _)); vm_compute; reflexivity).
  assert ((define "ft" (Quant Length_class (SFloat "0.3048") None)
             metre_second).1 = Ok tt) as Hrun by (vm_compute; reflexivity).
  pose proof (run_fst _ _ _ Hrun) as Hdef.
  split; [exact metre_second_wf|]. split; [exact Hok|].
  split; [exact Length_class_powers|]. split; [reflexivity|].
  split; [reflexivity|]. split; [reflexivity|]. split; [exact Hdef|].
  exact (define_then_parse "ft" Length_class (SFloat "0.3048") None
           metre_second st' metre_second_wf Hok Length_class_powers
           eq_refl eq_refl eq_refl Hdef).
Defined.
End define_parse_examples.

(** * Sums with a bare number *)

Section additive_more.
Context `{Host}.

(** X18.  A quantity and a bare number are never added, subtracted or
    combined by [hypot]: whichever of the two comes first, the classes
    of the operands differ and [_dispatch] raises [TypeError], leaving
    the state as it was. *)
Theorem additive_plain_operand (op : callable) (D : Dimension) (v : V)
    (pf : option string) (w : obj V) (st : state) :
  fn_name op ∈ additive_names →
  plain_number w = true →
  _dispatch op [Quant D v pf; w] st = (Err TypeError, st)
  ∧ _dispatch op [w; Quant D v pf] st = (Err TypeError, st).
Proof.
  intros Hname Hw.
  assert (name_in (fn_name op) ["add"; "sub"; "subtract"; "hypot"] = true)
    as Hin.
  { unfold additive_names in Hname.
    repeat (apply elem_of_cons in Hname as [->|Hname]; [reflexivity|]).
    by apply elem_of_nil in Hname. }
  destruct (plain_number_type w Hw) as (_ & Hstr & _).
  split; rewrite dispatch_values by (repeat constructor; done);
    unfold Quantity.classify; rewrite Hin;
    unfold bind, lift_result, raise; cbn; by destruct w.
Qed.
End additive_more.

Section additive_more_examples.
#[local] Existing Instance symbolic_host.

Lemma additive_plain_operand_witness :
  let q : obj V := Quant Length_class (SFloat "3") None in
  let w : obj V := Plain (SFloat "2") in
  fn_name (operator "add") ∈ additive_names
  ∧ plain_number w = true
  ∧ _dispatch (operator "add") [q; w] metre_second
    = (Err TypeError, metre_second)
  ∧ _dispatch (operator "add") [w; q] metre_second
    = (Err TypeError, metre_second).
Proof.
  intros q w.
  assert (fn_name (operator "add") ∈ additive_names) as Hname
    by (apply (bool_decide_eq_true_1 (_ ∈ _)); vm_compute; reflexivity).
  split; [exact Hname|]. split; [reflexivity|].
  exact (additive_plain_operand (operator "add") Length_class (SFloat "3")
           None w metre_second Hname eq_refl).
Defined.
End additive_more_examples.

(** * What [_split_factors] yields *)

Lemma rstrip_idem chars s : rstrip chars (rstrip chars s) = rstrip chars s.
Proof.
  induction s as [|c s IH]; [done|]. cbn [rstrip].
  destruct (rstrip chars s) as [|d r] eqn:Er.
  - destruct (mem_char c chars) eqn:Hc; [done|]. cbn. by rewrite Hc.
  - cbn [rstrip]. cbn [rstrip] in IH. by rewrite IH.
Qed.

Lemma rstrip_prefix chars s : ∃ t, s = rstrip chars s +:+ t.
Proof.
  induction s as [|c s [t IH]]; [by exists ""|]. cbn [rstrip].
  destruct (rstrip chars s) as [|d r] eqn:Er.
  - destruct (mem_char c chars).
    + by exists (String c s).
    + exists s. by rewrite app_String, app_empty_l.
  - exists t. rewrite app_String. by rewrite <- IH.
Qed.

Lemma split_elem_no_sep sep s p : p ∈ split sep s → mem_char sep p = false.
Proof.
  revert p. induction s as [|c s IH]; intros p.
  - cbn. by intros ->%list_elem_of_singleton.
  - cbn [split]. destruct (Ascii.eqb c sep) eqn:Hc.
    + intros [->|Hp]%elem_of_cons; [done|by apply IH].
    + destruct (split sep s) as [|h t] eqn:Es.
      * intros ->%list_elem_of_singleton. cbn.
        by rewrite Ascii.eqb_sym, Hc.
      * intros [->|Hp]%elem_of_cons.
        -- cbn. rewrite Ascii.eqb_sym, Hc. apply IH. by left.
        -- apply IH. by right.
Qed.

Lemma split_elem_chars c sep s p :
  p ∈ split sep s → mem_char c s = false → mem_char c p = false.
Proof.
  revert p. induction s as [|d s IH]; intros p.
  - cbn. by intros ->%list_elem_of_singleton.
  - cbn [split mem_char]. destruct (Ascii.eqb c d) eqn:Hcd; [done|].
    destruct (Ascii.eqb d sep).
    + intros [->|Hp]%elem_of_cons Hs; [done|by apply IH].
    + destruct (split sep s) as [|h t] eqn:Es.
      * intros ->%list_elem_of_singleton _. cbn. by rewrite Hcd.
      * intros [->|Hp]%elem_of_cons Hs.
        -- cbn. rewrite Hcd. apply IH; [by left|done].
        -- apply IH; [by right|done].
Qed.

Lemma digit_value_nonneg c d : digit_value c = Some d → 0 ≤ d.
Proof.
  unfold digit_value, digits. cbn [mem_char].
  repeat match goal with
         | |- context [Ascii.eqb c ?x] =>
             destruct (Ascii.eqb_spec c x) as [->|];
             [intros [= <-]; by vm_compute|]
         end.
  done.
Qed.

Lemma int_go_nonneg s : ∀ acc b n,
  0 ≤ acc → int_go acc b s = Ok n → 0 ≤ n.
Proof.
  induction s as [|c s IH]; intros acc b n Hacc; cbn [int_go].
  - destruct b; [by intros [= <-]|done].
  - destruct (digit_value c) as [d|] eqn:Hd.
    + intros Hn. eapply IH; [|exact Hn].
      apply digit_value_nonneg in Hd. lia.
    + destruct (Ascii.eqb c "_" && b); [|done].
      intros Hn. by eapply IH.
Qed.

Lemma int_or_1_nonneg s n : int_or_1 s = Ok n → 0 ≤ n.
Proof.
  destruct s as [|c s]; [by intros [= <-]|].
  intros Hn. by eapply (int_go_nonneg _ 0 false).
Qed.

Lemma Fraction_new_nonneg n d q :
  0 ≤ n → Fraction_new n d = Ok q → (0 ≤ q)%Qc.
Proof.
  intros Hn. unfold Fraction_new. destruct d as [|p|p]; try done.
  intros [= <-]. unfold Qcle. cbn [this Q2Qc]. rewrite !Qred_correct.
  unfold Qle. cbn [Qnum Qden]. lia.
Qed.

Lemma split_factor_nonneg factor base power :
  split_factor factor = Ok (base, power) → (0 ≤ power)%Qc.
Proof.
  unfold split_factor.
  destruct (partition "_" _) as [[numer sep] denom].
  destruct (int_or_1 numer) as [n|] eqn:En; [|done]. cbn.
  destruct (int_or_1 denom) as [d|] eqn:Ed; [|done]. cbn.
  destruct (Fraction_new n d) as [q|] eqn:Eq; [|done]. cbn.
  intros [= _ <-]. eapply Fraction_new_nonneg; [|exact Eq].
  by eapply int_or_1_nonneg.
Qed.

Lemma elem_of_split_part isnumer factors item :
  item ∈ (split_part isnumer factors).1 →
  ∃ factor, factor ∈ factors ∧ factor ≠ ""
            ∧ split_factor factor = Ok item.1.
Proof.
  revert isnumer. induction factors as [|f factors IH]; intros isnumer.
  - cbn. by intros ?%elem_of_nil.
  - cbn [split_part]. destruct f as [|c f].
    + intros Hin. destruct (IH _ Hin) as (factor & ? & ? & ?).
      exists factor. split_and!; [by right|done..].
    + destruct (split_factor (String c f)) as [[base power]|e] eqn:Ef;
        [|by intros ?%elem_of_nil].
      destruct (split_part false factors) as [l e] eqn:El. cbn [fst].
      intros [->|Hin]%elem_of_cons.
      * exists (String c f). split_and!; [by left|done..].
      * destruct (IH false) as (factor & ? & ? & ?); [by rewrite El|].
        exists factor. split_and!; [by right|done..].
Qed.

Lemma elem_of_split_parts parts item :
  item ∈ (split_parts parts).1 →
  ∃ part factor, part ∈ parts ∧ factor ∈ split "/" part ∧ factor ≠ ""
                 ∧ split_factor factor = Ok item.1.
Proof.
  induction parts as [|p parts IH]; [by intros ?%elem_of_nil|].
  cbn [split_parts].
  destruct (split_part true (split "/" p)) as [l [e|]] eqn:Ep.
  - cbn [fst]. intros Hin.
    destruct (elem_of_split_part true (split "/" p) item)
      as (factor & ? & ? & ?); [by rewrite Ep|].
    exists p, factor. split_and!; [by left|done..].
  - destruct (split_parts parts) as [l' e'] eqn:Eps. cbn [fst] in *.
    intros [Hin|Hin]%elem_of_app.
    + destruct (elem_of_split_part true (split "/" p) item)
        as (factor & ? & ? & ?); [by rewrite Ep|].
      exists p, factor. split_and!; [by left|done..].
    + destruct (IH Hin) as (part & factor & ? & ? & ? & ?).
      exists part, factor. split_and!; [by right|done..].
Qed.

(** X29.  Whatever the string, a factor that [_split_factors] yields has
    a base that does not end in a digit or an underscore and holds no
    [*] and no [/], and a power that is not negative: the sign of an
    exponent is carried by the flag of the numerator alone. *)
Theorem split_factors_yields (s base : string) (power : Fraction)
    (isnumer : bool) :
  (base, power, isnumer) ∈ (_split_factors s).1 →
  rstrip "0123456789_" base = base
  ∧ any_chars "*/" base = false
  ∧ (0 ≤ power)%Qc.
Proof.
  intros Hin. unfold _split_factors in Hin.
  destruct (elem_of_split_parts _ _ Hin)
    as (part & factor & Hpart & Hfactor & Hne & Hf).
  cbn [fst] in Hf. pose proof (split_factor_base _ _ _ Hf) as ->.
  split_and!.
  - apply rstrip_idem.
  - assert (mem_char "*" factor = false) as Hstar
      by (eapply split_elem_chars; [exact Hfactor|];
          by eapply split_elem_no_sep).
    apply split_elem_no_sep in Hfactor.
    destruct (rstrip_prefix "0123456789_" factor) as [u Hu].
    rewrite any_chars_mem. apply orb_false_iff.
    rewrite <- !any_chars_single in *.
    rewrite Hu, any_chars_app in Hfactor, Hstar.
    apply orb_false_iff in Hfactor as [? _].
    apply orb_false_iff in Hstar as [? _]. done.
  - by eapply split_factor_nonneg.
Qed.

Lemma split_factors_yields_witness :
  let items := (_split_factors "kg*m/s2").1 in
  let item := default ("", Fraction_of_int 1, true) (items !! 2%nat) in
  item ∈ items
  ∧ rstrip "0123456789_" item.1.1 = item.1.1
  ∧ any_chars "*/" item.1.1 = false
  ∧ (0 ≤ item.1.2)%Qc.
Proof.
  intros items item.
  assert (items !! 2%nat = Some item) as Hat by (vm_compute; reflexivity).
  pose proof (list_elem_of_lookup_2 _ _ _ Hat) as Hin.
  split; [exact Hin|].
  destruct item as [[base power] isnumer].
  exact (split_factors_yields "kg*m/s2" base power isnumer Hin).
Defined.
